(** * A shallow embedding of the GPU job scheduler

    The development follows the Python sources:

    - [Dirs]            gpu-scheduler/gpu_scheduler/dirs.py
    - [GpuMonitor]      gpu-scheduler/gpu_scheduler/gpu_monitor.py
    - [Scheduler]       gpu-scheduler/gpu_scheduler/scheduler.py
    - [PriorityEngine]  app/services/priority_engine.py
    - [JobManager]      docker/slurm-mock/bin/job_manager.py
    - [EngineQueue]     app/services/priority_engine.py (the sorted queue)
                        and app/services/slurm_service.py

    Conventions.  Python floats are modelled by exact rationals ([Q]), so
    the rounding of float arithmetic is abstracted away; Python ints are
    [Z], and where an int becomes a float the [OverflowError] of a value
    out of the float range is kept; strings are [string]; a [dict] whose
    order is irrelevant is a [gmap], one whose insertion order is
    observed (the job store) is a list.  The fields of a job document
    hold values of the types its writers store (strings, numbers), never
    JSON [null].  Code that can raise is written in a state-and-exception
    monad: an exception keeps the state reached so far, as in Python. *)

From Stdlib Require Import Ascii QArith Qminmax Qround Lia Lqa Sorted.
From stdpp Require Import base gmap sets list strings pretty.

(** ** State and exception monad *)

Definition M (S A : Type) : Type := S -> option A * S.

Definition ret {S A} (a : A) : M S A := fun s => (Some a, s).

Definition raise {S A} : M S A := fun s => (None, s).

Definition bind {S A B} (m : M S A) (k : A -> M S B) : M S B :=
  fun s => match m s with
           | (Some a, s') => k a s'
           | (None, s') => (None, s')
           end.

Definition get {S} : M S S := fun s => (Some s, s).

Definition modify {S} (f : S -> S) : M S unit := fun s => (Some tt, f s).

(** An optional value that is an error when absent. *)
Definition lift_option {S A} (o : option A) : M S A :=
  fun s => (o, s).

(** Run a computation on a component [T] of the state [S]. *)
Definition zoom {S T A} (proj : S -> T) (upd : T -> S -> S) (m : M T A) : M S A :=
  fun s => let '(r, t) := m (proj s) in (r, upd t s).

(** The state a computation leaves, whether it returns or raises. *)
Definition exec {S A} (m : M S A) (s : S) : S := snd (m s).

(** Whether a computation returns. *)
Definition returns {S A} (m : M S A) (s : S) : bool :=
  match fst (m s) with Some _ => true | None => false end.

(** The monad is used with stdpp's notations [x ← m; k] and [m ;; k]. *)
Global Instance M_ret S : MRet (M S) := @ret S.

Global Instance M_bind S : MBind (M S) := fun A B k m => bind m k.

(** [for x in l: body(x)]. *)
Fixpoint for_each {S A} (l : list A) (body : A -> M S unit) : M S unit :=
  match l with
  | [] => ret tt
  | x :: rest => body x ;; for_each rest body
  end.

(** ** Python arithmetic and sorting *)

(** True division of floats: [ZeroDivisionError] on a zero divisor. *)
Definition py_div (a b : Q) : option Q :=
  if Qeq_bool b 0 then None else Some (a / b)%Q.

(** Python ints are unbounded, its floats are binary64 with largest
    value [2^1024 - 2^971].  An int that becomes a float ([float(n)], an
    int operand of a float operation) is rounded to nearest, ties to
    even, and [OverflowError] is raised when the result is out of range,
    that is when [|n| >= 2^1024 - 2^970]; the true division of two ints
    raises it under the same condition on the quotient. *)
Definition float_overflow_bound : Z := 2 ^ 1024 - 2 ^ 970.

Definition int_to_float (n : Z) : option Q :=
  if (float_overflow_bound <=? Z.abs n)%Z then None else Some (inject_Z n).

(** [a / b] on two ints: [ZeroDivisionError] or [OverflowError] is
    [None]. *)
Definition int_truediv (a b : Z) : option Q :=
  if decide (b = 0%Z) then None
  else if (float_overflow_bound * Z.abs b <=? Z.abs a)%Z then None
  else Some (inject_Z a / inject_Z b)%Q.

(** A number of a JSON document: an int or a float. *)
Inductive Number : Type :=
| Int (n : Z)
| Float (x : Q).


(** A number as the operand of a float operation. *)
Definition num_to_float (v : Number) : option Q :=
  match v with
  | Int n => int_to_float n
  | Float x => Some x
  end.

(** [v / b] for an int [b]. *)
Definition num_truediv (v : Number) (b : Z) : option Q :=
  match v with
  | Int n => int_truediv n b
  | Float x => y ← int_to_float b; py_div x y
  end.

(** [l.sort(key=key, reverse=True)]: a stable sort in descending key
    order; elements with equal keys keep their original order. *)
Fixpoint insert_desc {A} (key : A -> Q) (x : A) (l : list A) : list A :=
  match l with
  | [] => [x]
  | y :: rest =>
      if Qle_bool (key y) (key x) then x :: y :: rest
      else y :: insert_desc key x rest
  end.

Definition sort_desc {A} (key : A -> Q) (l : list A) : list A :=
  foldr (insert_desc key) [] l.

(** [round(x, 2)] on an exact value: to the nearest hundredth, a tie
    going to the even one.  The code rounds the binary64 sum, which can
    lie on the other side of a tie than the exact sum (the exact 2.015
    is the float 2.01499..., rounded to 2.01); the theorems on the
    daemon's score use of the rounding that it is monotone, that it
    moves a value by 0.005 at most and that 0 rounds to 0, not the side
    a tie falls to. *)
Definition round_half_even (x : Q) : Z :=
  let n := Qfloor x in
  let frac := (x - inject_Z n)%Q in
  match (frac ?= 1 # 2)%Q with
  | Lt => n
  | Gt => (n + 1)%Z
  | Eq => if Z.even n then n else (n + 1)%Z
  end.

Definition py_round2 (x : Q) : Q :=
  (inject_Z (round_half_even (x * 100)) / 100)%Q.

(** [f"{x:.2f}"]: the value rounded to two decimals, printed with its
    sign, its integer part and two digits. *)
Definition two_digits (n : Z) : string :=
  if (n <? 10)%Z then "0" +:+ pretty n else pretty n.

Definition format_2f (x : Q) : string :=
  let n := Z.abs (round_half_even (x * 100)) in
  (if Qle_bool 0 x then EmptyString else "-")
  +:+ pretty (n / 100)%Z +:+ "." +:+ two_digits (n mod 100)%Z.

(** ** Strings *)

(** [str.lower()] on ASCII text. *)
Definition lower_ascii (c : ascii) : ascii :=
  let n := nat_of_ascii c in
  if (65 <=? n)%nat && (n <=? 90)%nat then ascii_of_nat (n + 32) else c.

Fixpoint lower (s : string) : string :=
  match s with
  | EmptyString => EmptyString
  | String c s' => String (lower_ascii c) (lower s')
  end.

(** [needle in hay]. *)
Fixpoint contains (needle hay : string) : bool :=
  String.prefix needle hay
  || match hay with
     | EmptyString => false
     | String _ hay' => contains needle hay'
     end.

(** A timestamp field of a job file: missing or empty, present but
    rejected by [datetime.fromisoformat], or a parsed instant in seconds. *)
Inductive Stamp : Type :=
| Absent
| Malformed
| At (t : Q).

(** * dirs.py *)
Module Dirs.

(** A path is the list of its components below the filesystem root; the
    empty list is the root itself. *)
Abbreviation Path := (list string).

(** What a path names: a directory, or a regular file with its bytes. *)
Inductive Node : Type :=
| Dir
| File (content : string).

Abbreviation FS := (gmap Path Node).

(** [Path.name]: the final component. *)
Definition path_name (p : Path) : string := List.last p "".

(** [d / n] for a single component [n]. *)
Definition path_join (d : Path) (n : string) : Path := d ++ [n].

(** [Path.exists()]. *)
Definition path_exists (fs : FS) (p : Path) : bool :=
  match fs !! p with Some _ => true | None => false end.

(** [Path.is_dir()]; the root always is one. *)
Definition is_dir (fs : FS) (p : Path) : bool :=
  match p with
  | [] => true
  | _ => match fs !! p with Some Dir => true | _ => false end
  end.

(** [open(path, "wb")]: the parent must be a directory and the path must
    not be one; the file is created or truncated. *)
Definition open_wb (p : Path) : M FS unit :=
  fun fs =>
    if is_dir fs (removelast p) then
      match fs !! p with
      | Some Dir => (None, fs)
      | _ => (Some tt, <[p := File EmptyString]> fs)
      end
    else (None, fs).

(** One [os.mkdir] step of [mkdir(parents=True, exist_ok=True)]: an
    existing directory is accepted, an existing file is an error. *)
Definition mkdir_one (p : Path) : M FS unit :=
  fun fs => match fs !! p with
            | Some Dir => (Some tt, fs)
            | Some (File _) => (None, fs)
            | None => (Some tt, <[p := Dir]> fs)
            end.

(** Create the components [todo] one after the other below [done]. *)
Fixpoint mkdir_from (done todo : Path) : M FS unit :=
  match todo with
  | [] => ret tt
  | c :: rest =>
      mkdir_one (done ++ [c]) ;; mkdir_from (done ++ [c]) rest
  end.

(** [p.mkdir(parents=True, exist_ok=True)]. *)
Definition mkdir_parents (p : Path) : M FS unit := mkdir_from [] p.

(** Position of the last ["."] of a name, if it has one. *)
Fixpoint rfind_dot (s : string) : option nat :=
  match s with
  | EmptyString => None
  | String c s' =>
      match rfind_dot s' with
      | Some i => Some (S i)
      | None => if Ascii.eqb c "."%char then Some 0%nat else None
      end
  end.

Fixpoint all_dots (s : string) : bool :=
  match s with
  | EmptyString => true
  | String c s' => Ascii.eqb c "."%char && all_dots s'
  end.

(** [os.path.splitext] on a single path component: the extension starts
    at the last dot, unless only dots come before it. *)
Definition splitext (p : string) : string * string :=
  match rfind_dot p with
  | Some i =>
      if all_dots (String.substring 0 i p) then (p, EmptyString)
      else (String.substring 0 i p, String.substring i (String.length p - i) p)
  | None => (p, EmptyString)
  end.

(** The name tried after [counter - 1] collisions: [f"{base}_{counter}{ext}"]. *)
Definition candidate (new_name : string) (counter : nat) : string :=
  let '(base, ext) := splitext new_name in
  base +:+ "_" +:+ pretty counter +:+ ext.

(** The [while target.exists()] loop of [safe_rename].  [fuel] bounds the
    number of iterations; [find_free_total] below shows that the fuel
    [safe_rename] passes is always enough. *)
Fixpoint find_free (fs : FS) (dst_dir : Path) (new_name : string)
    (fuel : nat) (target : Path) (counter : nat) : option Path :=
  if path_exists fs target then
    match fuel with
    | O => None
    | S fuel' =>
        find_free fs dst_dir new_name fuel'
          (path_join dst_dir (candidate new_name counter)) (S counter)
    end
  else Some target.

(** Where [p] lands when the directory [src] is renamed to [target]. *)
Definition rebase (src target p : Path) : Path :=
  if decide (src `prefix_of` p) then target ++ drop (length src) p else p.

(** [src.replace(target)], i.e. [os.replace]: a missing source or a
    target whose parent is no directory is an error; a file replaces
    whatever file is at the target; a directory moves, with everything
    below it, to a target that does not exist. *)
Definition replace (src target : Path) : M FS unit :=
  fun fs =>
    if negb (is_dir fs (removelast target)) then (None, fs)
    else
      match fs !! src with
      | None => (None, fs)
      | Some (File c) =>
          match fs !! target with
          | Some Dir => (None, fs)
          | _ => (Some tt, <[target := File c]> (delete src fs))
          end
      | Some Dir =>
          if decide (src `prefix_of` target) then (None, fs)
          else match fs !! target with
               | Some _ => (None, fs)
               | None =>
                   (Some tt,
                    list_to_map
                      ((fun e : Path * Node => (rebase src target e.1, e.2))
                         <$> map_to_list fs))
               end
      end.

(** [DirLayout.safe_rename(src, dst_dir, new_name)]. *)
Definition safe_rename (src dst_dir : Path) (new_name : option string)
    : M FS Path :=
  mkdir_parents dst_dir ;;
  let new_name := default (path_name src) new_name in
  fs ← get;
  target ← lift_option
             (find_free fs dst_dir new_name (S (size fs))
                (path_join dst_dir new_name) 1);
  replace src target ;;
  ret target.

(** [DirLayout]: the five state directories below the resolved root. *)
Record DirLayout : Type := {
  root : Path
}.

Definition to_run (l : DirLayout) : Path := path_join (root l) "to_run".
Definition running (l : DirLayout) : Path := path_join (root l) "running".
Definition complete (l : DirLayout) : Path := path_join (root l) "complete".
Definition fail (l : DirLayout) : Path := path_join (root l) "fail".
Definition out (l : DirLayout) : Path := path_join (root l) "out".

(** [DirLayout.setup_dirs]. *)
Definition setup_dirs (l : DirLayout) : M FS unit :=
  mkdir_parents (to_run l) ;;
  mkdir_parents (running l) ;;
  mkdir_parents (complete l) ;;
  mkdir_parents (fail l) ;;
  mkdir_parents (out l).

End Dirs.

(** * gpu_monitor.py *)
Module GpuMonitor.

Record GpuMetrics : Type := {
  gpu_id : Z;
  name : string;
  memory_total : Z;
  memory_used : Z;
  temperature : option Z;
  utilization : option Z;
  is_healthy : bool
}.

(** What NVML reports for one device. *)
Record Reading : Type := {
  dev_name : string;
  mem_total : Z;
  mem_used : Z;
  temp : option Z;
  util : option Z
}.

Definition virtual_gpu : GpuMetrics :=
  {| gpu_id := 0; name := "virtual-gpu-0";
     memory_total := 16 * 1024 ^ 3; memory_used := 0;
     temperature := None; utilization := None; is_healthy := true |}.

Definition metrics_of (idx : nat) (r : Reading) : GpuMetrics :=
  {| gpu_id := Z.of_nat idx; name := dev_name r;
     memory_total := mem_total r; memory_used := mem_used r;
     temperature := temp r; utilization := util r;
     is_healthy := match temp r with
                   | Some t => negb (85 <=? t)%Z
                   | None => true
                   end |}.

(** [GpuMonitor.list_gpus]: [None] stands for NVML being unavailable,
    [Some readings] for the devices NVML enumerates. *)
Definition list_gpus (nvml : option (list Reading)) : list GpuMetrics :=
  match nvml with
  | None => [virtual_gpu]
  | Some readings => imap metrics_of readings
  end.

End GpuMonitor.

(** * scheduler.py *)
Module Scheduler.
Import Dirs GpuMonitor.

Record SlurmConfig : Type := {
  weight_age : Q;
  weight_fairshare : Q;
  weight_job_size : Q;
  weight_partition : Q;
  weight_qos : Q;
  fairshare_decay_norm : Q;
  partitions : gmap string Q;
  qos_levels : gmap string Q
}.

(** [SlurmConfig()]: the dataclass defaults. *)
Definition SlurmConfig_default : SlurmConfig :=
  {| weight_age := 1000;
     weight_fairshare := 10000;
     weight_job_size := 500;
     weight_partition := 1000;
     weight_qos := 1000;
     fairshare_decay_norm := 3600 * 10;
     partitions :=
       <["debug" := 1%Q]> (<["normal" := (1 # 2)%Q]> (<["batch" := (1 # 10)%Q]> ∅));
     qos_levels :=
       <["admin" := 1%Q]> (<["premium" := (8 # 10)%Q]>
       (<["standard" := (1 # 2)%Q]> (<["guest" := (1 # 10)%Q]> ∅))) |}.

Record Job : Type := {
  id : string;
  script_path : Path;
  user_id : string;
  vram_required : Z;
  created_at : Q;
  partition : string;
  qos : string;
  status : string;
  assigned_gpu : option Z;
  pid : option Z;
  priority_score : Q;
  _debug_factors : gmap string Q
}.

(** [Job(id=..., script_path=..., user_id=..., vram_required=...,
    partition=..., qos=..., created_at=...)]: the other fields take the
    dataclass defaults. *)
Definition new_job (job_id : string) (dst : Path) (user : string)
    (vram : Z) (part q : string) (now : Q) : Job :=
  {| id := job_id; script_path := dst; user_id := user;
     vram_required := vram; created_at := now;
     partition := part; qos := q;
     status := "QUEUED"; assigned_gpu := None; pid := None;
     priority_score := 0; _debug_factors := ∅ |}.

(** Attribute assignments [job.x = v]. *)
Definition set_script_path (v : Path) (j : Job) : Job :=
  {| id := id j; script_path := v; user_id := user_id j;
     vram_required := vram_required j; created_at := created_at j;
     partition := partition j; qos := qos j; status := status j;
     assigned_gpu := assigned_gpu j; pid := pid j;
     priority_score := priority_score j;
     _debug_factors := _debug_factors j |}.

Definition set_status (v : string) (j : Job) : Job :=
  {| id := id j; script_path := script_path j; user_id := user_id j;
     vram_required := vram_required j; created_at := created_at j;
     partition := partition j; qos := qos j; status := v;
     assigned_gpu := assigned_gpu j; pid := pid j;
     priority_score := priority_score j;
     _debug_factors := _debug_factors j |}.

Definition set_assigned_gpu (v : option Z) (j : Job) : Job :=
  {| id := id j; script_path := script_path j; user_id := user_id j;
     vram_required := vram_required j; created_at := created_at j;
     partition := partition j; qos := qos j; status := status j;
     assigned_gpu := v; pid := pid j;
     priority_score := priority_score j;
     _debug_factors := _debug_factors j |}.

Definition set_pid (v : option Z) (j : Job) : Job :=
  {| id := id j; script_path := script_path j; user_id := user_id j;
     vram_required := vram_required j; created_at := created_at j;
     partition := partition j; qos := qos j; status := status j;
     assigned_gpu := assigned_gpu j; pid := v;
     priority_score := priority_score j;
     _debug_factors := _debug_factors j |}.

Definition set_priority_score (v : Q) (j : Job) : Job :=
  {| id := id j; script_path := script_path j; user_id := user_id j;
     vram_required := vram_required j; created_at := created_at j;
     partition := partition j; qos := qos j; status := status j;
     assigned_gpu := assigned_gpu j; pid := pid j;
     priority_score := v;
     _debug_factors := _debug_factors j |}.

Definition set_debug_factors (v : gmap string Q) (j : Job) : Job :=
  {| id := id j; script_path := script_path j; user_id := user_id j;
     vram_required := vram_required j; created_at := created_at j;
     partition := partition j; qos := qos j; status := status j;
     assigned_gpu := assigned_gpu j; pid := pid j;
     priority_score := priority_score j;
     _debug_factors := v |}.

(** [Job.time_waiting], with the clock reading made explicit. *)
Definition time_waiting (now : Q) (j : Job) : Q := (now - created_at j)%Q.

(** ** UserUsageTracker: [user_id -> total_gpu_seconds] *)

Definition add_usage (user : string) (duration_sec : Q) (gpu_count : Z)
    (usage : gmap string Q) : gmap string Q :=
  let current := default 0%Q (usage !! user) in
  <[user := (current + duration_sec * inject_Z gpu_count)%Q]> usage.

Definition get_usage (user : string) (usage : gmap string Q) : Q :=
  default 0%Q (usage !! user).


(** ** InMemoryJobStore: a dict in insertion order *)

(** [self._jobs[job.id] = job]: an existing key keeps its position. *)
Fixpoint store_set (j : Job) (jobs : list Job) : list Job :=
  match jobs with
  | [] => [j]
  | j' :: rest =>
      if decide (id j' = id j) then j :: rest else j' :: store_set j rest
  end.

Definition add_job : Job -> list Job -> list Job := store_set.
Definition update_job : Job -> list Job -> list Job := store_set.
Definition list_jobs (jobs : list Job) : list Job := jobs.
Definition get_job (job_id : string) (jobs : list Job) : option Job :=
  List.find (fun j => bool_decide (id j = job_id)) jobs.

(** ** GpuScheduler *)

(** A supervisor task created by [_launch_job] and waiting for its child:
    the job it holds, the child's pid and the recorded start time. *)
Record Task : Type := {
  task_job : string;
  task_pid : Z;
  task_start : Q
}.

(** The scheduler object together with the disk it works on.  Job
    objects are shared between the store and the coroutines that hold
    them, so a coroutine's [job] is modelled by the job's id and every
    attribute assignment acts on the store. [loop_alive] is false once an
    exception has left [run_forever]. *)
Record State : Type := {
  fs : FS;
  layout : DirLayout;
  jobs : list Job;
  usage : gmap string Q;
  config : SlurmConfig;
  tasks : list Task;
  stop_event : bool;
  loop_alive : bool
}.

Definition set_fs (v : FS) (s : State) : State :=
  {| fs := v; layout := layout s; jobs := jobs s; usage := usage s;
     config := config s; tasks := tasks s; stop_event := stop_event s;
     loop_alive := loop_alive s |}.

Definition set_jobs (v : list Job) (s : State) : State :=
  {| fs := fs s; layout := layout s; jobs := v; usage := usage s;
     config := config s; tasks := tasks s; stop_event := stop_event s;
     loop_alive := loop_alive s |}.

Definition set_usage (v : gmap string Q) (s : State) : State :=
  {| fs := fs s; layout := layout s; jobs := jobs s; usage := v;
     config := config s; tasks := tasks s; stop_event := stop_event s;
     loop_alive := loop_alive s |}.

Definition set_tasks (v : list Task) (s : State) : State :=
  {| fs := fs s; layout := layout s; jobs := jobs s; usage := usage s;
     config := config s; tasks := v; stop_event := stop_event s;
     loop_alive := loop_alive s |}.

Definition set_stop_event (v : bool) (s : State) : State :=
  {| fs := fs s; layout := layout s; jobs := jobs s; usage := usage s;
     config := config s; tasks := tasks s; stop_event := v;
     loop_alive := loop_alive s |}.

Definition set_loop_alive (v : bool) (s : State) : State :=
  {| fs := fs s; layout := layout s; jobs := jobs s; usage := usage s;
     config := config s; tasks := tasks s; stop_event := stop_event s;
     loop_alive := v |}.

(** Filesystem calls act on the [fs] component. *)
Definition on_fs {A} (m : M FS A) : M State A := zoom fs set_fs m.

(** Read the object a reference points to. *)
Definition deref (r : string) : M State Job :=
  st ← get; lift_option (get_job r (jobs st)).

(** Assign to attributes of the object a reference points to. *)
Definition assign (r : string) (f : Job -> Job) : M State unit :=
  modify (fun st =>
    set_jobs ((fun j => if decide (id j = r) then f j else j) <$> jobs st) st).

(** [GpuScheduler.__init__(root_dir)] on the disk it finds. *)
Definition init (root_dir : Path) : M FS State :=
  let l := {| root := root_dir |} in
  setup_dirs l ;;
  mkdir_parents (out l) ;;
  disk ← get;
  ret {| fs := disk; layout := l; jobs := []; usage := ∅;
         config := SlurmConfig_default; tasks := [];
         stop_event := false; loop_alive := false |}.

(** [submit_job]; [job_id] is the value of [uuid.uuid4()] and [now] the
    reading of [time.time()]. *)
Definition submit_job (src_script : Path) (user : string) (vram : Z)
    (part q : string) (job_id : string) (now : Q) : M State Job :=
  st ← get;
  dst ← on_fs (safe_rename src_script (to_run (layout st))
                 (Some (job_id +:+ ".py")));
  let job := new_job job_id dst user vram part q now in
  modify (fun st => set_jobs (add_job job (jobs st)) st) ;;
  ret job.

(** ** SLURM priority *)

Definition max_age_sec : Q := 7 * 24 * 3600.
Definition max_vram_ref : Z := 80 * 1024 ^ 3.

Definition age_factor (now : Q) (job : Job) : Q :=
  Qmin (time_waiting now job / max_age_sec) 1.

Definition fs_factor (cfg : SlurmConfig) (user_usage : Q) : option Q :=
  x ← py_div user_usage (fairshare_decay_norm cfg);
  py_div 1 (1 + x).

(** [min(job.vram_required / max_vram_ref, 1.0)]: the division of the
    two ints raises [OverflowError] for a request too large for a float. *)
Definition size_factor (job : Job) : option Q :=
  x ← int_truediv (vram_required job) max_vram_ref;
  Some (Qmin x 1).

Definition part_factor (cfg : SlurmConfig) (job : Job) : Q :=
  default (1 # 2)%Q (partitions cfg !! partition job).

Definition qos_factor (cfg : SlurmConfig) (job : Job) : Q :=
  default (1 # 2)%Q (qos_levels cfg !! qos job).

(** The weighted sum of [_calculate_slurm_priority]. *)
Definition weighted_sum (cfg : SlurmConfig) (age fsf size part q : Q) : Q :=
  (weight_age cfg * age + weight_fairshare cfg * fsf
   + weight_job_size cfg * size + weight_partition cfg * part
   + weight_qos cfg * q)%Q.

(** The value [_calculate_slurm_priority] returns, as a function of the
    configuration, the ledger, the clock reading and the job; [None] is
    a [ZeroDivisionError] or an [OverflowError]. *)
Definition slurm_priority (cfg : SlurmConfig) (usage : gmap string Q)
    (now : Q) (job : Job) : option Q :=
  fsf ← fs_factor cfg (get_usage (user_id job) usage);
  size ← size_factor job;
  Some (weighted_sum cfg (age_factor now job) fsf size
          (part_factor cfg job) (qos_factor cfg job)).

Definition debug_factors (age fsf size part q user_usage : Q)
    : gmap string Q :=
  <["Age" := age]> (<["FairShare" := fsf]> (<["Size" := size]>
  (<["Partition" := part]> (<["QOS" := q]> (<["RawUsage" := user_usage]> ∅))))).

Definition calculate_slurm_priority (now : Q) (r : string) : M State Q :=
  job ← deref r;
  st ← get;
  let cfg := config st in
  let age := age_factor now job in
  let user_usage := get_usage (user_id job) (usage st) in
  fsf ← lift_option (fs_factor cfg user_usage);
  size ← lift_option (size_factor job);
  let part := part_factor cfg job in
  let q := qos_factor cfg job in
  let prio := weighted_sum cfg age fsf size part q in
  assign r (set_debug_factors (debug_factors age fsf size part q user_usage)) ;;
  ret prio.

(** [_pick_next_job]; [clock i] is the reading of [time.time()] while
    the [i]-th candidate is scored. *)
Definition pick_next_job (clock : nat -> Q) : M State (option string) :=
  st ← get;
  let candidates := id <$> filter (fun j => status j = "QUEUED") (jobs st) in
  match candidates with
  | [] => ret None
  | _ =>
      for_each (imap pair candidates)
        (fun ir => p ← calculate_slurm_priority (clock ir.1) ir.2;
                   assign ir.2 (set_priority_score p)) ;;
      st' ← get;
      let objs := omap (fun r => get_job r (jobs st')) candidates in
      ret (head (id <$> sort_desc priority_score objs))
  end.

Fixpoint scan_gpus (metrics : list GpuMetrics) (running_jobs : list Job)
    (vram : Z) : option Z :=
  match metrics with
  | [] => None
  | m :: rest =>
      if negb (is_healthy m) then scan_gpus rest running_jobs vram
      else if bool_decide (name m = "virtual-gpu-0")
              && bool_decide (0 < length running_jobs)%nat
      then scan_gpus rest running_jobs vram
      else
        let free_mem := (memory_total m - memory_used m)%Z in
        if (vram <=? free_mem)%Z && (memory_used m <? 1 * 1024 ^ 3)%Z
        then Some (gpu_id m)
        else scan_gpus rest running_jobs vram
  end.

(** [_find_available_gpu] on the metrics the monitor reports. *)
Definition find_available_gpu (metrics : list GpuMetrics) (vram : Z)
    : M State (option Z) :=
  st ← get;
  let running_jobs := filter (fun j => status j = "RUNNING") (jobs st) in
  ret (scan_gpus metrics running_jobs vram).

(** [ProcessRunner.start_process]; [spawn] is what [subprocess.Popen]
    does: the child's pid, or [None] when it raises. *)
Definition start_process (logs_dir : Path) (job_id : string)
    (spawn : option Z) : M FS Z :=
  open_wb (path_join logs_dir (job_id +:+ ".log")) ;;
  lift_option spawn.

(** [_launch_job]. *)
Definition launch_job (metrics : list GpuMetrics) (now : Q)
    (spawn : option Z) (r : string) : M State unit :=
  job ← deref r;
  found ← find_available_gpu metrics (vram_required job);
  match found with
  | None => ret tt
  | Some gpu =>
      let start_time := now in
      st ← get;
      new_script_path ← on_fs (safe_rename (script_path job)
                                 (running (layout st)) None);
      assign r (set_script_path new_script_path) ;;
      assign r (set_status "RUNNING") ;;
      assign r (set_assigned_gpu (Some gpu)) ;;
      proc ← on_fs (start_process (out (layout st)) (id job) spawn);
      assign r (set_pid (Some proc)) ;;
      job' ← deref r;
      modify (fun st => set_jobs (update_job job' (jobs st)) st) ;;
      modify (fun st =>
        set_tasks (tasks st ++ [{| task_job := r; task_pid := proc;
                                   task_start := start_time |}]) st)
  end.

(** [_wait_and_finalize] from the moment [proc.wait] has returned
    [return_code]; [now] is the reading of [time.time()]. *)
Definition wait_and_finalize (t : Task) (return_code : Z) (now : Q)
    : M State unit :=
  let r := task_job t in
  let duration := (now - task_start t)%Q in
  job ← deref r;
  modify (fun st => set_usage (add_usage (user_id job) duration 1 (usage st)) st) ;;
  st ← get;
  (if decide (return_code = 0%Z) then
     on_fs (safe_rename (script_path job) (complete (layout st)) None) ;;
     assign r (set_status "COMPLETED")
   else
     on_fs (safe_rename (script_path job) (fail (layout st)) None) ;;
     assign r (set_status "FAILED")) ;;
  job' ← deref r;
  modify (fun st => set_jobs (update_job job' (jobs st)) st).

(** One iteration of the [while] loop of [run_forever], up to the
    [asyncio.sleep]. *)
Definition run_pass (nvml : option (list Reading)) (clock : nat -> Q)
    (now : Q) (spawn : option Z) : M State unit :=
  next_job ← pick_next_job clock;
  match next_job with
  | Some r => launch_job (list_gpus nvml) now spawn r
  | None => ret tt
  end.

(** What one iteration does to [run_forever]: an exception leaves the
    loop. *)
Definition loop_iteration (nvml : option (list Reading)) (clock : nat -> Q)
    (now : Q) (spawn : option Z) (st : State) : State :=
  match run_pass nvml clock now spawn st with
  | (Some _, st') => st'
  | (None, st') => set_loop_alive false st'
  end.

(** [stop]. *)
Definition stop (st : State) : State := set_stop_event true st.

End Scheduler.

(** * priority_engine.py *)
Module PriorityEngine.

(** ** PriorityConfig *)
Definition WEIGHT_AGE : Q := 1000.
Definition WEIGHT_FAIRSHARE : Q := 10000.
Definition WEIGHT_JOB_SIZE : Q := 500.
Definition WEIGHT_PARTITION : Q := 1000.
Definition WEIGHT_QOS : Q := 10000.

Definition MAX_AGE_SEC : Q := 7 * 24 * 3600.
Definition FAIRSHARE_DECAY_NORM : Q := 10.
Definition MAX_VRAM_REF : Z := 80.

Definition PARTITION_SCORES : gmap string Q :=
  <["debug" := 1%Q]> (<["normal" := (1 # 2)%Q]> (<["batch" := (2 # 10)%Q]> ∅)).

Definition QOS_SCORES : gmap string Q :=
  <["hil" := 1%Q]> (<["high" := (8 # 10)%Q]>
  (<["standard" := (1 # 2)%Q]> (<["low" := (1 # 10)%Q]> ∅))).

(** ** UsageTracker: [usage_data] in memory and the copy [_save_db]
    last wrote to [db_path]. *)
Record UsageTracker : Type := {
  usage_data : gmap string Q;
  db : gmap string Q
}.

Definition _save_db (t : UsageTracker) : UsageTracker :=
  {| usage_data := usage_data t; db := usage_data t |}.

Definition get_usage (user : string) (t : UsageTracker) : Q :=
  default 0%Q (usage_data t !! user).

(** [record_usage(user, vram_gb, duration_sec)]; [vram_gb] is the float
    its argument is in the product [vram_gb * duration_sec].  For an int
    argument the conversion, which raises [OverflowError] before
    anything is stored, is made where the function is called
    ([EngineQueue.track_usage]). *)
Definition record_usage (user : string) (vram_gb : Q) (duration_sec : Q)
    (t : UsageTracker) : UsageTracker :=
  let usage := (vram_gb * duration_sec / 3600)%Q in
  let current := default 0%Q (usage_data t !! user) in
  _save_db {| usage_data := <[user := (current + usage)%Q]> (usage_data t);
              db := db t |}.

(** [for user in self.usage_data: self.usage_data[user] *= factor]. *)
Definition decay_usage (factor : Q) (t : UsageTracker) : UsageTracker :=
  _save_db {| usage_data := (fun v => (v * factor)%Q) <$> usage_data t;
              db := db t |}.

(** ** PriorityEngine *)

(** A job dictionary as [calculate_priority] reads it; [None] is a
    missing key. *)
Record JobDict : Type := {
  user : option string;
  qos : option string;
  partition : option string;
  vram_gb : option Number;
  submitted_at : Stamp
}.

Definition job_qos (job : JobDict) : string :=
  let q := lower (default "standard" (qos job)) in
  if decide (q = EmptyString) then "standard" else q.

Definition job_partition (job : JobDict) : string :=
  let p := lower (default "normal" (partition job)) in
  if decide (p = EmptyString) then "normal" else p.

Definition age_factor (wait_time_sec : Q) : Q :=
  Qmin (wait_time_sec / MAX_AGE_SEC) 1.

Definition fs_factor (user_usage : Q) : option Q :=
  py_div 1 (1 + user_usage / FAIRSHARE_DECAY_NORM).

(** [min(vram_gb / MAX_VRAM_REF, 1.0)] with [vram_gb = job.get("vram_gb", 2)]:
    for an int too large for a float the division raises
    [OverflowError]. *)
Definition size_factor (job : JobDict) : option Q :=
  x ← num_truediv (default (Int 2) (vram_gb job)) MAX_VRAM_REF;
  Some (Qmin x 1).

Definition part_factor (job : JobDict) : Q :=
  default (1 # 2)%Q (PARTITION_SCORES !! job_partition job).

Definition qos_factor (job : JobDict) : Q :=
  default (1 # 2)%Q (QOS_SCORES !! job_qos job).

Definition weighted_sum (age fsf size part q : Q) : Q :=
  (WEIGHT_AGE * age + WEIGHT_FAIRSHARE * fsf + WEIGHT_JOB_SIZE * size
   + WEIGHT_PARTITION * part + WEIGHT_QOS * q)%Q.

(** The dictionary stored under [job["_debug_factors"]]. *)
Definition debug_factors (age fsf size part q user_usage : Q)
    : gmap string string :=
  <["Age" := format_2f age]> (<["FairShare" := format_2f fsf]>
  (<["Size" := format_2f size]> (<["Partition" := format_2f part]>
  (<["QOS" := format_2f q]> (<["Usage" := format_2f user_usage]> ∅))))).

(** A call of [PriorityEngine.calculate_priority]: the priority it
    returns and the dictionary it stores under [job["_debug_factors"]]
    before it returns.  [now0] and [now] are the two readings of
    [datetime.utcnow()], the first one taken only when the job has no
    submission time.  [None] is an exception ([ValueError] from the
    timestamp, [ZeroDivisionError], [OverflowError]); it is raised
    before anything is stored. *)
Definition calculate_priority_call (t : UsageTracker) (now0 now : Q)
    (job : JobDict) : option (Q * gmap string string) :=
  submitted ← match submitted_at job with
              | Absent => Some now0
              | Malformed => None
              | At s => Some s
              end;
  let wait_time_sec := (now - submitted)%Q in
  let age := age_factor wait_time_sec in
  let user_usage := get_usage (default "unknown" (user job)) t in
  fsf ← fs_factor user_usage;
  size ← size_factor job;
  let part := part_factor job in
  let q := qos_factor job in
  Some (weighted_sum age fsf size part q,
        debug_factors age fsf size part q user_usage).

(** The value [calculate_priority] returns. *)
Definition calculate_priority (t : UsageTracker) (now0 now : Q)
    (job : JobDict) : option Q :=
  fst <$> calculate_priority_call t now0 now job.

End PriorityEngine.

(** * job_manager.py *)
Module JobManager.

Definition MAX_CONCURRENT : Z := 2.

Definition W_FAIR : Q := 1.
Definition W_AGE : Q := 1.
Definition W_PHYS : Q := 2.
Definition W_RES : Q := 1.
Definition W_HIL : Q := 10.

Definition PHYS_KEYWORDS : list string :=
  ["physics"; "sim"; "simulation"; "isaac"; "robot"; "mujoco"].

(** The JSON document of a job, with the strings and the int its writer
    stores.  A missing key reads as the default its [job.get] gives:
    the empty string, or 1 for [gpu_count]. *)
Record Job : Type := {
  job_id : string;
  job_name : string;
  user : string;
  script : string;
  status : string;
  qos : string;
  gpu_count : Z;
  submitted_at : Stamp;
  started_at : Stamp;
  completed_at : Stamp;
  priority_score : Q
}.

Definition set_priority_score (v : Q) (j : Job) : Job :=
  {| job_id := job_id j; job_name := job_name j; user := user j;
     script := script j; status := status j; qos := qos j;
     gpu_count := gpu_count j; submitted_at := submitted_at j;
     started_at := started_at j; completed_at := completed_at j;
     priority_score := v |}.

(** [job["status"] = "COMPLETED"; job["completed_at"] = now]. *)
Definition set_completed (now : Q) (j : Job) : Job :=
  {| job_id := job_id j; job_name := job_name j; user := user j;
     script := script j; status := "COMPLETED"; qos := qos j;
     gpu_count := gpu_count j; submitted_at := submitted_at j;
     started_at := started_at j; completed_at := At now;
     priority_score := priority_score j |}.

(** [job["status"] = "RUNNING"; job["started_at"] = now]. *)
Definition set_running (now : Q) (j : Job) : Job :=
  {| job_id := job_id j; job_name := job_name j; user := user j;
     script := script j; status := "RUNNING"; qos := qos j;
     gpu_count := gpu_count j; submitted_at := submitted_at j;
     started_at := At now; completed_at := completed_at j;
     priority_score := priority_score j |}.

(** [compute_priority(job, all_jobs)]; [now] is its reading of
    [datetime.utcnow()].  [None] is the [OverflowError] of
    [1.0 / max(gpu_count, 1)] for an int too large for a float. *)
Definition compute_priority (now : Q) (job : Job) (all_jobs : list Job)
    : option Q :=
  let f_fair :=
    if decide (user job = EmptyString) then 1%Q
    else
      let active :=
        length (filter (fun j => user j = user job
                              /\ (status j = "PENDING" \/ status j = "RUNNING"))
                  all_jobs) in
      (1 / inject_Z (Z.max (Z.of_nat active) 1))%Q in
  let f_age :=
    match submitted_at job with
    | At sub => Qmax ((now - sub) / 60) 0
    | _ => 0%Q
    end in
  let text := lower (job_name job +:+ " " +:+ script job) in
  let f_phys :=
    if existsb (fun kw => contains kw text) PHYS_KEYWORDS then 1%Q else 0%Q in
  gpus ← int_to_float (Z.max (gpu_count job) 1);
  let f_res := (1 / gpus)%Q in
  let f_hil := if decide (lower (qos job) = "hil") then 1%Q else 0%Q in
  Some (py_round2 (W_FAIR * f_fair + W_AGE * f_age + W_PHYS * f_phys
                   + W_RES * f_res + W_HIL * f_hil)).

(** A job file of [JOBS_DIR]: [(job_data, job_file)]. *)
Record Entry : Type := {
  job : Job;
  file : string
}.

(** [save_job(job_data, job_file)] on the directory's files. *)
Fixpoint save_job (job_data : Job) (job_file : string) (disk : list Entry)
    : list Entry :=
  match disk with
  | [] => [{| job := job_data; file := job_file |}]
  | e :: rest =>
      if decide (file e = job_file)
      then {| job := job_data; file := job_file |} :: rest
      else e :: save_job job_data job_file rest
  end.

(** Step 1 on one entry: a RUNNING job started 30 s ago or earlier is
    completed and saved. *)
Definition due (now : Q) (j : Job) : bool :=
  bool_decide (status j = "RUNNING")
  && match started_at j with
     | At started => Qle_bool 30 (now - started)
     | _ => false
     end.

Fixpoint complete_running (now : Q) (entries : list Entry)
    : M (list Entry) (list Entry) :=
  match entries with
  | [] => ret []
  | e :: rest =>
      e' ← (if due now (job e) then
              let j := set_completed now (job e) in
              modify (save_job j (file e)) ;;
              ret {| job := j; file := file e |}
            else ret e);
      rest' ← complete_running now rest;
      ret (e' :: rest')
  end.

(** Step 3, the scoring:
    [for j, _ in pending: j["priority_score"] = compute_priority(j, all_jobs)];
    [clock i] is the clock reading while the [i]-th pending job is
    scored. *)
Fixpoint score_pending (clock : nat -> Q) (i : nat) (pending : list Entry)
    (all_jobs : list Job) : option (list Entry) :=
  match pending with
  | [] => Some []
  | e :: rest =>
      p ← compute_priority (clock i) (job e) all_jobs;
      rest' ← score_pending clock (S i) rest all_jobs;
      Some ({| job := set_priority_score p (job e); file := file e |} :: rest')
  end.

(** Step 4: start the sorted pending jobs while slots remain. *)
Fixpoint start_pending (now : Q) (available_slots : Z) (pending : list Entry)
    : M (list Entry) unit :=
  match pending with
  | [] => ret tt
  | e :: rest =>
      if (available_slots <=? 0)%Z then ret tt
      else
        modify (save_job (set_running now (job e)) (file e)) ;;
        start_pending now (available_slots - 1) rest
  end.

(** [process_jobs] on the job files, listed in the order [glob] gives;
    [now] is the reading of [datetime.utcnow()] at its start and
    [clock i] the one while the [i]-th pending job is scored. *)
Definition process_jobs (now : Q) (clock : nat -> Q) : M (list Entry) unit :=
  entries ← get;
  match entries with
  | [] => ret tt
  | _ =>
      entries ← complete_running now entries;
      let all_jobs := job <$> entries in
      let running_count :=
        length (filter (fun e => status (job e) = "RUNNING") entries) in
      let available_slots := (MAX_CONCURRENT - Z.of_nat running_count)%Z in
      if (available_slots <=? 0)%Z then ret tt
      else
        let pending := filter (fun e => status (job e) = "PENDING") entries in
        pending ← lift_option (score_pending clock 0 pending all_jobs);
        let pending := sort_desc (fun e => priority_score (job e)) pending in
        start_pending now available_slots pending
  end.

End JobManager.

(** * priority_engine.py: the sorted queue *)
Module EngineQueue.

(** A stable sort by an order given as a test: [le y x] puts [x] before
    [y]; elements that the order does not separate keep their places. *)
Fixpoint insert_by {A} (le : A -> A -> bool) (x : A) (l : list A) : list A :=
  match l with
  | [] => [x]
  | y :: rest => if le y x then x :: y :: rest else y :: insert_by le x rest
  end.

Definition sort_by {A} (le : A -> A -> bool) (l : list A) : list A :=
  foldr (insert_by le) [] l.

(** [l.sort(key=key, reverse=True)] for a key that is a string. *)
Definition sort_desc_str {A} (key : A -> string) (l : list A) : list A :=
  sort_by (fun y x => String.leb (key y) (key x)) l.

(** [s.replace("Z", "")]. *)
Fixpoint remove_Z (s : string) : string :=
  match s with
  | EmptyString => EmptyString
  | String c s' =>
      if Ascii.eqb c "Z"%char then remove_Z s' else String c (remove_Z s')
  end.

(** A job dictionary of the queue as [squeue] prints it; [None] is a
    missing key, the timestamps are the texts found;
    [debug_factors] is the key [_debug_factors]. *)
Record Job : Type := {
  job_id : option string;
  status : option string;
  user : option string;
  qos : option string;
  partition : option string;
  vram_gb : option Number;
  submitted_at : option string;
  started_at : option string;
  completed_at : option string;
  priority_score : option Q;
  debug_factors : option (gmap string string)
}.

(** [job["priority_score"] = prio]. *)
Definition set_priority_score (v : Q) (j : Job) : Job :=
  {| job_id := job_id j; status := status j; user := user j; qos := qos j;
     partition := partition j; vram_gb := vram_gb j;
     submitted_at := submitted_at j; started_at := started_at j;
     completed_at := completed_at j; priority_score := Some v;
     debug_factors := debug_factors j |}.

(** [job["_debug_factors"] = {...}], done inside [calculate_priority]. *)
Definition set_debug_factors (v : gmap string string) (j : Job) : Job :=
  {| job_id := job_id j; status := status j; user := user j; qos := qos j;
     partition := partition j; vram_gb := vram_gb j;
     submitted_at := submitted_at j; started_at := started_at j;
     completed_at := completed_at j; priority_score := priority_score j;
     debug_factors := Some v |}.

(** The engine's singletons: [usage_tracker] and the module-level set
    [processed_job_ids]. *)
Record Engine : Type := {
  usage_tracker : PriorityEngine.UsageTracker;
  processed_job_ids : gset (option string)
}.

(** The four lists the loop of [sort_jobs_by_priority] fills. *)
Record Buckets : Type := {
  running : list Job;
  pending : list Job;
  completed : list Job;
  other : list Job
}.

Section Listing.

(** [datetime.fromisoformat] as seconds on the time line; [None] is its
    [ValueError]. *)
Variable fromisoformat : string -> option Q.

(** A timestamp text as the code reads it: an absent or empty text is
    skipped by [if text:], any other goes through
    [fromisoformat(text.replace("Z", ""))]. *)
Definition read_stamp (text : option string) : Stamp :=
  match text with
  | None => Absent
  | Some s =>
      if decide (s = EmptyString) then Absent
      else match fromisoformat (remove_Z s) with
           | Some t => At t
           | None => Malformed
           end
  end.

(** The keys [calculate_priority] reads. *)
Definition as_dict (job : Job) : PriorityEngine.JobDict :=
  {| PriorityEngine.user := user job;
     PriorityEngine.qos := qos job;
     PriorityEngine.partition := partition job;
     PriorityEngine.vram_gb := vram_gb job;
     PriorityEngine.submitted_at := read_stamp (submitted_at job) |}.

(** The [try] block of the loop: the usage of a COMPLETED job that was
    not processed yet is recorded once both of its timestamps can be
    read; an exception in the block (a timestamp that cannot be read, a
    [vram_gb] too large for the product [vram_gb * duration_sec] of
    [record_usage]) is caught and changes nothing. *)
Definition track_usage (job : Job) (e : Engine) : Engine :=
  match read_stamp (started_at job), read_stamp (completed_at job),
        num_to_float (default (Int 2) (vram_gb job)) with
  | At start, At finish, Some vram =>
      let duration := (finish - start)%Q in
      {| usage_tracker :=
           PriorityEngine.record_usage (default "unknown" (user job))
             vram duration (usage_tracker e);
         processed_job_ids := {[ job_id job ]} ∪ processed_job_ids e |}
  | _, _, _ => e
  end.

(** The usage tracking of the loop: [if status == "COMPLETED" and job_id
    not in processed_job_ids: try: ...]. *)
Definition track_completed (status : string) (job : Job) : M Engine unit :=
  e ← get;
  if decide (status = "COMPLETED")
  then if decide (job_id job ∈ processed_job_ids e) then ret tt
       else modify (track_usage job)
  else ret tt.

(** The [if]/[elif] chain that files the job under its status. *)
Definition append_by_status (status : string) (job : Job) (b : Buckets)
    : Buckets :=
  if decide (status = "RUNNING")
  then {| running := running b ++ [job]; pending := pending b;
          completed := completed b; other := other b |}
  else if decide (status = "PENDING")
  then {| running := running b; pending := pending b ++ [job];
          completed := completed b; other := other b |}
  else if decide (status = "COMPLETED")
  then {| running := running b; pending := pending b;
          completed := completed b ++ [job]; other := other b |}
  else {| running := running b; pending := pending b;
          completed := completed b; other := other b ++ [job] |}.

(** The body of the loop for one job; [now0] and [now] are the readings
    of [datetime.utcnow()] inside [calculate_priority]. *)
Definition visit (now0 now : Q) (job : Job) (b : Buckets)
    : M Engine Buckets :=
  let status := default "PENDING" (status job) in
  e ← get;
  call ← lift_option
           (PriorityEngine.calculate_priority_call (usage_tracker e) now0 now
              (as_dict job));
  let job := set_priority_score call.1 (set_debug_factors call.2 job) in
  track_completed status job ;;
  ret (append_by_status status job b).

(** [for job in jobs: ...]; [clock0 i] and [clock i] are the clock
    readings while the [i]-th job is scored. *)
Fixpoint visit_all (clock0 clock : nat -> Q) (i : nat) (jobs : list Job)
    (b : Buckets) : M Engine Buckets :=
  match jobs with
  | [] => ret b
  | job :: rest =>
      b' ← visit (clock0 i) (clock i) job b;
      visit_all clock0 clock (S i) rest b'
  end.

(** [sort_jobs_by_priority(jobs)]. *)
Definition sort_jobs_by_priority (clock0 clock : nat -> Q) (jobs : list Job)
    : M Engine (list Job) :=
  b ← visit_all clock0 clock 0 jobs
        {| running := []; pending := []; completed := []; other := [] |};
  let pending :=
    sort_desc (fun x => default 0%Q (priority_score x)) (pending b) in
  let completed :=
    sort_desc_str (fun x => default EmptyString (completed_at x))
      (completed b) in
  ret (running b ++ pending ++ completed ++ other b).

(** [compute_priority_for_job(job)]. *)
Definition compute_priority_for_job (now0 now : Q) (job : Job)
    : M Engine Q :=
  e ← get;
  lift_option
    (PriorityEngine.calculate_priority (usage_tracker e) now0 now (as_dict job)).

(** ** slurm_service.py: [SlurmService.get_jobs] and [get_job] on the
    list [squeue] has printed. *)
Definition get_jobs (clock0 clock : nat -> Q) (squeue : list Job)
    : M Engine (list Job) :=
  sort_jobs_by_priority clock0 clock squeue.

Definition get_job (clock0 clock : nat -> Q) (squeue : list Job)
    (wanted : string) : M Engine (option Job) :=
  jobs ← get_jobs clock0 clock squeue;
  ret (List.find (fun job => bool_decide (job_id job = Some wanted)) jobs).

End Listing.

End EngineQueue.

(** * Vocabulary of the statements

    The scenarios, relations and measures the properties below are
    stated with. *)


Section PriorityInputs.
Import Scheduler.

(** The inputs of the priority computation that belong to the job. *)
Definition same_inputs (j j' : Job) : Prop :=
  user_id j = user_id j' /\ vram_required j = vram_required j'
  /\ created_at j = created_at j' /\ partition j = partition j'
  /\ qos j = qos j'.

End PriorityInputs.

(** A scheduler state with one queued job: J1 of alice, who has ten
    hours of recorded usage. *)
Definition one_job_state : Scheduler.State :=
  {| Scheduler.fs := ∅;
     Scheduler.layout := {| Dirs.root := ["w"] |};
     Scheduler.jobs :=
       [Scheduler.new_job "J1" ["w"; "to_run"; "J1.py"] "alice"
          (2 * 1024 ^ 3) "normal" "standard" 0];
     Scheduler.usage := <["alice" := 36000%Q]> ∅;
     Scheduler.config := Scheduler.SlurmConfig_default;
     Scheduler.tasks := [];
     Scheduler.stop_event := false;
     Scheduler.loop_alive := true |}.

(** Two uploaded scripts waiting to be submitted. *)
Definition uploads : Dirs.FS :=
  <[ ["uploads"] := Dirs.Dir ]>
  (<[ ["uploads"; "j1.py"] := Dirs.File "print(1)" ]>
  (<[ ["uploads"; "j2.py"] := Dirs.File "print(2)" ]> ∅)).

(** Scenario S2 on [GpuScheduler]: a fresh root, the synthetic GPU, J1
    (alice, standard) submitted at time 0, J2 (bob, hil) at time 1, and
    one admission pass at time 2. *)
Definition scenario_S2 : option Scheduler.State :=
  st ← fst (Scheduler.init ["work"] uploads);
  Some (exec
          (Scheduler.submit_job ["uploads"; "j1.py"] "alice" (1024 ^ 3)
             "normal" "standard" "J1" 0 ;;
           Scheduler.submit_job ["uploads"; "j2.py"] "bob" (1024 ^ 3)
             "normal" "hil" "J2" 1 ;;
           Scheduler.run_pass None (fun _ => 2%Q) 2 (Some 4242%Z)) st).

Definition status_of (r : string) (st : Scheduler.State) : option string :=
  Scheduler.status <$> Scheduler.get_job r (Scheduler.jobs st).

(** Two job dictionaries that differ at most in their QoS. *)
Definition same_but_qos (a b : PriorityEngine.JobDict) : Prop :=
  PriorityEngine.user a = PriorityEngine.user b
  /\ PriorityEngine.partition a = PriorityEngine.partition b
  /\ PriorityEngine.vram_gb a = PriorityEngine.vram_gb b
  /\ PriorityEngine.submitted_at a = PriorityEngine.submitted_at b.

(** Two scheduler jobs that differ at most in their QoS (and in what
    the scheduler itself assigns). *)
Definition same_but_qos_job (a b : Scheduler.Job) : Prop :=
  Scheduler.user_id a = Scheduler.user_id b
  /\ Scheduler.vram_required a = Scheduler.vram_required b
  /\ Scheduler.created_at a = Scheduler.created_at b
  /\ Scheduler.partition a = Scheduler.partition b.

Section RenameNames.
Import Dirs.

(** The [k]-th name the loop of [safe_rename] tries: the requested name,
    then the suffixed ones. *)
Definition nth_name (new_name : string) (k : nat) : string :=
  match k with
  | O => new_name
  | S _ => candidate new_name k
  end.

(** Two uploads named [a.py] moved into [work/to_run], where an [a.py]
    already waits: they become [a_1.py] and [a_2.py]. *)
Definition two_uploads : FS :=
  <[ ["u1"; "a.py"] := File "first" ]>
  (<[ ["u2"; "a.py"] := File "second" ]>
  (<[ ["work"; "to_run"; "a.py"] := File "older" ]> ∅)).

End RenameNames.

Section SubmitScenario.
Import Dirs Scheduler.

(** A scheduler freshly started on [work], next to the two uploads. *)
Definition fresh_state : State :=
  {| fs := exec (init ["work"]) uploads;
     layout := {| root := ["work"] |};
     jobs := []; usage := ∅; config := SlurmConfig_default;
     tasks := []; stop_event := false; loop_alive := false |}.

End SubmitScenario.

Section SupervisorOutcome.
Import Dirs Scheduler.

(** The directory a finished script goes to. *)
Definition final_dir (l : DirLayout) (return_code : Z) : Path :=
  if decide (return_code = 0%Z) then complete l else fail l.

Definition final_status (return_code : Z) : string :=
  if decide (return_code = 0%Z) then "COMPLETED" else "FAILED".

End SupervisorOutcome.

(** The scheduler after J1 was submitted at time 0 and started at time
    10 on the synthetic GPU. *)
Definition running_state : Scheduler.State :=
  exec (Scheduler.submit_job ["uploads"; "j1.py"] "alice" (1024 ^ 3)
          "normal" "standard" "J1" 0 ;;
        Scheduler.run_pass None (fun _ => 10%Q) 10 (Some 4242%Z))
    fresh_state.

Definition running_job : Scheduler.Job :=
  default (Scheduler.new_job "J1" [] "alice" 0 "normal" "standard" 0)
    (Scheduler.get_job "J1" (Scheduler.jobs running_state)).

Definition running_task : Scheduler.Task :=
  {| Scheduler.task_job := "J1"; Scheduler.task_pid := 4242;
     Scheduler.task_start := 10 |}.

Section RestartScenario.
Import Dirs Scheduler.

(** Two disks hold the same regular files. *)
Definition same_files (a b : FS) : Prop :=
  forall p c, a !! p = Some (File c) <-> b !! p = Some (File c).

(** The disk a crash leaves while J1 is running. *)
Definition crashed_disk : FS := fs running_state.

End RestartScenario.

(** [x] comes no later than [y] in descending key order. *)
Definition desc {A} (key : A -> Q) (x y : A) : Prop := (key y <= key x)%Q.

(** Every run of [m], returning or raising, relates the state it starts
    from to the state it leaves. *)
Definition preserves {S A} (R : relation S) (m : M S A) : Prop :=
  forall s, R s (exec m s).

Section StoreRelations.
Import Dirs GpuMonitor Scheduler.

(** The store after attribute assignments [F] to the job of id [r]. *)
Definition amap (r : string) (F : Job -> Job) (l : list Job) : list Job :=
  (fun j => if decide (id j = r) then F j else j) <$> l.

(** The store changed at most in attributes other than id and status. *)
Definition rescored (st st' : State) : Prop :=
  exists G, (forall j, id (G j) = id j /\ status (G j) = status j)
            /\ jobs st' = G <$> jobs st.

(** The store changed at most in the job of id [r], whose status is
    kept or set to [s]. *)
Definition touched (r s : string) (st st' : State) : Prop :=
  exists F, (forall j, id (F j) = id j)
            /\ jobs st' = amap r F (jobs st)
            /\ ((forall j, status (F j) = status j)
                \/ (forall j, status (F j) = s)).

End StoreRelations.

Section PickedJob.
Import Dirs GpuMonitor Scheduler.

(** The job [_pick_next_job] hands to [_launch_job], if any. *)
Definition picked (clock : nat -> Q) (st : State) : option string :=
  match fst (pick_next_job clock st) with
  | Some (Some r) => Some r
  | _ => None
  end.

End PickedJob.

Section DaemonPass.
Import JobManager.

Definition count_running (l : list Entry) : nat :=
  length (filter (fun e => status (job e) = "RUNNING") l).

(** Step 1 on one entry. *)
Definition complete_one (now : Q) (e : Entry) : Entry :=
  if due now (job e)
  then {| job := set_completed now (job e); file := file e |}
  else e.

(** Step 3: the pending entries with their scores, if the scoring
    returns. *)
Definition scored_pending (clock : nat -> Q) (entries : list Entry)
    : option (list Entry) :=
  score_pending clock 0
    (filter (fun e => status (job e) = "PENDING") entries) (job <$> entries).

(** The sorted list step 4 walks; it is empty when the scoring raises,
    as nothing is started then. *)
Definition sorted_pending (clock : nat -> Q) (entries : list Entry)
    : list Entry :=
  sort_desc (fun e => priority_score (job e))
    (default [] (scored_pending clock entries)).

(** Step 4 on the files: the entries of [started] are saved as RUNNING. *)
Definition start_all (now : Q) (started disk : list Entry) : list Entry :=
  foldl (fun d e => save_job (set_running now (job e)) (file e) d) disk started.

(** Whether a pass returns: it raises when slots are free and the
    scoring of the pending jobs raises. *)
Definition pass_returns (now : Q) (clock : nat -> Q) (disk : list Entry)
    : bool :=
  let entries := complete_one now <$> disk in
  let slots := (MAX_CONCURRENT - Z.of_nat (count_running entries))%Z in
  (slots <=? 0)%Z
  || match scored_pending clock entries with
     | Some _ => true
     | None => false
     end.

(** The job files one pass leaves, whether it returns or raises. *)
Definition pass_result (now : Q) (clock : nat -> Q) (disk : list Entry)
    : list Entry :=
  let entries := complete_one now <$> disk in
  let slots := (MAX_CONCURRENT - Z.of_nat (count_running entries))%Z in
  if (slots <=? 0)%Z then entries
  else start_all now (take (Z.to_nat slots) (sorted_pending clock entries))
         entries.

End DaemonPass.

(** J1 (admin, debug, 32 GiB) and J2 (standard, 1 GiB) are queued on a
    host whose only GPU is the synthetic 16 GiB one. *)
Definition blocked_state : Scheduler.State :=
  exec (Scheduler.submit_job ["uploads"; "j1.py"] "alice" (32 * 1024 ^ 3)
          "debug" "admin" "J1" 0 ;;
        Scheduler.submit_job ["uploads"; "j2.py"] "bob" (1024 ^ 3)
          "normal" "standard" "J2" 1)
    fresh_state.

Section DaemonStates.
Import JobManager.

(** The job files the daemon can come to see: it starts on files among
    which at most [MAX_CONCURRENT] jobs are RUNNING, new job files
    appear, and it runs its passes. *)
Inductive daemon_reachable : list Entry -> Prop :=
| reach_start (disk : list Entry) :
    NoDup (file <$> disk) ->
    (Z.of_nat (count_running disk) <= MAX_CONCURRENT)%Z ->
    daemon_reachable disk
| reach_submit (disk : list Entry) (e : Entry) :
    daemon_reachable disk ->
    file e ∉ file <$> disk ->
    status (job e) = "PENDING" ->
    daemon_reachable (disk ++ [e])
| reach_pass (disk : list Entry) (now : Q) (clock : nat -> Q) :
    daemon_reachable disk ->
    daemon_reachable (exec (process_jobs now clock) disk).

End DaemonStates.

Section SchedulerStates.
Import Dirs GpuMonitor Scheduler.

Definition running_count (l : list Job) : nat :=
  length (filter (fun j => status j = "RUNNING") l).

(** The events of a scheduler process on a host without NVML:
    [run_forever] is started, [stop] is called, a job is submitted, the
    loop runs a pass, the child of a supervisor task exits. *)
Inductive virtual_step : State -> State -> Prop :=
| step_start st : virtual_step st (set_loop_alive true st)
| step_stop st : virtual_step st (stop st)
| step_submit st src user vram part q job_id now :
    virtual_step st (exec (submit_job src user vram part q job_id now) st)
| step_pass st clock now spawn :
    loop_alive st = true -> stop_event st = false ->
    virtual_step st (loop_iteration None clock now spawn st)
| step_exit st pre t post rc now :
    tasks st = pre ++ t :: post ->
    virtual_step st
      (exec (wait_and_finalize t rc now) (set_tasks (pre ++ post) st)).

Inductive virtual_reachable : State -> Prop :=
| reach_init root_dir disk disk' st :
    init root_dir disk = (Some st, disk') -> virtual_reachable st
| reach_step st st' :
    virtual_reachable st -> virtual_step st st' -> virtual_reachable st'.

End SchedulerStates.

Section RunningInvariant.
Import Dirs GpuMonitor Scheduler.

(** The store has one job per id and at most one of them is RUNNING. *)
Definition one_running (st : State) : Prop :=
  NoDup (id <$> jobs st) /\ running_count (jobs st) <= 1.

End RunningInvariant.

(** A third upload, and a host with one idle 24 GiB GPU. *)
Definition three_uploads : Dirs.FS :=
  <[ ["uploads"; "j3.py"] := Dirs.File "print(3)" ]> uploads.

Definition idle_gpu : GpuMonitor.Reading :=
  {| GpuMonitor.dev_name := "NVIDIA RTX";
     GpuMonitor.mem_total := 24 * 1024 ^ 3;
     GpuMonitor.mem_used := 0;
     GpuMonitor.temp := Some 40%Z;
     GpuMonitor.util := Some 0%Z |}.

(** Three small jobs are submitted and three passes run while the GPU
    still reports less than 1 GiB in use. *)
Definition three_passes : option Scheduler.State :=
  st ← fst (Scheduler.init ["work"] three_uploads);
  Some (exec
          (Scheduler.submit_job ["uploads"; "j1.py"] "alice" (1024 ^ 3)
             "normal" "standard" "J1" 0 ;;
           Scheduler.submit_job ["uploads"; "j2.py"] "bob" (1024 ^ 3)
             "normal" "standard" "J2" 1 ;;
           Scheduler.submit_job ["uploads"; "j3.py"] "carol" (1024 ^ 3)
             "normal" "standard" "J3" 2 ;;
           Scheduler.run_pass (Some [idle_gpu]) (fun _ => 3%Q) 3 (Some 101%Z) ;;
           Scheduler.run_pass (Some [idle_gpu]) (fun _ => 4%Q) 4 (Some 102%Z) ;;
           Scheduler.run_pass (Some [idle_gpu]) (fun _ => 5%Q) 5 (Some 103%Z))
          st).

(** Scenario S6 on the daemon: three pending jobs, one pass. *)
Definition pending_job (n who : string) (t : Q) : JobManager.Job :=
  {| JobManager.job_id := n; JobManager.job_name := "train";
     JobManager.user := who; JobManager.script := "python train.py";
     JobManager.status := "PENDING"; JobManager.qos := "standard";
     JobManager.gpu_count := 1; JobManager.submitted_at := At t;
     JobManager.started_at := Absent; JobManager.completed_at := Absent;
     JobManager.priority_score := 0 |}.

Definition three_pending : list JobManager.Entry :=
  [ {| JobManager.job := pending_job "1001" "alice" 0;
       JobManager.file := "1001.json" |};
    {| JobManager.job := pending_job "1002" "bob" 10;
       JobManager.file := "1002.json" |};
    {| JobManager.job := pending_job "1003" "carol" 20;
       JobManager.file := "1003.json" |} ].

Definition blocked_job : Scheduler.Job :=
  default (Scheduler.new_job "J1" [] "alice" 0 "normal" "standard" 0)
    (Scheduler.get_job "J1"
       (Scheduler.jobs (exec (Scheduler.pick_next_job (fun _ => 2%Q))
                          blocked_state))).

(** ** Terms of the further properties *)

(** A device [_find_available_gpu] accepts: not at 85 degrees or more,
    enough free memory for the request, less than 1 GiB in use, and, if
    it carries the name of the synthetic GPU, no job RUNNING. *)
Definition fits (st : Scheduler.State) (vram : Z) (r : GpuMonitor.Reading)
    : Prop :=
  (forall t, GpuMonitor.temp r = Some t -> (t < 85)%Z)
  /\ (vram <= GpuMonitor.mem_total r - GpuMonitor.mem_used r)%Z
  /\ (GpuMonitor.mem_used r < 1024 ^ 3)%Z
  /\ (GpuMonitor.dev_name r = "virtual-gpu-0" ->
      running_count (Scheduler.jobs st) = 0).

(** A regular file sits where [mkdir(parents=True)] needs a directory:
    at the path itself or at one of its ancestors. *)
Definition blocked_by_file (disk : Dirs.FS) (p : Dirs.Path) : Prop :=
  exists q c, q <> [] /\ q `prefix_of` p /\ disk !! q = Some (Dirs.File c).

(** What [_launch_job] has written into the job when it calls
    [start_process]. *)
Definition placed (target : Dirs.Path) (gpu : Z) (j : Scheduler.Job)
    : Scheduler.Job :=
  Scheduler.set_assigned_gpu (Some gpu)
    (Scheduler.set_status "RUNNING" (Scheduler.set_script_path target j)).

(** The log file of a job. *)
Definition log_file (l : Dirs.DirLayout) (job_id : string) : Dirs.Path :=
  Dirs.path_join (Dirs.out l) (job_id +:+ ".log").

(** The scheduler after J1 was submitted at time 0. *)
Definition queued_state : Scheduler.State :=
  exec (Scheduler.submit_job ["uploads"; "j1.py"] "alice" (1024 ^ 3)
          "normal" "standard" "J1" 0) fresh_state.

Definition queued_job : Scheduler.Job :=
  Scheduler.new_job "J1" ["work"; "to_run"; "J1.py"] "alice" (1024 ^ 3)
    "normal" "standard" 0.

(** The same, after somebody removed the script from [to_run]. *)
Definition lost_script_state : Scheduler.State :=
  Scheduler.set_fs (delete ["work"; "to_run"; "J1.py"] (Scheduler.fs queued_state))
    queued_state.

(** J1 is running and its script was removed from [running]. *)
Definition lost_running_state : Scheduler.State :=
  Scheduler.set_fs
    (delete ["work"; "running"; "J1.py"] (Scheduler.fs running_state))
    running_state.

Definition count_pending (l : list JobManager.Entry) : nat :=
  length (filter (fun e => JobManager.status (JobManager.job e) = "PENDING") l).

(** The RUNNING jobs that step 1 of a pass at [now] completes. *)
Definition count_due (now : Q) (l : list JobManager.Entry) : nat :=
  length (filter (fun e => JobManager.due now (JobManager.job e) = true) l).



(** The daemon's directory with two RUNNING jobs, started at 0 and at
    50, and a PENDING one. *)
Definition busy_daemon : list JobManager.Entry :=
  [ {| JobManager.job := JobManager.set_running 0 (pending_job "1001" "alice" 0);
       JobManager.file := "1001.json" |};
    {| JobManager.job := JobManager.set_running 50 (pending_job "1002" "bob" 10);
       JobManager.file := "1002.json" |};
    {| JobManager.job := pending_job "1003" "carol" 20;
       JobManager.file := "1003.json" |} ].

(** A job that asks for more GPUs than a float can count, and a
    directory in which it waits behind the job 1001. *)
Definition greedy_job : JobManager.Job :=
  {| JobManager.job_id := "1002"; JobManager.job_name := "train";
     JobManager.user := "bob"; JobManager.script := "python train.py";
     JobManager.status := "PENDING"; JobManager.qos := "standard";
     JobManager.gpu_count := (2 ^ 1024)%Z; JobManager.submitted_at := At 10;
     JobManager.started_at := Absent; JobManager.completed_at := Absent;
     JobManager.priority_score := 0 |}.

Definition greedy_daemon : list JobManager.Entry :=
  [ {| JobManager.job := pending_job "1001" "alice" 0;
       JobManager.file := "1001.json" |};
    {| JobManager.job := greedy_job; JobManager.file := "1002.json" |} ].

(** The job 1001 of alice, asked for with QoS "HIL". *)
Definition hil_pending : JobManager.Job :=
  {| JobManager.job_id := "1001"; JobManager.job_name := "train";
     JobManager.user := "alice"; JobManager.script := "python train.py";
     JobManager.status := "PENDING"; JobManager.qos := "HIL";
     JobManager.gpu_count := 1; JobManager.submitted_at := At 0;
     JobManager.started_at := Absent; JobManager.completed_at := Absent;
     JobManager.priority_score := 0 |}.

(** A job of the sorted queue without what [sort_jobs_by_priority]
    writes into it: the score and the debug factors. *)
Definition unscored (j : EngineQueue.Job) : EngineQueue.Job :=
  {| EngineQueue.job_id := EngineQueue.job_id j;
     EngineQueue.status := EngineQueue.status j;
     EngineQueue.user := EngineQueue.user j;
     EngineQueue.qos := EngineQueue.qos j;
     EngineQueue.partition := EngineQueue.partition j;
     EngineQueue.vram_gb := EngineQueue.vram_gb j;
     EngineQueue.submitted_at := EngineQueue.submitted_at j;
     EngineQueue.started_at := EngineQueue.started_at j;
     EngineQueue.completed_at := EngineQueue.completed_at j;
     EngineQueue.priority_score := None;
     EngineQueue.debug_factors := None |}.

(** The status [sort_jobs_by_priority] files a job under. *)
Definition listed_as (j : EngineQueue.Job) : string :=
  default "PENDING" (EngineQueue.status j).


(** [j'] is [j] with a score and debug factors written into it. *)
Definition scored_copy (j j' : EngineQueue.Job) : Prop :=
  exists p d,
    j' = EngineQueue.set_priority_score p (EngineQueue.set_debug_factors d j).

(** The key the COMPLETED jobs are sorted by, and its descending order. *)
Definition completed_text (j : EngineQueue.Job) : string :=
  default EmptyString (EngineQueue.completed_at j).

Definition later_text_first (a b : EngineQueue.Job) : Prop :=
  String.leb (completed_text b) (completed_text a) = true.

(** A status that is none of RUNNING, PENDING and COMPLETED. *)
Definition listed_last (j : EngineQueue.Job) : Prop :=
  listed_as j <> "RUNNING" /\ listed_as j <> "PENDING"
  /\ listed_as j <> "COMPLETED".

(** What [fromisoformat] reads from the texts of the example queue, in
    seconds after 2024-01-01T00:00:00; it rejects "yesterday". *)
Definition example_stamps (text : string) : option Q :=
  if decide (text = "2024-01-01T00:00:00") then Some 0%Q
  else if decide (text = "2024-01-01T00:01:00") then Some 60%Q
  else if decide (text = "2024-01-01T00:02:00") then Some 120%Q
  else None.

Definition queue_job (n st who : string) (sub : string)
    (started finished : option string) : EngineQueue.Job :=
  {| EngineQueue.job_id := Some n; EngineQueue.status := Some st;
     EngineQueue.user := Some who; EngineQueue.qos := Some "standard";
     EngineQueue.partition := Some "normal";
     EngineQueue.vram_gb := Some (Int 4);
     EngineQueue.submitted_at := Some sub;
     EngineQueue.started_at := started;
     EngineQueue.completed_at := finished;
     EngineQueue.priority_score := None;
     EngineQueue.debug_factors := None |}.

(** A queue as [squeue] prints it: a PENDING, a COMPLETED and a RUNNING
    job. *)
Definition example_queue : list EngineQueue.Job :=
  [ queue_job "2" "PENDING" "bob" "2024-01-01T00:01:00Z" None None;
    queue_job "3" "COMPLETED" "alice" "2024-01-01T00:00:00Z"
      (Some "2024-01-01T00:00:00Z") (Some "2024-01-01T00:01:00Z");
    queue_job "1" "RUNNING" "alice" "2024-01-01T00:00:00Z"
      (Some "2024-01-01T00:01:00Z") None ].

(** The engine when the application starts with no usage file. *)
Definition new_engine : EngineQueue.Engine :=
  {| EngineQueue.usage_tracker :=
       {| PriorityEngine.usage_data := ∅; PriorityEngine.db := ∅ |};
     EngineQueue.processed_job_ids := ∅ |}.

(** What admission leaves alone: the ledger, the configuration and the
    directory layout are kept, and no supervisor task is dropped. *)
Definition keeps_ledger (st st' : Scheduler.State) : Prop :=
  Scheduler.usage st' = Scheduler.usage st
  /\ Scheduler.config st' = Scheduler.config st
  /\ Scheduler.layout st' = Scheduler.layout st
  /\ Scheduler.stop_event st' = Scheduler.stop_event st
  /\ Scheduler.tasks st `prefix_of` Scheduler.tasks st'.

(** * Properties *)

(** ** Rational arithmetic *)

Lemma Qdiv_nonneg (a b : Q) : (0 <= a -> 0 < b -> 0 <= a / b)%Q.
Proof. intros Ha Hb. apply Qle_shift_div_l; lra. Qed.

Lemma Qdiv_le_one (a b : Q) : (0 < b -> a <= b -> a / b <= 1)%Q.
Proof. intros Hb Hab. apply Qle_shift_div_r; lra. Qed.

Lemma Qdiv_le_mono (a b c : Q) : (0 < c -> a <= b -> a / c <= b / c)%Q.
Proof.
  intros Hc Hab. apply Qle_shift_div_l; [exact Hc|].
  assert (E : (a / c * c == a)%Q) by (field; lra).
  rewrite E. exact Hab.
Qed.

Lemma Qmin_unit_range (x : Q) : (0 <= x -> 0 <= Qmin x 1 <= 1)%Q.
Proof.
  intros Hx. split.
  - apply Q.min_glb; lra.
  - apply Q.le_min_r.
Qed.

Lemma py_div_nonzero (a b : Q) : ~ (b == 0)%Q -> py_div a b = Some (a / b)%Q.
Proof.
  intros Hb. unfold py_div.
  destruct (Qeq_bool b 0) eqn:E; [|reflexivity].
  apply Qeq_bool_eq in E. contradiction.
Qed.

(** ** Usage ledger *)


(** ** Running monadic code *)

Lemma bind_run {S A B} (m : M S A) (k : A -> M S B) (s : S) :
  (m ≫= k) s = match m s with
               | (Some a, s') => k a s'
               | (None, s') => (None, s')
               end.
Proof. reflexivity. Qed.

Lemma ret_run {S A} (a : A) (s : S) : ret a s = (Some a, s).
Proof. reflexivity. Qed.

Lemma bind_get {S B} (k : S -> M S B) (s : S) : (get ≫= k) s = k s s.
Proof. reflexivity. Qed.

Lemma bind_modify {S B} (f : S -> S) (k : unit -> M S B) (s : S) :
  (modify f ≫= k) s = k tt (f s).
Proof. reflexivity. Qed.

Lemma bind_lift_option {S A B} (o : option A) (k : A -> M S B) (s : S) :
  (lift_option o ≫= k) s = match o with
                           | Some a => k a s
                           | None => (None, s)
                           end.
Proof. by destruct o. Qed.

Lemma run_Some {S A} (m : M S A) (s : S) (a : A) :
  fst (m s) = Some a -> m s = (Some a, exec m s).
Proof. unfold exec. destruct (m s) as [r s']. simpl. by intros ->. Qed.

Lemma run_returns {S A} (m : M S A) (s : S) (d : A) :
  returns m s = true -> m s = (Some (default d (fst (m s))), exec m s).
Proof.
  unfold returns, exec. destruct (m s) as [[a|] s']; simpl; [done|].
  discriminate.
Qed.

(** ** Ints that become floats *)

Lemma int_to_float_Some (n : Z) (q : Q) :
  int_to_float n = Some q <->
  (Z.abs n < float_overflow_bound)%Z /\ q = inject_Z n.
Proof.
  unfold int_to_float.
  destruct (float_overflow_bound <=? Z.abs n)%Z eqn:E.
  - apply Z.leb_le in E. split; [done | intros [H _]; lia].
  - apply Z.leb_gt in E. split; [intros [= <-]; done | by intros [_ ->]].
Qed.

Lemma int_truediv_Some (a b : Z) (q : Q) :
  int_truediv a b = Some q <->
  b <> 0%Z /\ (Z.abs a < float_overflow_bound * Z.abs b)%Z
  /\ q = (inject_Z a / inject_Z b)%Q.
Proof.
  unfold int_truediv. destruct (decide (b = 0%Z)) as [->|Hb].
  - split; [done | by intros [H _]].
  - destruct (float_overflow_bound * Z.abs b <=? Z.abs a)%Z eqn:E.
    + apply Z.leb_le in E. split; [done | intros (_ & H & _); lia].
    + apply Z.leb_gt in E.
      split; [intros [= <-]; done | by intros (_ & _ & ->)].
Qed.

Lemma int_truediv_None (a b : Z) :
  int_truediv a b = None <->
  b = 0%Z \/ (float_overflow_bound * Z.abs b <= Z.abs a)%Z.
Proof.
  unfold int_truediv. destruct (decide (b = 0%Z)) as [->|Hb].
  - split; [by left | done].
  - destruct (float_overflow_bound * Z.abs b <=? Z.abs a)%Z eqn:E.
    + apply Z.leb_le in E. split; [by right | done].
    + apply Z.leb_gt in E. split; [done | intros [?|?]; [done | lia]].
Qed.

(** ** Priority factors of scheduler.py *)

Section SlurmPriority.
Import Scheduler.

Lemma fs_factor_value (cfg : SlurmConfig) (u : Q) :
  (0 <= u)%Q -> (0 < fairshare_decay_norm cfg)%Q ->
  fs_factor cfg u = Some (1 / (1 + u / fairshare_decay_norm cfg))%Q.
Proof.
  intros Hu Hn. unfold fs_factor.
  rewrite py_div_nonzero by lra. simpl.
  pose proof (Qdiv_nonneg _ _ Hu Hn) as Hx.
  apply py_div_nonzero.
  set (x := (u / fairshare_decay_norm cfg)%Q) in *. lra.
Qed.

Lemma fs_factor_range (cfg : SlurmConfig) (u : Q) :
  (0 <= u)%Q -> (0 < fairshare_decay_norm cfg)%Q ->
  (0 <= 1 / (1 + u / fairshare_decay_norm cfg) <= 1)%Q.
Proof.
  intros Hu Hn. pose proof (Qdiv_nonneg _ _ Hu Hn) as Hx.
  set (x := (u / fairshare_decay_norm cfg)%Q) in *.
  split; [apply Qdiv_nonneg | apply Qdiv_le_one]; lra.
Qed.

Lemma max_age_sec_pos : (0 < max_age_sec)%Q.
Proof. reflexivity. Qed.

Lemma max_vram_ref_pos : (0 < inject_Z max_vram_ref)%Q.
Proof. reflexivity. Qed.

Lemma age_factor_range (now : Q) (job : Job) :
  (created_at job <= now)%Q -> (0 <= age_factor now job <= 1)%Q.
Proof.
  intros H. apply Qmin_unit_range, Qdiv_nonneg; [|apply max_age_sec_pos].
  unfold time_waiting. lra.
Qed.

(** The value and the error of the size factor. *)
Lemma size_factor_Some (job : Job) (s : Q) :
  size_factor job = Some s <->
  (Z.abs (vram_required job) < float_overflow_bound * max_vram_ref)%Z
  /\ s = Qmin (inject_Z (vram_required job) / inject_Z max_vram_ref) 1.
Proof.
  unfold size_factor. split.
  - destruct (int_truediv _ _) as [x|] eqn:E; [|done]. simpl. intros [= <-].
    apply int_truediv_Some in E as (_ & Hlt & ->).
    by change (Z.abs max_vram_ref) with max_vram_ref in Hlt.
  - intros [Hlt ->].
    assert (E : int_truediv (vram_required job) max_vram_ref
                = Some (inject_Z (vram_required job) / inject_Z max_vram_ref)%Q).
    { apply int_truediv_Some. split; [done|]. split; [|done].
      by change (Z.abs max_vram_ref) with max_vram_ref. }
    by rewrite E.
Qed.

Lemma size_factor_None (job : Job) :
  size_factor job = None <->
  (float_overflow_bound * max_vram_ref <= Z.abs (vram_required job))%Z.
Proof.
  unfold size_factor. split.
  - destruct (int_truediv _ _) as [x|] eqn:E; [done|]. intros _.
    apply int_truediv_None in E as [E|E]; [done|].
    by change (Z.abs max_vram_ref) with max_vram_ref in E.
  - intros H.
    assert (E : int_truediv (vram_required job) max_vram_ref = None).
    { apply int_truediv_None. right.
      by change (Z.abs max_vram_ref) with max_vram_ref. }
    by rewrite E.
Qed.

Lemma size_value_range (vram : Z) :
  (0 <= vram)%Z ->
  (0 <= Qmin (inject_Z vram / inject_Z max_vram_ref) 1 <= 1)%Q.
Proof.
  intros H. apply Qmin_unit_range, Qdiv_nonneg; [|apply max_vram_ref_pos].
  change 0%Q with (inject_Z 0). by rewrite <- Zle_Qle.
Qed.

Lemma size_factor_range (job : Job) (s : Q) :
  size_factor job = Some s ->
  (0 <= vram_required job)%Z -> (0 <= s <= 1)%Q.
Proof.
  intros Hs H. apply size_factor_Some in Hs as [_ ->].
  by apply size_value_range.
Qed.

Lemma table_factor_range (table : gmap string Q) (k : string) :
  (forall k v, table !! k = Some v -> (0 <= v <= 1)%Q) ->
  (0 <= default (1 # 2) (table !! k) <= 1)%Q.
Proof.
  intros Htable. destruct (table !! k) as [v|] eqn:E; simpl.
  - by eapply Htable.
  - lra.
Qed.

(** What [_calculate_slurm_priority] returns and does to the job. *)
Lemma calculate_slurm_priority_run (now : Q) (r : string) (st : State)
    (job : Job) (p : Q) :
  get_job r (jobs st) = Some job ->
  slurm_priority (config st) (usage st) now job = Some p ->
  exists dbg,
    calculate_slurm_priority now r st
    = (Some p, snd (assign r (set_debug_factors dbg) st)).
Proof.
  intros Hjob Hp. unfold calculate_slurm_priority, deref.
  unfold slurm_priority in Hp.
  destruct (fs_factor (config st) (get_usage (user_id job) (usage st)))
    as [fsf|] eqn:Hfs; [|discriminate].
  simpl in Hp.
  destruct (size_factor job) as [size|] eqn:Hsize; [|discriminate].
  simpl in Hp. injection Hp as <-.
  eexists. rewrite !bind_run. simpl. rewrite Hjob. simpl.
  rewrite !bind_run. simpl. rewrite Hfs. simpl.
  rewrite !bind_run. simpl. rewrite Hsize. simpl. reflexivity.
Qed.

Lemma calculate_slurm_priority_raises (now : Q) (r : string) (st : State)
    (job : Job) :
  get_job r (jobs st) = Some job ->
  slurm_priority (config st) (usage st) now job = None ->
  calculate_slurm_priority now r st = (None, st).
Proof.
  intros Hjob Hp. unfold calculate_slurm_priority, deref.
  unfold slurm_priority in Hp.
  rewrite !bind_run. simpl. rewrite Hjob. simpl.
  rewrite !bind_run. simpl.
  destruct (fs_factor (config st) (get_usage (user_id job) (usage st)))
    as [fsf|] eqn:Hfs; [|done].
  simpl in *. rewrite !bind_run. simpl.
  by destruct (size_factor job) as [size|] eqn:Hsize.
Qed.

End SlurmPriority.

Section SlurmPriorityClaims.
Import Scheduler.

Lemma calculate_slurm_priority_result (now : Q) (r : string) (st st1 : State)
    (job : Job) (res : option Q) :
  get_job r (jobs st) = Some job ->
  calculate_slurm_priority now r st = (res, st1) ->
  res = slurm_priority (config st) (usage st) now job.
Proof.
  intros Hjob Hrun.
  destruct (slurm_priority (config st) (usage st) now job) as [p|] eqn:Hp.
  - destruct (calculate_slurm_priority_run now r st job p Hjob Hp) as [dbg E].
    rewrite E in Hrun. by injection Hrun as <- _.
  - rewrite (calculate_slurm_priority_raises now r st job Hjob Hp) in Hrun.
    by injection Hrun as <- _.
Qed.

Lemma slurm_priority_mono (cfg : SlurmConfig) (usage usage' : gmap string Q)
    (t1 t2 : Q) (j j' : Job) (p1 : Q) :
  (0 <= weight_age cfg)%Q -> (t1 <= t2)%Q ->
  same_inputs j j' ->
  get_usage (user_id j) usage = get_usage (user_id j') usage' ->
  slurm_priority cfg usage t1 j = Some p1 ->
  exists p2, slurm_priority cfg usage' t2 j' = Some p2 /\ (p1 <= p2)%Q.
Proof.
  intros Hw Ht (Hu & Hv & Hc & Hp & Hq) Husage. unfold slurm_priority.
  rewrite <- Husage.
  destruct (fs_factor cfg (get_usage (user_id j) usage)) as [fsf|];
    [|discriminate].
  simpl.
  assert (Hsize : size_factor j' = size_factor j)
    by (unfold size_factor; by rewrite Hv).
  rewrite Hsize. destruct (size_factor j) as [size|]; [|discriminate].
  simpl. intros [= <-]. eexists. split; [reflexivity|].
  unfold weighted_sum, part_factor, qos_factor.
  rewrite <- Hp, <- Hq.
  assert (Hage : (age_factor t1 j <= age_factor t2 j')%Q).
  { unfold age_factor, time_waiting. rewrite <- Hc.
    apply Q.min_le_compat_r, Qdiv_le_mono; [apply max_age_sec_pos | lra]. }
  assert (Hprod : (weight_age cfg * age_factor t1 j
                   <= weight_age cfg * age_factor t2 j')%Q).
  { rewrite !(Qmult_comm (weight_age cfg)).
    by apply Qmult_le_compat_r. }
  lra.
Qed.

(** C9.  Monotone aging: when a job is scored at [t1] and again at a
    later time [t2], with the same configuration (whose age weight is
    not negative, as in [SlurmConfig()]), the same ledger usage of its
    user and the same partition, QoS, VRAM request and creation time,
    the second evaluation returns a score and it is not below the first. *)
Theorem priority_monotone_aging (st st' st1 : State) (r : string)
    (j j' : Job) (t1 t2 p1 : Q) :
  (0 <= weight_age (config st))%Q ->
  (t1 < t2)%Q ->
  config st' = config st ->
  get_job r (jobs st) = Some j ->
  get_job r (jobs st') = Some j' ->
  same_inputs j j' ->
  get_usage (user_id j) (usage st) = get_usage (user_id j') (usage st') ->
  calculate_slurm_priority t1 r st = (Some p1, st1) ->
  exists p2 st2,
    calculate_slurm_priority t2 r st' = (Some p2, st2) /\ (p1 <= p2)%Q.
Proof.
  intros Hw Ht Hcfg Hj Hj' Hsame Husage Hrun.
  apply (calculate_slurm_priority_result _ _ _ _ _ _ Hj) in Hrun.
  symmetry in Hrun.
  destruct (slurm_priority_mono (config st) (usage st) (usage st') t1 t2 j j' p1)
    as (p2 & Hp2 & Hle); try done; [lra|].
  rewrite <- Hcfg in Hp2.
  destruct (calculate_slurm_priority_run t2 r st' j' p2 Hj' Hp2) as [dbg E].
  eauto.
Qed.

End SlurmPriorityClaims.

Lemma priority_monotone_aging_witness :
  exists p1 p2 st2,
    Scheduler.calculate_slurm_priority 3600 "J1" one_job_state = (Some p2, st2)
    /\ (p1 <= p2)%Q.
Proof.
  destruct (priority_monotone_aging one_job_state one_job_state
              (snd (Scheduler.calculate_slurm_priority 60 "J1" one_job_state))
              "J1"
              (Scheduler.new_job "J1" ["w"; "to_run"; "J1.py"] "alice"
                 (2 * 1024 ^ 3) "normal" "standard" 0)
              (Scheduler.new_job "J1" ["w"; "to_run"; "J1.py"] "alice"
                 (2 * 1024 ^ 3) "normal" "standard" 0)
              60 3600
              (default 0%Q
                 (fst (Scheduler.calculate_slurm_priority 60 "J1" one_job_state))))
    as (p2 & st2 & H).
  - vm_compute. discriminate.
  - reflexivity.
  - reflexivity.
  - reflexivity.
  - reflexivity.
  - repeat split.
  - reflexivity.
  - vm_compute. reflexivity.
  - eauto.
Defined.

(** ** Priority factors of priority_engine.py *)

Section EnginePriority.
Import PriorityEngine.

Lemma engine_fs_factor_value (u : Q) :
  (0 <= u)%Q -> fs_factor u = Some (1 / (1 + u / FAIRSHARE_DECAY_NORM))%Q.
Proof.
  intros Hu. unfold fs_factor. apply py_div_nonzero.
  assert (Hx : (0 <= u / FAIRSHARE_DECAY_NORM)%Q)
    by (apply Qdiv_nonneg; [lra | reflexivity]).
  set (x := (u / FAIRSHARE_DECAY_NORM)%Q) in *. lra.
Qed.


Lemma calculate_priority_eq (t : UsageTracker) (now0 now : Q) (job : JobDict) :
  calculate_priority t now0 now job
  = (submitted ← match submitted_at job with
                 | Absent => Some now0
                 | Malformed => None
                 | At s => Some s
                 end;
     fsf ← fs_factor (get_usage (default "unknown" (user job)) t);
     size ← size_factor job;
     Some (weighted_sum (age_factor (now - submitted)) fsf size
             (part_factor job) (qos_factor job))).
Proof.
  unfold calculate_priority, calculate_priority_call.
  destruct (submitted_at job); simpl; try done;
    destruct (fs_factor _); simpl; try done;
    by destruct (size_factor job).
Qed.





Lemma QOS_SCORES_range (k : string) (v : Q) :
  QOS_SCORES !! k = Some v -> (0 <= v <= 1)%Q.
Proof.
  unfold QOS_SCORES. intros H.
  repeat (apply lookup_insert_Some in H as [[_ <-]|[_ H]]; [lra|]).
  by rewrite lookup_empty in H.
Qed.

End EnginePriority.

Lemma SlurmConfig_default_partitions_range (k : string) (v : Q) :
  Scheduler.partitions Scheduler.SlurmConfig_default !! k = Some v ->
  (0 <= v <= 1)%Q.
Proof.
  simpl. intros H.
  repeat (apply lookup_insert_Some in H as [[_ <-]|[_ H]]; [lra|]).
  by rewrite lookup_empty in H.
Qed.

Lemma SlurmConfig_default_qos_range (k : string) (v : Q) :
  Scheduler.qos_levels Scheduler.SlurmConfig_default !! k = Some v ->
  (0 <= v <= 1)%Q.
Proof.
  simpl. intros H.
  repeat (apply lookup_insert_Some in H as [[_ <-]|[_ H]]; [lra|]).
  by rewrite lookup_empty in H.
Qed.

(** ** The weighted sum *)





(** ** QoS classes *)

(** C4 as stated fails on [GpuScheduler]: its default table has no
    "hil" entry, so the job gets 0.5 like a standard one, and in
    scenario S2 it is the standard job J1 that is started while the hil
    job J2 stays queued. *)
Lemma hil_is_not_a_SlurmConfig_level :
  Scheduler.qos_levels Scheduler.SlurmConfig_default !! "hil" = None
  /\ Scheduler.qos_factor Scheduler.SlurmConfig_default
       (Scheduler.new_job "J2" ["work"; "to_run"; "J2.py"] "bob" (1024 ^ 3)
          "normal" "hil" 1) = (1 # 2)%Q
  /\ (fun st => (status_of "J1" st, status_of "J2" st)) <$> scenario_S2
     = Some (Some "RUNNING", Some "QUEUED").
Proof. repeat split; vm_compute; reflexivity. Qed.

(** C4, as the code has it.  In the default [PriorityConfig] of the
    priority engine "hil" has QoS factor 1.0, the largest of the table,
    and of two jobs that differ only in QoS, scored at the same time
    against the same ledger, the hil job scores
    [WEIGHT_QOS * (1.0 - 0.5) = 5000] above the standard one.  In the
    default [SlurmConfig] of [GpuScheduler] "hil" is no configured
    level: it gets the fallback 0.5, as "standard" does, and the two
    jobs score the same. *)
Theorem hil_qos_factor :
  (forall job, PriorityEngine.job_qos job = "hil" ->
               PriorityEngine.qos_factor job = 1%Q)
  /\ (forall k v, PriorityEngine.QOS_SCORES !! k = Some v -> (v <= 1)%Q)
  /\ (forall t now0 now h s ps,
         same_but_qos h s ->
         PriorityEngine.job_qos h = "hil" ->
         PriorityEngine.job_qos s = "standard" ->
         PriorityEngine.calculate_priority t now0 now s = Some ps ->
         exists ph,
           PriorityEngine.calculate_priority t now0 now h = Some ph
           /\ (ph == ps + 5000)%Q)
  /\ (forall usage now h s,
         same_but_qos_job h s ->
         Scheduler.qos h = "hil" ->
         Scheduler.qos s = "standard" ->
         Scheduler.qos_factor Scheduler.SlurmConfig_default h = (1 # 2)%Q
         /\ Scheduler.slurm_priority Scheduler.SlurmConfig_default usage now h
            = Scheduler.slurm_priority Scheduler.SlurmConfig_default usage now s).
Proof.
  split; [|split; [|split]].
  - intros job H. unfold PriorityEngine.qos_factor. by rewrite H.
  - intros k v H. by apply QOS_SCORES_range in H as [_ H].
  - intros t now0 now h s ps (Hu & Hp & Hv & Hs) Hh Hstd.
    rewrite !calculate_priority_eq.
    assert (Hsize : PriorityEngine.size_factor h = PriorityEngine.size_factor s)
      by (unfold PriorityEngine.size_factor; by rewrite Hv).
    rewrite Hu, Hs, Hsize.
    destruct (PriorityEngine.submitted_at s) as [| |sub]; simpl;
      try discriminate.
    + destruct (PriorityEngine.fs_factor _) as [fsf|]; simpl; [|discriminate].
      destruct (PriorityEngine.size_factor s) as [size|]; simpl;
        [|discriminate].
      intros [= <-]. eexists. split; [reflexivity|].
      unfold PriorityEngine.weighted_sum,
        PriorityEngine.part_factor, PriorityEngine.job_partition,
        PriorityEngine.qos_factor.
      rewrite Hp, Hh, Hstd.
      change (PriorityEngine.QOS_SCORES !! "hil") with (Some 1%Q).
      change (PriorityEngine.QOS_SCORES !! "standard") with (Some (1 # 2)%Q).
      unfold PriorityEngine.WEIGHT_QOS. simpl default. ring.
    + destruct (PriorityEngine.fs_factor _) as [fsf|]; simpl; [|discriminate].
      destruct (PriorityEngine.size_factor s) as [size|]; simpl;
        [|discriminate].
      intros [= <-]. eexists. split; [reflexivity|].
      unfold PriorityEngine.weighted_sum,
        PriorityEngine.part_factor, PriorityEngine.job_partition,
        PriorityEngine.qos_factor.
      rewrite Hp, Hh, Hstd.
      change (PriorityEngine.QOS_SCORES !! "hil") with (Some 1%Q).
      change (PriorityEngine.QOS_SCORES !! "standard") with (Some (1 # 2)%Q).
      unfold PriorityEngine.WEIGHT_QOS. simpl default. ring.
  - intros usage now h s (Hu & Hv & Hc & Hp) Hh Hstd.
    assert (Hq : Scheduler.qos_factor Scheduler.SlurmConfig_default h = (1 # 2)%Q)
      by (unfold Scheduler.qos_factor; by rewrite Hh).
    split; [exact Hq|].
    unfold Scheduler.slurm_priority. rewrite Hq, Hu.
    unfold Scheduler.age_factor, Scheduler.time_waiting,
      Scheduler.size_factor, Scheduler.part_factor, Scheduler.qos_factor.
    by rewrite Hv, Hc, Hp, Hstd.
Qed.

(** ** Directory layout *)

Section DirsProperties.
Import Dirs.

Lemma string_length_app (s1 s2 : string) :
  String.length (s1 +:+ s2) = String.length s1 + String.length s2.
Proof. induction s1 as [|a s1 IH]; simpl; [done | by rewrite IH]. Qed.

Lemma string_app_inj_r (e s1 s2 : string) : s1 +:+ e = s2 +:+ e -> s1 = s2.
Proof.
  revert s2. induction s1 as [|a s1 IH]; intros [|b s2] H.
  - done.
  - exfalso. apply (f_equal String.length) in H.
    rewrite !string_length_app in H. simpl in H. lia.
  - exfalso. apply (f_equal String.length) in H.
    rewrite !string_length_app in H. simpl in H. lia.
  - change (String a (s1 +:+ e) = String b (s2 +:+ e)) in H.
    injection H as -> H. f_equal. by apply IH.
Qed.

Lemma candidate_inj (new_name : string) (i j : nat) :
  candidate new_name i = candidate new_name j -> i = j.
Proof.
  unfold candidate. destruct (splitext new_name) as [base ext]. intros H.
  apply String.app_inj in H. apply String.app_inj in H.
  apply string_app_inj_r in H. by apply (inj pretty) in H.
Qed.

Lemma path_join_inj (d : Path) (a b : string) :
  path_join d a = path_join d b -> a = b.
Proof. unfold path_join. intros H. apply app_inv_head in H. by injection H. Qed.

Lemma path_exists_true (fs : FS) (p : Path) :
  path_exists fs p = true <-> is_Some (fs !! p).
Proof.
  unfold path_exists. destruct (fs !! p) as [x|]; split; intros H.
  - by exists x.
  - done.
  - done.
  - by destruct H.
Qed.

Lemma path_exists_false (fs : FS) (p : Path) :
  path_exists fs p = false <-> fs !! p = None.
Proof. unfold path_exists. by destruct (fs !! p). Qed.

Lemma mkdir_one_Some (p : Path) (fs fs' : FS) :
  mkdir_one p fs = (Some tt, fs') ->
  fs ⊆ fs' /\ fs' !! p = Some Dir
  /\ (forall q c, fs' !! q = Some (File c) -> fs !! q = Some (File c)).
Proof.
  unfold mkdir_one. destruct (fs !! p) as [[|c]|] eqn:E; intros [= <-].
  - done.
  - split; [by apply insert_subseteq|]. split; [by rewrite lookup_insert_eq|].
    intros q c H. destruct (decide (p = q)) as [->|Hne].
    + by rewrite lookup_insert_eq in H.
    + by rewrite lookup_insert_ne in H.
Qed.

Lemma mkdir_one_again (p : Path) (fs : FS) :
  fs !! p = Some Dir -> mkdir_one p fs = (Some tt, fs).
Proof. unfold mkdir_one. by intros ->. Qed.

Lemma mkdir_from_Some (todo done : Path) (fs fs' : FS) :
  mkdir_from done todo fs = (Some tt, fs') ->
  fs ⊆ fs'
  /\ (forall q c, fs' !! q = Some (File c) -> fs !! q = Some (File c))
  /\ (todo <> [] -> fs' !! (done ++ todo) = Some Dir)
  /\ mkdir_from done todo fs' = (Some tt, fs').
Proof.
  revert done fs. induction todo as [|c rest IH]; intros done fs; simpl.
  - intros [= <-]. done.
  - rewrite bind_run.
    destruct (mkdir_one (done ++ [c]) fs) as [[[]|] fs0] eqn:E1; [|done].
    intros E2. apply mkdir_one_Some in E1 as (Hsub1 & Hdir & Hfiles1).
    destruct (IH _ _ E2) as (Hsub2 & Hfiles2 & Hlast & Hagain).
    assert (Hdir' : fs' !! (done ++ [c]) = Some Dir)
      by (by eapply (lookup_weaken fs0)).
    repeat split.
    + by etrans.
    + intros q x H. by apply Hfiles1, Hfiles2.
    + intros _. destruct rest as [|c' rest].
      * done.
      * rewrite <- Hlast by done. by rewrite <- app_assoc.
    + rewrite bind_run, (mkdir_one_again _ _ Hdir'). exact Hagain.
Qed.

Lemma mkdir_parents_Some (p : Path) (fs fs' : FS) :
  mkdir_parents p fs = (Some tt, fs') ->
  fs ⊆ fs'
  /\ (forall q c, fs' !! q = Some (File c) -> fs !! q = Some (File c))
  /\ is_dir fs' p = true
  /\ mkdir_parents p fs' = (Some tt, fs').
Proof.
  intros H. apply mkdir_from_Some in H as (Hsub & Hfiles & Hdir & Hagain).
  repeat split; try done.
  destruct p as [|c p]; [done|]. simpl in *. by rewrite Hdir.
Qed.

Lemma find_free_Some (fs : FS) (d : Path) (n : string) (fuel k : nat) (t : Path) :
  find_free fs d n fuel (path_join d (nth_name n k)) (S k) = Some t ->
  exists k',
    k <= k' /\ t = path_join d (nth_name n k') /\ fs !! t = None
    /\ forall i, k <= i < k' -> path_exists fs (path_join d (nth_name n i)) = true.
Proof.
  revert k. induction fuel as [|fuel IH]; intros k; simpl.
  - destruct (path_exists fs _) eqn:E; [done|]. intros [= <-].
    exists k. repeat split; [lia | by apply path_exists_false | lia].
  - destruct (path_exists fs _) eqn:E.
    + intros H. apply (IH (S k)) in H as (k' & Hle & -> & Hfree & Hbusy).
      exists k'. repeat split; [lia | done |].
      intros i Hi. destruct (decide (i = k)) as [->|]; [done|].
      apply Hbusy. lia.
    + intros [= <-]. exists k.
      repeat split; [lia | by apply path_exists_false | lia].
Qed.

Lemma find_free_None (fs : FS) (d : Path) (n : string) (fuel k : nat) :
  find_free fs d n fuel (path_join d (nth_name n k)) (S k) = None ->
  forall i, k <= i <= k + fuel ->
            path_exists fs (path_join d (nth_name n i)) = true.
Proof.
  revert k. induction fuel as [|fuel IH]; intros k; simpl.
  - destruct (path_exists fs _) eqn:E; [|done]. intros _ i Hi.
    by replace i with k by lia.
  - destruct (path_exists fs _) eqn:E; [|done]. intros H i Hi.
    destruct (decide (i = k)) as [->|]; [done|].
    apply (IH (S k) H). lia.
Qed.

(** The loop of [safe_rename] terminates: among [size fs + 1] distinct
    suffixed names one is free. *)
Lemma find_free_total (fs : FS) (d : Path) (n : string) :
  is_Some (find_free fs d n (S (size fs)) (path_join d n) 1).
Proof.
  destruct (find_free fs d n (S (size fs)) (path_join d n) 1) eqn:E;
    [by eexists|].
  exfalso.
  pose proof (find_free_None fs d n (S (size fs)) 0 E) as Hbusy.
  set (names := (fun i => path_join d (candidate n i)) <$> seq 1 (S (size fs))).
  assert (Hnodup : NoDup names).
  { apply NoDup_fmap_2; [|apply NoDup_seq].
    intros i j H. by apply path_join_inj, candidate_inj in H. }
  assert (Hsub : (list_to_set names : gset Path) ⊆ dom fs).
  { intros p Hp. apply elem_of_list_to_set in Hp.
    apply list_elem_of_fmap in Hp as (i & -> & Hi).
    apply elem_of_seq in Hi. apply elem_of_dom, path_exists_true.
    destruct i as [|i]; [lia|]. apply (Hbusy (S i)). lia. }
  apply subseteq_size in Hsub.
  rewrite size_list_to_set, size_dom in Hsub by done.
  unfold names in Hsub. rewrite length_fmap, length_seq in Hsub. lia.
Qed.

Lemma replace_file (src target : Path) (c : string) (fs : FS) :
  is_dir fs (removelast target) = true ->
  fs !! src = Some (File c) ->
  fs !! target = None ->
  replace src target fs = (Some tt, <[target := File c]> (delete src fs)).
Proof. unfold replace. by intros -> -> ->. Qed.

Lemma removelast_path_join (d : Path) (n : string) :
  removelast (path_join d n) = d.
Proof. apply removelast_last. Qed.

(** What [safe_rename] does to a regular file, given that the
    destination directory can be created. *)
Lemma safe_rename_file (fs fs1 : FS) (src dst : Path)
    (new_name : option string) (c : string) :
  fs !! src = Some (File c) ->
  mkdir_parents dst fs = (Some tt, fs1) ->
  exists k,
    let name := default (path_name src) new_name in
    let target := path_join dst (nth_name name k) in
    safe_rename src dst new_name fs
    = (Some target, <[target := File c]> (delete src fs1))
    /\ fs1 !! target = None
    /\ (forall i, i < k ->
                  path_exists fs1 (path_join dst (nth_name name i)) = true)
    /\ fs1 !! src = Some (File c).
Proof.
  intros Hsrc Hmk.
  pose proof (mkdir_parents_Some _ _ _ Hmk) as (Hsub & _ & Hdir & _).
  assert (Hsrc1 : fs1 !! src = Some (File c))
    by (by eapply (lookup_weaken fs)).
  set (name := default (path_name src) new_name).
  destruct (find_free_total fs1 dst name) as [t Ht].
  pose proof (find_free_Some fs1 dst name _ 0 t Ht) as (k & _ & -> & Hfree & Hbusy).
  exists k. simpl. fold name. repeat split; try done.
  - unfold safe_rename. rewrite bind_run, Hmk. fold name.
    rewrite bind_get, bind_lift_option, Ht, bind_run.
    rewrite (replace_file _ _ c); try done.
    by rewrite removelast_path_join.
  - intros i Hi. apply Hbusy. lia.
Qed.

End DirsProperties.

Section SafeRename.
Import Dirs.

Lemma mkdir_from_stable (todo pre : Path) (fs fs' : FS) :
  mkdir_from pre todo fs = (Some tt, fs) ->
  (forall q, fs !! q = Some Dir -> fs' !! q = Some Dir) ->
  mkdir_from pre todo fs' = (Some tt, fs').
Proof.
  revert pre. induction todo as [|c rest IH]; intros pre; simpl; [done|].
  rewrite !bind_run.
  destruct (mkdir_one (pre ++ [c]) fs) as [[[]|] fs0] eqn:E1; [|done].
  intros E2 Hdirs.
  pose proof (mkdir_one_Some _ _ _ E1) as (_ & Hdir & _).
  pose proof (mkdir_from_Some _ _ _ _ E2) as (Hsub & _).
  assert (Hp : fs !! (pre ++ [c]) = Some Dir)
    by (by eapply (lookup_weaken fs0)).
  rewrite (mkdir_one_again _ _ Hp) in E1. injection E1 as <-.
  rewrite (mkdir_one_again _ _ (Hdirs _ Hp)). by apply IH.
Qed.

(** C6.  [safe_rename] moves the file [src] into [dst_dir] under the
    first free name among [new_name] (the basename of [src] when none is
    given), [stem_1.ext], [stem_2.ext], ...: every name tried before the
    chosen one is taken, the chosen one is free, the call returns the
    final path, the file is there with its content and gone from [src],
    and every other file is left as it was.  Hence two scripts with the
    same name moved into one directory end up as two distinct files,
    each with its own content. *)
Theorem safe_rename_conflict_free :
  (forall new_name, nth_name new_name 0 = new_name)
  /\ (forall new_name k,
         nth_name new_name (S k)
         = (splitext new_name).1 +:+ "_" +:+ pretty (S k)
           +:+ (splitext new_name).2)
  /\ (forall (fs fs1 : FS) (src dst : Path) (new_name : option string)
             (c : string),
         fs !! src = Some (File c) ->
         mkdir_parents dst fs = (Some tt, fs1) ->
         exists k fs2,
           let name := default (path_name src) new_name in
           let target := path_join dst (nth_name name k) in
           safe_rename src dst new_name fs = (Some target, fs2)
           /\ (forall i, i < k ->
                         path_exists fs1 (path_join dst (nth_name name i)) = true)
           /\ fs !! target = None
           /\ fs2 !! target = Some (File c)
           /\ fs2 !! src = None
           /\ (forall p c', p <> src -> fs !! p = Some (File c') ->
                            fs2 !! p = Some (File c')))
  /\ (forall (fs fs1 : FS) (src1 src2 dst : Path) (c1 c2 : string),
         src1 <> src2 ->
         path_name src1 = path_name src2 ->
         fs !! src1 = Some (File c1) ->
         fs !! src2 = Some (File c2) ->
         mkdir_parents dst fs = (Some tt, fs1) ->
         exists t1 t2 fsa fsb,
           safe_rename src1 dst None fs = (Some t1, fsa)
           /\ safe_rename src2 dst None fsa = (Some t2, fsb)
           /\ t1 <> t2
           /\ fsb !! t1 = Some (File c1)
           /\ fsb !! t2 = Some (File c2)).
Proof.
  split; [done|]. split.
  { intros new_name k. unfold nth_name, candidate.
    by destruct (splitext new_name). }
  split.
  - intros fs fs1 src dst new_name c Hsrc Hmk.
    destruct (safe_rename_file fs fs1 src dst new_name c Hsrc Hmk)
      as (k & Hrun & Hfree & Hbusy & Hsrc1).
    simpl in *.
    pose proof (mkdir_parents_Some _ _ _ Hmk) as (Hsub & _).
    set (target := path_join dst (nth_name (default (path_name src) new_name) k))
      in *.
    assert (Hne : target <> src) by (intros E; rewrite E in Hfree; congruence).
    exists k, (<[target := File c]> (delete src fs1)).
    repeat split; try done.
    + destruct (fs !! target) as [x|] eqn:E; [|done].
      apply (lookup_weaken _ _ _ _ E) in Hsub. congruence.
    + by rewrite lookup_insert_eq.
    + rewrite lookup_insert_ne by done. by rewrite lookup_delete_eq.
    + intros p c' Hp Hfile. apply (lookup_weaken _ fs1) in Hfile; [|done].
      assert (target <> p) by (intros E; rewrite E in Hfree; congruence).
      rewrite lookup_insert_ne by done. by rewrite lookup_delete_ne.
  - intros fs fs1 src1 src2 dst c1 c2 Hne Hname Hsrc1 Hsrc2 Hmk.
    destruct (safe_rename_file fs fs1 src1 dst None c1 Hsrc1 Hmk)
      as (k1 & Hrun1 & Hfree1 & _ & Hsrc1').
    simpl in *.
    set (t1 := path_join dst (nth_name (path_name src1) k1)) in *.
    set (fsa := <[t1 := File c1]> (delete src1 fs1)) in *.
    pose proof (mkdir_parents_Some _ _ _ Hmk) as (Hsub & _ & _ & Hagain).
    assert (Hsrc2' : fs1 !! src2 = Some (File c2))
      by (by eapply (lookup_weaken fs)).
    assert (Ht1 : t1 <> src2) by (intros E; rewrite E in Hfree1; congruence).
    assert (Hsrc2a : fsa !! src2 = Some (File c2)).
    { unfold fsa. rewrite lookup_insert_ne by done.
      by rewrite lookup_delete_ne. }
    assert (Hmka : mkdir_parents dst fsa = (Some tt, fsa)).
    { apply (mkdir_from_stable _ _ fs1); [exact Hagain|].
      intros q Hq. unfold fsa.
      assert (t1 <> q) by (intros E; rewrite E in Hfree1; congruence).
      assert (src1 <> q) by (intros E; rewrite E in Hsrc1'; congruence).
      rewrite lookup_insert_ne by done. by rewrite lookup_delete_ne. }
    destruct (safe_rename_file fsa fsa src2 dst None c2 Hsrc2a Hmka)
      as (k2 & Hrun2 & Hfree2 & _ & _).
    simpl in *.
    set (t2 := path_join dst (nth_name (path_name src2) k2)) in *.
    assert (Hta : fsa !! t1 = Some (File c1))
      by (unfold fsa; by rewrite lookup_insert_eq).
    assert (Ht12 : t2 <> t1) by (intros E; rewrite E in Hfree2; congruence).
    exists t1, t2, fsa, (<[t2 := File c2]> (delete src2 fsa)).
    repeat split; try done.
    + rewrite lookup_insert_ne by done. by rewrite lookup_delete_ne.
    + by rewrite lookup_insert_eq.
Qed.

Lemma safe_rename_conflict_free_witness :
  exists fsb,
    exec (safe_rename ["u1"; "a.py"] ["work"; "to_run"] None ;;
          safe_rename ["u2"; "a.py"] ["work"; "to_run"] None) two_uploads = fsb
    /\ fsb !! ["work"; "to_run"; "a.py"] = Some (File "older")
    /\ fsb !! ["work"; "to_run"; "a_1.py"] = Some (File "first")
    /\ fsb !! ["work"; "to_run"; "a_2.py"] = Some (File "second").
Proof.
  destruct (proj2 (proj2 (proj2 safe_rename_conflict_free))
              two_uploads
              (exec (mkdir_parents ["work"; "to_run"]) two_uploads)
              ["u1"; "a.py"] ["u2"; "a.py"] ["work"; "to_run"]
              "first" "second")
    as (t1 & t2 & fsa & fsb & H1 & H2 & Hne & Hc1 & Hc2).
  - discriminate.
  - reflexivity.
  - reflexivity.
  - reflexivity.
  - apply run_Some. vm_compute. reflexivity.
  - eexists. split; [reflexivity|]. repeat split; vm_compute; reflexivity.
Defined.

End SafeRename.

(** ** Submitting a job *)

Section Submit.
Import Dirs Scheduler.

Lemma bind_on_fs {A B : Type} (m : M FS A) (k : A -> M State B) (st : State) :
  (on_fs m ≫= k) st
  = match m (fs st) with
    | (Some a, disk) => k a (set_fs disk st)
    | (None, disk) => (None, set_fs disk st)
    end.
Proof.
  rewrite bind_run. unfold on_fs, zoom. by destruct (m (fs st)) as [[a|] disk].
Qed.

Lemma mkdir_one_other (p q : Path) (disk disk' : FS) :
  mkdir_one p disk = (Some tt, disk') -> q <> p -> disk' !! q = disk !! q.
Proof.
  unfold mkdir_one. destruct (disk !! p) as [[|x]|]; intros [= <-] Hne.
  - done.
  - by apply lookup_insert_ne.
Qed.

Lemma mkdir_from_longer (todo pre : Path) (disk disk' : FS) (q : Path) :
  mkdir_from pre todo disk = (Some tt, disk') ->
  length (pre ++ todo) < length q ->
  disk' !! q = disk !! q.
Proof.
  revert pre disk. induction todo as [|c rest IH]; intros pre disk; simpl.
  - by intros [= <-].
  - rewrite bind_run.
    destruct (mkdir_one (pre ++ [c]) disk) as [[[]|] disk0] eqn:E1; [|done].
    intros E2 Hlen. rewrite (IH _ _ E2).
    + apply (mkdir_one_other _ _ _ _ E1). intros ->.
      rewrite !length_app in Hlen. simpl in Hlen. lia.
    + rewrite <- app_assoc. exact Hlen.
Qed.

(** When the requested name is free, [safe_rename] uses it. *)
Lemma safe_rename_free_name (disk disk1 : FS) (src dst : Path)
    (name c : string) :
  disk !! src = Some (File c) ->
  mkdir_parents dst disk = (Some tt, disk1) ->
  disk !! path_join dst name = None ->
  safe_rename src dst (Some name) disk
  = (Some (path_join dst name),
     <[path_join dst name := File c]> (delete src disk1)).
Proof.
  intros Hsrc Hmk Hfree.
  destruct (safe_rename_file disk disk1 src dst (Some name) c Hsrc Hmk)
    as (k & Hrun & _ & Hbusy & _).
  simpl in *. destruct k as [|k]; [exact Hrun|]. exfalso.
  assert (H0 : path_exists disk1 (path_join dst name) = true)
    by (apply (Hbusy 0); lia).
  apply path_exists_true in H0 as [x Hx].
  rewrite (mkdir_from_longer _ _ _ _ _ Hmk) in Hx; [congruence|].
  unfold path_join. rewrite !length_app. simpl. lia.
Qed.

Lemma get_job_store_set (j : Job) (l : list Job) :
  get_job (id j) (store_set j l) = Some j.
Proof.
  unfold get_job. induction l as [|j' l IH]; simpl.
  - by rewrite bool_decide_true.
  - destruct (decide (id j' = id j)) as [E|E]; simpl.
    + by rewrite bool_decide_true.
    + by rewrite bool_decide_false.
Qed.

(** C10.  [submit_job] moves the caller's script, which is then gone
    from its original path, into [to_run] as [<job_id>.py] (the id being
    fresh, no such file is there yet) and returns a job record with
    status "QUEUED", no assigned GPU, no pid and priority score 0; the
    record is the one the store holds under that id.  Whatever the
    state, a job that [submit_job] returns has these initial fields. *)
Theorem submit_job_moves_script (st : State) (disk1 : FS) (src : Path)
    (user : string) (vram : Z) (part q job_id : string) (now : Q)
    (c : string) :
  fs st !! src = Some (File c) ->
  mkdir_parents (to_run (layout st)) (fs st) = (Some tt, disk1) ->
  fs st !! path_join (to_run (layout st)) (job_id +:+ ".py") = None ->
  (exists st' job,
      let dst := path_join (to_run (layout st)) (job_id +:+ ".py") in
      submit_job src user vram part q job_id now st = (Some job, st')
      /\ script_path job = dst
      /\ fs st' !! src = None
      /\ fs st' !! dst = Some (File c)
      /\ get_job job_id (jobs st') = Some job)
  /\ (forall st0 src0 user0 vram0 part0 q0 id0 now0 job st',
         submit_job src0 user0 vram0 part0 q0 id0 now0 st0 = (Some job, st') ->
         status job = "QUEUED" /\ assigned_gpu job = None
         /\ pid job = None /\ priority_score job = 0%Q
         /\ id job = id0 /\ user_id job = user0 /\ vram_required job = vram0
         /\ partition job = part0 /\ qos job = q0 /\ created_at job = now0).
Proof.
  intros Hsrc Hmk Hfree. split.
  - set (dst := path_join (to_run (layout st)) (job_id +:+ ".py")) in *.
    assert (Hne : dst <> src) by (intros E; rewrite E in Hfree; congruence).
    eexists _, _. simpl. unfold submit_job.
    rewrite bind_get, bind_on_fs.
    rewrite (safe_rename_free_name _ _ _ _ _ _ Hsrc Hmk Hfree).
    rewrite bind_modify. fold dst. split; [reflexivity|]. simpl.
    repeat split.
    + rewrite lookup_insert_ne by done. by rewrite lookup_delete_eq.
    + by rewrite lookup_insert_eq.
    + apply (get_job_store_set (new_job job_id dst user vram part q now)).
  - intros st0 src0 user0 vram0 part0 q0 id0 now0 job st'.
    unfold submit_job. rewrite bind_get, bind_on_fs.
    destruct (safe_rename _ _ _ _) as [[dst|] disk]; [|done].
    rewrite bind_modify. intros [= <- _]. done.
Qed.

Lemma init_fresh_state : fst (init ["work"] uploads) = Some fresh_state.
Proof. vm_compute. reflexivity. Qed.

Lemma submit_job_moves_script_witness :
  exists st' job,
    submit_job ["uploads"; "j1.py"] "alice" (1024 ^ 3) "normal" "standard"
      "J1" 0 fresh_state = (Some job, st')
    /\ script_path job = ["work"; "to_run"; "J1.py"]
    /\ fs st' !! ["uploads"; "j1.py"] = None
    /\ fs st' !! ["work"; "to_run"; "J1.py"] = Some (File "print(1)")
    /\ get_job "J1" (jobs st') = Some job.
Proof.
  destruct (submit_job_moves_script fresh_state
              (exec (mkdir_parents ["work"; "to_run"]) (fs fresh_state))
              ["uploads"; "j1.py"] "alice" (1024 ^ 3) "normal" "standard"
              "J1" 0 "print(1)")
    as [(st' & job & H) _].
  - vm_compute. reflexivity.
  - apply run_Some. vm_compute. reflexivity.
  - vm_compute. reflexivity.
  - exists st', job. exact H.
Defined.

End Submit.

(** ** The job store *)

Section Store.
Import Dirs Scheduler.

Lemma bind_deref {B} (r : string) (k : Job -> M State B) (st : State) :
  (deref r ≫= k) st
  = match get_job r (jobs st) with
    | Some j => k j st
    | None => (None, st)
    end.
Proof.
  unfold deref. rewrite bind_run, bind_get.
  unfold lift_option. by destruct (get_job r (jobs st)).
Qed.

Lemma get_job_id (r : string) (l : list Job) (j : Job) :
  get_job r l = Some j -> id j = r.
Proof.
  unfold get_job. intros H. apply find_some in H as [_ H].
  by apply bool_decide_eq_true in H.
Qed.

Lemma get_job_assign (r r' : string) (f : Job -> Job) (l : list Job) :
  (forall j, id (f j) = id j) ->
  get_job r' ((fun j => if decide (id j = r) then f j else j) <$> l)
  = (fun j => if decide (id j = r) then f j else j) <$> get_job r' l.
Proof.
  intros Hid. unfold get_job. induction l as [|j l IH]; simpl; [done|].
  assert (E : id (if decide (id j = r) then f j else j) = id j)
    by (by destruct (decide (id j = r))).
  rewrite E. destruct (bool_decide (id j = r')); [done|]. exact IH.
Qed.

Lemma store_set_get (r : string) (l : list Job) (j : Job) :
  get_job r l = Some j -> store_set j l = l.
Proof.
  unfold get_job. induction l as [|j' l IH]; simpl; [done|].
  destruct (bool_decide (id j' = r)) eqn:E.
  - intros [= ->]. by rewrite decide_True.
  - intros H. pose proof (get_job_id r l j H) as Hid.
    apply bool_decide_eq_false in E.
    rewrite decide_False by congruence. by rewrite IH.
Qed.

End Store.

(** ** The supervisor *)

Section Supervisor.
Import Dirs Scheduler.

Lemma wait_and_finalize_usage (st : State) (t : Task) (rc : Z) (now : Q)
    (job : Job) :
  get_job (task_job t) (jobs st) = Some job ->
  usage (exec (wait_and_finalize t rc now) st)
  = add_usage (user_id job) (now - task_start t) 1 (usage st).
Proof.
  intros Hjob. unfold exec, wait_and_finalize.
  rewrite bind_deref, Hjob, bind_modify, bind_get.
  set (st2 := set_usage _ st).
  assert (Hfin : forall (d : Path) (s : string),
             usage (snd ((on_fs (safe_rename (script_path job) d None) ≫=
                            fun _ => assign (task_job t) (set_status s)) st2))
             = usage st2).
  { intros d s. rewrite bind_on_fs.
    by destruct (safe_rename _ _ _ _) as [[x|] disk]. }
  rewrite bind_run.
  destruct (decide (rc = 0%Z)).
  - specialize (Hfin (complete (layout st2)) "COMPLETED").
    destruct ((on_fs _ ≫= _) st2) as [[[]|] st3]; simpl in Hfin.
    + rewrite bind_deref.
      by destruct (get_job (task_job t) (jobs st3)).
    + done.
  - specialize (Hfin (fail (layout st2)) "FAILED").
    destruct ((on_fs _ ≫= _) st2) as [[[]|] st3]; simpl in Hfin.
    + rewrite bind_deref.
      by destruct (get_job (task_job t) (jobs st3)).
    + done.
Qed.

(** C5.  When the child of a running job has terminated, the supervisor
    charges the user [add_usage(user, now - start_time, 1)] whatever the
    exit code is (also when the rename then fails); and, the script
    being where the job record says, it moves the script into
    [complete] and sets the status to "COMPLETED" when the exit code is
    0, and into [fail] with status "FAILED" otherwise. *)
Theorem finalize_charges_and_classifies (st : State) (disk1 : FS) (t : Task)
    (rc : Z) (now : Q) (job : Job) (c : string) :
  get_job (task_job t) (jobs st) = Some job ->
  fs st !! script_path job = Some (File c) ->
  mkdir_parents (final_dir (layout st) rc) (fs st) = (Some tt, disk1) ->
  (forall rc' now', 
      usage (exec (wait_and_finalize t rc' now') st)
      = add_usage (user_id job) (now' - task_start t) 1 (usage st))
  /\ exists st' name,
      wait_and_finalize t rc now st = (Some tt, st')
      /\ usage st' = add_usage (user_id job) (now - task_start t) 1 (usage st)
      /\ fs st' !! path_join (final_dir (layout st) rc) name = Some (File c)
      /\ fs st' !! script_path job = None
      /\ (fs st !! path_join (final_dir (layout st) rc)
                     (path_name (script_path job)) = None ->
          name = path_name (script_path job))
      /\ get_job (task_job t) (jobs st')
         = Some (set_status (final_status rc) job)
      /\ final_status rc = (if decide (rc = 0%Z) then "COMPLETED" else "FAILED")
      /\ final_dir (layout st) rc
         = (if decide (rc = 0%Z) then complete (layout st) else fail (layout st)).
Proof.
  intros Hjob Hsrc Hmk. split.
  { intros rc' now'. by apply wait_and_finalize_usage. }
  destruct (safe_rename_file (fs st) disk1 (script_path job)
              (final_dir (layout st) rc) None c Hsrc Hmk)
    as (k & Hrun & Hfree & Hbusy & Hsrc1).
  simpl in Hrun, Hfree, Hbusy.
  set (name := nth_name (path_name (script_path job)) k) in *.
  set (target := path_join (final_dir (layout st) rc) name) in *.
  assert (Hne : target <> script_path job)
    by (intros E; rewrite E in Hfree; congruence).
  set (st' :=
         set_jobs ((fun j => if decide (id j = task_job t)
                             then set_status (final_status rc) j else j)
                     <$> jobs st)
           (set_fs (<[target := File c]> (delete (script_path job) disk1))
              (set_usage
                 (add_usage (user_id job) (now - task_start t) 1 (usage st))
                 st))).
  assert (Hjob' : get_job (task_job t) (jobs st')
                  = Some (set_status (final_status rc) job)).
  { simpl. rewrite get_job_assign by done. rewrite Hjob. simpl.
    by rewrite decide_True by (by eapply get_job_id). }
  exists st', name. split.
  - unfold wait_and_finalize.
    rewrite bind_deref, Hjob, bind_modify, bind_get, bind_run.
    unfold final_dir, final_status in *.
    destruct (decide (rc = 0%Z)).
    + rewrite bind_on_fs. simpl fs. simpl layout. rewrite Hrun.
      change (assign _ _ _) with (Some tt, st'). cbv beta iota.
      rewrite bind_deref, Hjob'. unfold modify, update_job.
      rewrite (store_set_get _ _ _ Hjob'). reflexivity.
    + rewrite bind_on_fs. simpl fs. simpl layout. rewrite Hrun.
      change (assign _ _ _) with (Some tt, st'). cbv beta iota.
      rewrite bind_deref, Hjob'. unfold modify, update_job.
      rewrite (store_set_get _ _ _ Hjob'). reflexivity.
  - repeat split; try done.
    + simpl. by rewrite lookup_insert_eq.
    + simpl. rewrite lookup_insert_ne by done. by rewrite lookup_delete_eq.
    + intros Hfree0. destruct k as [|k]; [done|]. exfalso.
      assert (H0 : path_exists disk1
                     (path_join (final_dir (layout st) rc)
                        (path_name (script_path job))) = true)
        by (apply (Hbusy 0); lia).
      apply path_exists_true in H0 as [x Hx].
      rewrite (mkdir_from_longer _ _ _ _ _ Hmk) in Hx; [congruence|].
      unfold path_join. rewrite !length_app. simpl. lia.
Qed.

End Supervisor.

Lemma finalize_charges_and_classifies_witness :
  (exists st',
      Scheduler.wait_and_finalize running_task 0 25 running_state = (Some tt, st')
      /\ Scheduler.usage st' !! "alice" = Some (0 + (25 - 10) * inject_Z 1)%Q
      /\ Scheduler.fs st' !! ["work"; "complete"; "J1.py"]
         = Some (Dirs.File "print(1)")
      /\ status_of "J1" st' = Some "COMPLETED")
  /\ (exists st',
         Scheduler.wait_and_finalize running_task 1 25 running_state
         = (Some tt, st')
         /\ Scheduler.usage st' !! "alice" = Some (0 + (25 - 10) * inject_Z 1)%Q
         /\ Scheduler.fs st' !! ["work"; "fail"; "J1.py"]
            = Some (Dirs.File "print(1)")
         /\ status_of "J1" st' = Some "FAILED").
Proof.
  split.
  - destruct (finalize_charges_and_classifies running_state
                (exec (Dirs.mkdir_parents ["work"; "complete"])
                   (Scheduler.fs running_state))
                running_task 0 25 running_job "print(1)")
      as (_ & st' & name & Hrun & Husage & Hfile & Hgone & Hname & Hjob & _).
    + vm_compute. reflexivity.
    + vm_compute. reflexivity.
    + apply run_Some. vm_compute. reflexivity.
    + exists st'. split; [exact Hrun|]. split.
      * rewrite Husage. vm_compute. reflexivity.
      * rewrite (Hname ltac:(vm_compute; reflexivity)) in Hfile.
        split; [exact Hfile|]. unfold status_of.
        change (Scheduler.task_job running_task) with "J1" in Hjob.
        rewrite Hjob. reflexivity.
  - destruct (finalize_charges_and_classifies running_state
                (exec (Dirs.mkdir_parents ["work"; "fail"])
                   (Scheduler.fs running_state))
                running_task 1 25 running_job "print(1)")
      as (_ & st' & name & Hrun & Husage & Hfile & Hgone & Hname & Hjob & _).
    + vm_compute. reflexivity.
    + vm_compute. reflexivity.
    + apply run_Some. vm_compute. reflexivity.
    + exists st'. split; [exact Hrun|]. split.
      * rewrite Husage. vm_compute. reflexivity.
      * rewrite (Hname ltac:(vm_compute; reflexivity)) in Hfile.
        split; [exact Hfile|]. unfold status_of.
        change (Scheduler.task_job running_task) with "J1" in Hjob.
        rewrite Hjob. reflexivity.
Defined.

(** ** Restart *)

Section Restart.
Import Dirs Scheduler.

Lemma same_files_trans (a b c : FS) :
  same_files a b -> same_files b c -> same_files a c.
Proof. intros H1 H2 p x. by rewrite (H1 p x). Qed.

Lemma mkdir_parents_same_files (p : Path) (a b : FS) :
  mkdir_parents p a = (Some tt, b) -> same_files a b.
Proof.
  intros H. apply mkdir_parents_Some in H as (Hsub & Hfiles & _).
  intros q c. split; [|apply Hfiles].
  intros Hq. by eapply (lookup_weaken a).
Qed.

Lemma bind_mkdir_parents {B} (p : Path) (k : unit -> M FS B) (a : FS)
    (r : option B) (b : FS) :
  (mkdir_parents p ≫= k) a = (r, b) ->
  is_Some r ->
  exists a', mkdir_parents p a = (Some tt, a') /\ k tt a' = (r, b).
Proof.
  rewrite bind_run. destruct (mkdir_parents p a) as [[[]|] a'].
  - intros H _. by exists a'.
  - intros [= <- _] [x Hx]. done.
Qed.

(** What [__init__] builds. *)
Lemma init_Some (root_dir : Path) (disk disk' : FS) (st : State) :
  init root_dir disk = (Some st, disk') ->
  jobs st = [] /\ usage st = ∅ /\ tasks st = []
  /\ fs st = disk' /\ same_files disk (fs st).
Proof.
  unfold init. intros H. rewrite bind_run in H.
  destruct (setup_dirs _ disk) as [[[]|] d5] eqn:H5; [|done].
  unfold setup_dirs in H5.
  apply bind_mkdir_parents in H5 as (d1 & H1 & H5); [|by eexists].
  apply bind_mkdir_parents in H5 as (d2 & H2 & H5); [|by eexists].
  apply bind_mkdir_parents in H5 as (d3 & H3 & H5); [|by eexists].
  apply bind_mkdir_parents in H5 as (d4 & H4 & H5); [|by eexists].
  apply bind_mkdir_parents in H as (d6 & H6 & H); [|by eexists].
  rewrite bind_get in H. injection H as <- <-. simpl.
  do 4 (split; [done|]).
  apply mkdir_parents_same_files in H1, H2, H3, H4, H5, H6.
  repeat (eapply same_files_trans; [eassumption|]). by intros p c.
Qed.

(** C7, as the code has it.  [GpuScheduler.__init__] only creates the
    state directories: the scheduler it builds knows no job, has an
    empty ledger and no supervisor task, and the disk holds exactly the
    regular files it held before, where they were.  A script left in
    [running] by a crash is neither moved to [fail] nor known as FAILED. *)
Theorem restart_forgets_jobs (root_dir : Path) (disk disk' : FS) (st : State) :
  init root_dir disk = (Some st, disk') ->
  jobs st = [] /\ usage st = ∅ /\ tasks st = []
  /\ (forall r, get_job r (jobs st) = None)
  /\ fs st = disk'
  /\ same_files disk (fs st).
Proof.
  intros H. apply init_Some in H as (Hjobs & Husage & Htasks & Hfs & Hfiles).
  do 3 (split; [done|]).
  split; [intros r; by rewrite Hjobs|]. by split.
Qed.

Lemma restart_forgets_jobs_witness :
  exists st,
    fst (init ["work"] crashed_disk) = Some st
    /\ jobs st = []
    /\ same_files crashed_disk (fs st).
Proof.
  assert (Hinit : init ["work"] crashed_disk
                  = (Some (default fresh_state (fst (init ["work"] crashed_disk))),
                     exec (init ["work"]) crashed_disk))
    by (apply run_returns; vm_compute; reflexivity).
  exists (default fresh_state (fst (init ["work"] crashed_disk))).
  destruct (restart_forgets_jobs ["work"] crashed_disk
              (exec (init ["work"]) crashed_disk)
              (default fresh_state (fst (init ["work"] crashed_disk))) Hinit)
    as (Hjobs & _ & _ & _ & _ & Hfiles).
  split; [by rewrite Hinit|]. split; [exact Hjobs | exact Hfiles].
Defined.

(** C7 as stated fails: after a restart on that disk the script of J1 is
    still in [running], nothing is in [fail], and the scheduler has no
    record of J1 at all, FAILED or otherwise. *)
Lemma restart_leaves_running_script :
  crashed_disk !! ["work"; "running"; "J1.py"] = Some (File "print(1)")
  /\ exists st,
      fst (init ["work"] crashed_disk) = Some st
      /\ fs st !! ["work"; "running"; "J1.py"] = Some (File "print(1)")
      /\ fs st !! ["work"; "fail"; "J1.py"] = None
      /\ get_job "J1" (jobs st) = None
      /\ list_jobs (jobs st) = [].
Proof.
  split; [vm_compute; reflexivity|].
  exists (default fresh_state (fst (init ["work"] crashed_disk))).
  repeat split; vm_compute; reflexivity.
Qed.

End Restart.

(** ** Sorting by descending key *)

Section SortDesc.
Context {A : Type} (key : A -> Q).

Lemma insert_desc_perm (x : A) (l : list A) : insert_desc key x l ≡ₚ x :: l.
Proof.
  induction l as [|y l IH]; simpl; [done|].
  destruct (Qle_bool (key y) (key x)); [done|].
  rewrite IH. apply Permutation_swap.
Qed.

Lemma sort_desc_perm (l : list A) : sort_desc key l ≡ₚ l.
Proof.
  induction l as [|x l IH]; simpl; [done|].
  unfold sort_desc in *. simpl. by rewrite insert_desc_perm, IH.
Qed.

Lemma insert_desc_sorted (x : A) (l : list A) :
  StronglySorted (desc key) l -> StronglySorted (desc key) (insert_desc key x l).
Proof.
  induction 1 as [|y l Hl IH Hy]; simpl.
  - by repeat constructor.
  - destruct (Qle_bool (key y) (key x)) eqn:E.
    + apply Qle_bool_iff in E. constructor; [by constructor|].
      constructor; [exact E|].
      eapply Forall_impl; [exact Hy|]. intros z Hz. unfold desc in *.
      by apply (Qle_trans _ (key y)).
    + assert (Hlt : (key x <= key y)%Q).
      { apply Qnot_lt_le. intros Hlt. apply Qlt_le_weak in Hlt.
        apply Qle_bool_iff in Hlt. congruence. }
      constructor; [exact IH|].
      rewrite insert_desc_perm. by constructor.
Qed.

Lemma sort_desc_sorted (l : list A) : StronglySorted (desc key) (sort_desc key l).
Proof.
  induction l as [|x l IH]; [constructor|].
  by apply insert_desc_sorted.
Qed.

(** The head of the sorted list has a maximal key. *)
Lemma sort_desc_head_max (l : list A) (x : A) :
  head (sort_desc key l) = Some x ->
  x ∈ l /\ forall y, y ∈ l -> (key y <= key x)%Q.
Proof.
  intros Hhead. pose proof (sort_desc_sorted l) as Hsorted.
  pose proof (sort_desc_perm l) as Hperm.
  destruct (sort_desc key l) as [|x' s]; [done|]. injection Hhead as ->.
  split.
  - rewrite <- Hperm. by left.
  - intros y Hy. rewrite <- Hperm in Hy.
    apply elem_of_cons in Hy as [->|Hy]; [apply Qle_refl|].
    apply StronglySorted_inv in Hsorted as [_ Hall].
    by apply (proj1 (Forall_forall _ _) Hall).
Qed.

End SortDesc.

(** ** Relations kept along a computation *)

Section Preserves.
Context {S : Type} (R : relation S) `{!Reflexive R} `{!Transitive R}.

Lemma preserves_ret {A} (a : A) : preserves R (ret a).
Proof. intros s. apply reflexivity. Qed.

Lemma preserves_get : preserves R get.
Proof. intros s. apply reflexivity. Qed.

Lemma preserves_lift_option {A} (o : option A) : preserves R (lift_option o).
Proof. intros s. apply reflexivity. Qed.

Lemma preserves_modify (f : S -> S) :
  (forall s, R s (f s)) -> preserves R (modify f).
Proof. intros H s. apply H. Qed.

Lemma preserves_bind {A B} (m : M S A) (k : A -> M S B) :
  preserves R m -> (forall a, preserves R (k a)) -> preserves R (m ≫= k).
Proof.
  intros Hm Hk s. unfold exec. rewrite bind_run.
  specialize (Hm s). unfold exec in Hm.
  destruct (m s) as [[a|] s']; simpl in *; [|done].
  etrans; [exact Hm|]. apply Hk.
Qed.

Lemma preserves_for_each {A} (l : list A) (body : A -> M S unit) :
  (forall x, preserves R (body x)) -> preserves R (for_each l body).
Proof.
  intros Hbody. induction l as [|x l IH]; simpl.
  - apply preserves_ret.
  - by apply preserves_bind.
Qed.

End Preserves.

(** ** One admission pass of GpuScheduler *)

Section Pass.
Import Dirs GpuMonitor Scheduler.

Lemma amap_id (r : string) (l : list Job) : amap r (fun j => j) l = l.
Proof.
  unfold amap. induction l as [|j l IH]; [done|].
  rewrite fmap_cons, IH. by destruct (decide (id j = r)).
Qed.

Lemma amap_compose (r : string) (F1 F2 : Job -> Job) (l : list Job) :
  (forall j, id (F1 j) = id j) ->
  amap r F2 (amap r F1 l) = amap r (fun j => F2 (F1 j)) l.
Proof.
  intros Hid. unfold amap. rewrite <- list_fmap_compose.
  apply list_fmap_ext. intros _ j _. simpl.
  destruct (decide (id j = r)) as [E|E].
  - by rewrite decide_True by (by rewrite Hid).
  - by rewrite decide_False.
Qed.

Global Instance rescored_refl : Reflexive rescored.
Proof. intros st. exists (fun j => j). split; [done|]. by rewrite list_fmap_id. Qed.

Global Instance rescored_trans : Transitive rescored.
Proof.
  intros st1 st2 st3 (G1 & H1 & E1) (G2 & H2 & E2).
  exists (fun j => G2 (G1 j)). split.
  - intros j. destruct (H1 j) as [Hi Hs], (H2 (G1 j)) as [Hi' Hs'].
    split; congruence.
  - by rewrite E2, E1, <- list_fmap_compose.
Qed.

Global Instance touched_refl r s : Reflexive (touched r s).
Proof.
  intros st. exists (fun j => j). split; [done|].
  split; [by rewrite amap_id | by left].
Qed.

Global Instance touched_trans r s : Transitive (touched r s).
Proof.
  intros st1 st2 st3 (F1 & H1 & E1 & S1) (F2 & H2 & E2 & S2).
  exists (fun j => F2 (F1 j)). split; [|split].
  - intros j. by rewrite H2, H1.
  - by rewrite E2, E1, amap_compose.
  - destruct S2 as [S2|S2]; [|by right].
    destruct S1 as [S1|S1]; [left | right]; intros j; by rewrite S2, S1.
Qed.

Lemma get_job_fmap (r : string) (G : Job -> Job) (l : list Job) :
  (forall j, id (G j) = id j) ->
  get_job r (G <$> l) = G <$> get_job r l.
Proof.
  intros Hid. unfold get_job. induction l as [|j l IH]; simpl; [done|].
  rewrite Hid. by destruct (bool_decide (id j = r)).
Qed.

Lemma rescored_status (st st' : State) (r : string) :
  rescored st st' -> status_of r st' = status_of r st.
Proof.
  intros (G & HG & E). unfold status_of. rewrite E.
  rewrite get_job_fmap by (intros j; apply HG).
  destruct (get_job r (jobs st)) as [j|]; simpl; [|done].
  f_equal. apply HG.
Qed.

Lemma touched_status (r s : string) (st st' : State) (r' : string) :
  touched r s st st' ->
  status_of r' st' = status_of r' st
  \/ (r' = r /\ status_of r' st' = Some s).
Proof.
  intros (F & HF & E & HS). unfold status_of. rewrite E. unfold amap.
  rewrite get_job_assign by done.
  destruct (get_job r' (jobs st)) as [j|] eqn:Hj; simpl; [|by left].
  apply get_job_id in Hj.
  destruct (decide (id j = r)) as [Er|Er]; [|by left].
  destruct HS as [HS|HS]; [left | right]; rewrite HS; [done|].
  split; congruence.
Qed.

(** Assignments, lookups and disk operations under the two relations. *)
Lemma assign_rescored (r : string) (f : Job -> Job) :
  (forall j, id (f j) = id j /\ status (f j) = status j) ->
  preserves rescored (assign r f).
Proof.
  intros Hf st. exists (fun j => if decide (id j = r) then f j else j).
  split; [|done]. intros j. destruct (decide (id j = r)); [apply Hf | done].
Qed.

Lemma assign_touched_keep (r s : string) (f : Job -> Job) :
  (forall j, id (f j) = id j /\ status (f j) = status j) ->
  preserves (touched r s) (assign r f).
Proof.
  intros Hf st. exists f. split; [intros j; apply Hf|].
  split; [done|]. left. intros j. apply Hf.
Qed.

Lemma assign_touched_status (r s : string) :
  preserves (touched r s) (assign r (set_status s)).
Proof. intros st. exists (set_status s). split; [done|]. split; [done|]. by right. Qed.

Lemma preserves_deref (R : relation State) `{!Reflexive R} `{!Transitive R}
    (r : string) : preserves R (deref r).
Proof.
  unfold deref. apply preserves_bind; [done | by apply preserves_get |].
  intros st. by apply preserves_lift_option.
Qed.

Lemma preserves_on_fs (R : relation State) {A} (m : M FS A) :
  (forall st disk, R st (set_fs disk st)) -> preserves R (on_fs m).
Proof.
  intros H st. unfold exec, on_fs, zoom.
  destruct (m (fs st)) as [o disk]. apply H.
Qed.

Lemma set_fs_touched r s st disk : touched r s st (set_fs disk st).
Proof.
  exists (fun j => j). split; [done|]. simpl.
  split; [by rewrite amap_id | by left].
Qed.

Lemma set_tasks_touched r s st v : touched r s st (set_tasks v st).
Proof.
  exists (fun j => j). split; [done|]. simpl.
  split; [by rewrite amap_id | by left].
Qed.

Lemma set_usage_touched r s st v : touched r s st (set_usage v st).
Proof.
  exists (fun j => j). split; [done|]. simpl.
  split; [by rewrite amap_id | by left].
Qed.

(** [await self.jobs.update_job(job)] stores the object the store
    already holds: nothing changes. *)
Lemma exec_update_job {B} (r : string) (k : unit -> M State B) (st : State) :
  (deref r ≫= fun job' =>
     modify (fun st => set_jobs (update_job job' (jobs st)) st) ≫= k) st
  = match get_job r (jobs st) with
    | Some _ => k tt st
    | None => (None, st)
    end.
Proof.
  rewrite bind_deref. destruct (get_job r (jobs st)) as [j|] eqn:Hj; [|done].
  rewrite bind_modify. unfold update_job. rewrite (store_set_get _ _ _ Hj).
  by destruct st.
Qed.

Lemma update_job_preserves (R : relation State) `{!Reflexive R} {B}
    (r : string) (k : unit -> M State B) :
  preserves R (k tt) ->
  preserves R (deref r ≫= fun job' =>
                 modify (fun st => set_jobs (update_job job' (jobs st)) st) ≫= k).
Proof.
  intros Hk st. unfold exec. rewrite exec_update_job.
  destruct (get_job r (jobs st)); [apply Hk | apply reflexivity].
Qed.

End Pass.

Section PassSteps.
Import Dirs GpuMonitor Scheduler.

Lemma calculate_slurm_priority_rescored (now : Q) (r : string) :
  preserves rescored (calculate_slurm_priority now r).
Proof.
  unfold calculate_slurm_priority.
  apply preserves_bind; [apply _ | apply preserves_deref; apply _ | intros job].
  apply preserves_bind; [apply _ | apply preserves_get; apply _ | intros st].
  apply preserves_bind; [apply _ | apply preserves_lift_option; apply _ | intros fsf].
  apply preserves_bind; [apply _ | apply preserves_lift_option; apply _ | intros size].
  apply preserves_bind; [apply _ | | intros _; apply preserves_ret; apply _].
  by apply assign_rescored.
Qed.

Lemma pick_next_job_rescored (clock : nat -> Q) :
  preserves rescored (pick_next_job clock).
Proof.
  unfold pick_next_job.
  apply preserves_bind; [apply _ | apply preserves_get; apply _ | intros st].
  destruct (id <$> filter _ (jobs st)) as [|r rs]; [apply preserves_ret; apply _|].
  apply preserves_bind; [apply _ | | intros _].
  - apply preserves_for_each; [apply _ | apply _ |]. intros ir.
    apply preserves_bind;
      [apply _ | apply calculate_slurm_priority_rescored | intros p].
    by apply assign_rescored.
  - apply preserves_bind; [apply _ | apply preserves_get; apply _ | intros st'].
    apply preserves_ret; apply _.
Qed.

Lemma launch_job_touched (metrics : list GpuMetrics) (now : Q)
    (spawn : option Z) (r : string) :
  preserves (touched r "RUNNING") (launch_job metrics now spawn r).
Proof.
  unfold launch_job, find_available_gpu.
  apply preserves_bind; [apply _ | apply preserves_deref; apply _ | intros job].
  apply preserves_bind; [apply _ | | intros found].
  { apply preserves_bind; [apply _ | apply preserves_get; apply _ | intros st].
    apply preserves_ret; apply _. }
  destruct found as [gpu|]; [|apply preserves_ret; apply _].
  apply preserves_bind; [apply _ | apply preserves_get; apply _ | intros st].
  apply preserves_bind; [apply _ | | intros p].
  { apply preserves_on_fs. apply set_fs_touched. }
  apply preserves_bind; [apply _ | by apply assign_touched_keep | intros _].
  apply preserves_bind; [apply _ | apply assign_touched_status | intros _].
  apply preserves_bind; [apply _ | by apply assign_touched_keep | intros _].
  apply preserves_bind; [apply _ | | intros proc].
  { apply preserves_on_fs. apply set_fs_touched. }
  apply preserves_bind; [apply _ | by apply assign_touched_keep | intros _].
  apply update_job_preserves; [apply _|].
  apply preserves_modify. intros st'. apply set_tasks_touched.
Qed.

Lemma wait_and_finalize_touched (t : Task) (rc : Z) (now : Q) :
  preserves (touched (task_job t) (final_status rc))
    (wait_and_finalize t rc now).
Proof.
  unfold wait_and_finalize, final_status.
  apply preserves_bind; [apply _ | apply preserves_deref; apply _ | intros job].
  apply preserves_bind; [apply _ | | intros _].
  { apply preserves_modify. intros st. apply set_usage_touched. }
  apply preserves_bind; [apply _ | apply preserves_get; apply _ | intros st].
  apply preserves_bind; [apply _ | | intros _].
  - destruct (decide (rc = 0%Z)).
    + apply preserves_bind; [apply _ | | intros _].
      * apply preserves_on_fs. apply set_fs_touched.
      * apply assign_touched_status.
    + apply preserves_bind; [apply _ | | intros _].
      * apply preserves_on_fs. apply set_fs_touched.
      * apply assign_touched_status.
  - pose proof (update_job_preserves (touched (task_job t)
                   (if decide (rc = 0%Z) then "COMPLETED" else "FAILED"))
                  (task_job t) (fun _ => ret tt)) as H.
    intros s. specialize (H ltac:(apply preserves_ret; apply _) s).
    unfold exec in *. rewrite exec_update_job in H.
    rewrite bind_deref.
    destruct (get_job (task_job t) (jobs s)) as [j|] eqn:Hj; [|exact H].
    unfold modify, update_job. rewrite (store_set_get _ _ _ Hj).
    simpl. by destruct s.
Qed.

End PassSteps.

Section SingleCandidate.
Import Dirs GpuMonitor Scheduler.

Lemma run_pass_cases nvml clock now spawn (st : State) :
  run_pass nvml clock now spawn st
  = match pick_next_job clock st with
    | (Some (Some r), st1) => launch_job (list_gpus nvml) now spawn r st1
    | (Some None, st1) => (Some tt, st1)
    | (None, st1) => (None, st1)
    end.
Proof.
  unfold run_pass. rewrite bind_run.
  by destruct (pick_next_job clock st) as [[[r|]|] st1].
Qed.

Lemma pick_next_job_head (clock : nat -> Q) (st : State) (r : string) :
  picked clock st = Some r ->
  head (id <$> sort_desc priority_score
          (omap (fun r => get_job r (jobs (exec (pick_next_job clock) st)))
             (id <$> filter (fun j => status j = "QUEUED") (jobs st))))
  = Some r.
Proof.
  unfold picked, exec, pick_next_job. rewrite bind_get.
  destruct (id <$> filter _ (jobs st)) as [|r0 rs] eqn:Hc; [done|].
  rewrite bind_run.
  destruct (for_each _ _ st) as [[[]|] st1]; [|done].
  rewrite bind_get. simpl.
  destruct (head _) as [r'|]; [|done]. by intros [= ->].
Qed.

Lemma get_job_elem_of (r : string) (l : list Job) (j : Job) :
  get_job r l = Some j -> j ∈ l.
Proof.
  unfold get_job. intros H. apply find_some in H as [H _].
  by apply list_elem_of_In.
Qed.

Lemma get_job_NoDup (l : list Job) (j : Job) :
  NoDup (id <$> l) -> j ∈ l -> get_job (id j) l = Some j.
Proof.
  unfold get_job. induction l as [|j' l IH]; intros Hnd Hj.
  - by apply elem_of_nil in Hj.
  - rewrite fmap_cons in Hnd. apply NoDup_cons in Hnd as [Hnotin Hnd].
    simpl. apply elem_of_cons in Hj as [->|Hj].
    + by rewrite bool_decide_true.
    + rewrite bool_decide_false; [by apply IH|].
      intros E. apply Hnotin. rewrite E. by apply list_elem_of_fmap_2.
Qed.

(** The picked job is queued and no queued job has a higher score. *)
Lemma picked_is_best (clock : nat -> Q) (st : State) (r : string) :
  NoDup (id <$> jobs st) ->
  picked clock st = Some r ->
  exists job,
    get_job r (jobs (exec (pick_next_job clock) st)) = Some job
    /\ status job = "QUEUED"
    /\ forall r' job',
        get_job r' (jobs (exec (pick_next_job clock) st)) = Some job' ->
        status job' = "QUEUED" ->
        (priority_score job' <= priority_score job)%Q.
Proof.
  intros Hnd Hpick. pose proof (pick_next_job_head _ _ _ Hpick) as Hhead.
  pose proof (pick_next_job_rescored clock st) as Hres.
  set (st1 := exec (pick_next_job clock) st) in *.
  set (cands := id <$> filter (fun j => status j = "QUEUED") (jobs st)) in *.
  set (objs := omap (fun r => get_job r (jobs st1)) cands) in *.
  destruct (sort_desc priority_score objs) as [|job sorted] eqn:Hsort;
    [done|].
  injection Hhead as Hid.
  destruct (sort_desc_head_max priority_score objs job) as [Hin Hmax];
    [by rewrite Hsort|].
  apply list_elem_of_omap in Hin as (r0 & Hr0 & Hget).
  assert (r0 = r) by (apply get_job_id in Hget; congruence). subst r0.
  exists job. split; [exact Hget|]. split.
  - apply list_elem_of_fmap in Hr0 as (j0 & Hj0 & Hin0).
    apply list_elem_of_filter in Hin0 as [Hq Hin0].
    pose proof (rescored_status st st1 r Hres) as Hst.
    unfold status_of in Hst. rewrite Hget in Hst.
    rewrite Hj0, (get_job_NoDup _ _ Hnd Hin0) in Hst. simpl in Hst.
    congruence.
  - intros r' job' Hget' Hq. apply Hmax.
    apply list_elem_of_omap. exists r'. split; [|exact Hget'].
    pose proof (rescored_status st st1 r' Hres) as Hst.
    unfold status_of in Hst. rewrite Hget' in Hst.
    destruct (get_job r' (jobs st)) as [j1|] eqn:Hj1; [|done].
    simpl in Hst. pose proof (get_job_id _ _ _ Hj1) as <-.
    apply list_elem_of_fmap_2, list_elem_of_filter.
    split; [congruence | by eapply get_job_elem_of].
Qed.

(** A pass changes the status of the picked job at most, to RUNNING. *)
Lemma run_pass_status nvml clock now spawn (st : State) (r' : string) :
  status_of r' (exec (run_pass nvml clock now spawn) st) = status_of r' st
  \/ (picked clock st = Some r'
      /\ status_of r' (exec (run_pass nvml clock now spawn) st)
         = Some "RUNNING").
Proof.
  unfold exec. rewrite run_pass_cases. unfold picked.
  pose proof (pick_next_job_rescored clock st) as Hres. unfold exec in Hres.
  destruct (pick_next_job clock st) as [[[r|]|] st1]; simpl in *.
  - pose proof (launch_job_touched (list_gpus nvml) now spawn r st1) as Ht.
    apply (touched_status _ _ _ _ r') in Ht as [Ht|[-> Ht]].
    + left. unfold exec in Ht. rewrite Ht. by apply rescored_status.
    + by right.
  - left. by apply rescored_status.
  - left. by apply rescored_status.
Qed.

(** When no GPU is found for the picked job the pass ends there. *)
Lemma run_pass_blocked nvml clock now spawn (st : State) (r : string)
    (job : Job) :
  picked clock st = Some r ->
  get_job r (jobs (exec (pick_next_job clock) st)) = Some job ->
  scan_gpus (list_gpus nvml)
    (filter (fun j => status j = "RUNNING")
       (jobs (exec (pick_next_job clock) st)))
    (vram_required job) = None ->
  run_pass nvml clock now spawn st
  = (Some tt, exec (pick_next_job clock) st).
Proof.
  unfold picked, exec. rewrite run_pass_cases.
  destruct (pick_next_job clock st) as [[[r0|]|] st1]; simpl; try done.
  intros [= ->] Hjob Hscan. unfold launch_job.
  rewrite bind_deref, Hjob. unfold find_available_gpu.
  rewrite bind_run, bind_get. simpl. by rewrite Hscan.
Qed.

(** The scores [_pick_next_job] stores. *)
Lemma set_jobs_set_jobs (l l' : list Job) (st : State) :
  set_jobs l (set_jobs l' st) = set_jobs l st.
Proof. by destruct st. Qed.

Lemma score_step (now : Q) (r : string) (st st' : State) (job : Job) :
  get_job r (jobs st) = Some job ->
  (calculate_slurm_priority now r ≫= fun p => assign r (set_priority_score p))
    st = (Some tt, st') ->
  exists p dbg,
    slurm_priority (config st) (usage st) now job = Some p
    /\ st' = set_jobs
               (amap r (fun j => set_priority_score p (set_debug_factors dbg j))
                  (jobs st)) st.
Proof.
  intros Hjob. rewrite bind_run.
  destruct (slurm_priority (config st) (usage st) now job) as [p|] eqn:Hp.
  - destruct (calculate_slurm_priority_run now r st job p Hjob Hp) as [dbg E].
    rewrite E. unfold assign, modify. simpl. intros [= <-].
    exists p, dbg. split; [done|].
    rewrite set_jobs_set_jobs. f_equal.
    by apply (amap_compose r (set_debug_factors dbg) (set_priority_score p)).
  - by rewrite (calculate_slurm_priority_raises now r st job Hjob Hp).
Qed.

Lemma for_each_scores (clock : nat -> Q) (l : list (nat * string))
    (st st' : State) :
  NoDup (l.*2) ->
  for_each l (fun ir => calculate_slurm_priority (clock ir.1) ir.2
                          ≫= fun p => assign ir.2 (set_priority_score p))
    st = (Some tt, st') ->
  config st' = config st /\ usage st' = usage st
  /\ (forall i r job,
         (i, r) ∈ l -> get_job r (jobs st) = Some job ->
         exists p dbg,
           slurm_priority (config st) (usage st) (clock i) job = Some p
           /\ get_job r (jobs st')
              = Some (set_priority_score p (set_debug_factors dbg job)))
  /\ (forall r, r ∉ l.*2 -> get_job r (jobs st') = get_job r (jobs st)).
Proof.
  revert st. induction l as [|[i0 r0] l IH]; intros st Hnd.
  - intros [= <-]. repeat split; try done.
    intros i r job H. by apply elem_of_nil in H.
  - rewrite fmap_cons in Hnd. apply NoDup_cons in Hnd as [Hnotin Hnd].
    cbn [for_each]. rewrite bind_run.
    destruct ((calculate_slurm_priority (clock (i0, r0).1) (i0, r0).2
                 ≫= fun p => assign (i0, r0).2 (set_priority_score p)) st)
      as [[[]|] st0] eqn:Hstep; [|done].
    intros Hrest. destruct (IH st0 Hnd Hrest) as (Hc & Hu & Hin & Hout).
    cbn [fst snd] in Hstep.
    assert (Hst0 : forall job0, get_job r0 (jobs st) = Some job0 ->
              exists p dbg,
                slurm_priority (config st) (usage st) (clock i0) job0 = Some p
                /\ st0 = set_jobs
                           (amap r0 (fun j => set_priority_score p
                                                (set_debug_factors dbg j))
                              (jobs st)) st).
    { intros job0 Hjob0. by apply (score_step _ _ _ _ _ Hjob0). }
    assert (Hsame : config st0 = config st /\ usage st0 = usage st
                    /\ forall r, r <> r0 ->
                                 get_job r (jobs st0) = get_job r (jobs st)).
    { destruct (get_job r0 (jobs st)) as [job0|] eqn:Hjob0.
      - destruct (Hst0 job0 eq_refl) as (p & dbg & _ & ->). simpl.
        split; [done|]. split; [done|]. intros r Hr. unfold amap.
        rewrite get_job_assign by done.
        destruct (get_job r (jobs st)) as [j|] eqn:Hj; [|done]. simpl.
        apply get_job_id in Hj. by rewrite decide_False by congruence.
      - unfold calculate_slurm_priority in Hstep.
        rewrite bind_run, bind_deref, Hjob0 in Hstep. done. }
    destruct Hsame as (Hc0 & Hu0 & Hother).
    split; [congruence|]. split; [congruence|]. split.
    + intros i r job Hir Hjob. apply elem_of_cons in Hir as [[= -> ->]|Hir].
      * destruct (Hst0 job Hjob) as (p & dbg & Hp & E).
        exists p, dbg. split; [done|].
        rewrite (Hout r0 Hnotin), E. simpl. unfold amap.
        rewrite get_job_assign by done. rewrite Hjob. simpl.
        apply get_job_id in Hjob. by rewrite decide_True.
      * assert (Hr : r <> r0).
        { intros ->. apply Hnotin.
          by apply (list_elem_of_fmap_2 snd) in Hir. }
        rewrite <- Hc0, <- Hu0. apply Hin; [done|]. by rewrite Hother.
    + intros r Hr. rewrite fmap_cons in Hr.
      apply not_elem_of_cons in Hr as [Hne Hr].
      rewrite (Hout r Hr). by apply Hother.
Qed.

Lemma imap_pair_snd {A} (l : list A) : (imap pair l).*2 = l.
Proof.
  rewrite fmap_imap. rewrite (imap_ext _ (const (fun x => x)) l) by done.
  by rewrite imap_const, list_fmap_id.
Qed.

Lemma pick_next_job_scores (clock : nat -> Q) (st : State) (r : string) :
  NoDup (id <$> jobs st) ->
  picked clock st = Some r ->
  forall i j,
    filter (fun j => status j = "QUEUED") (jobs st) !! i = Some j ->
    exists p dbg,
      slurm_priority (config st) (usage st) (clock i) j = Some p
      /\ get_job (id j) (jobs (exec (pick_next_job clock) st))
         = Some (set_priority_score p (set_debug_factors dbg j)).
Proof.
  intros Hnd Hpick i j Hi.
  unfold picked, exec, pick_next_job in *. rewrite bind_get in *.
  set (queued := filter (fun j => status j = "QUEUED") (jobs st)) in *.
  assert (Hcands : NoDup (id <$> queued)).
  { eapply sublist_NoDup; [exact Hnd|].
    apply fmap_sublist, sublist_filter. }
  destruct (id <$> queued) as [|r0 rs] eqn:Hc; [done|].
  rewrite <- Hc in *. clear Hc r0 rs.
  rewrite bind_run in *.
  destruct (for_each (imap pair (id <$> queued)) _ st) as [[[]|] st1] eqn:Hloop;
    [|done].
  rewrite bind_get. simpl.
  destruct (for_each_scores clock (imap pair (id <$> queued)) st st1)
    as (_ & _ & Hin & _); [by rewrite imap_pair_snd | exact Hloop |].
  apply (Hin i (id j) j).
  - apply elem_of_lookup_imap. exists i, (id j). split; [done|].
    by rewrite list_lookup_fmap, Hi.
  - apply get_job_NoDup; [done|].
    apply list_elem_of_lookup_2 in Hi.
    by apply list_elem_of_filter in Hi as [_ Hi].
Qed.

End SingleCandidate.

(** ** One pass of the job manager daemon *)

Section Daemon.
Import JobManager.

Lemma save_job_app (j : Job) (e : Entry) (pre rest : list Entry) :
  file e ∉ file <$> pre ->
  save_job j (file e) (pre ++ e :: rest)
  = pre ++ {| job := j; file := file e |} :: rest.
Proof.
  induction pre as [|e' pre IH]; intros Hnotin; simpl.
  - by rewrite decide_True.
  - rewrite fmap_cons in Hnotin. apply not_elem_of_cons in Hnotin as [Hne Hnotin].
    rewrite decide_False by done. by rewrite IH.
Qed.

Lemma complete_running_run (now : Q) (entries pre : list Entry) :
  NoDup (file <$> (pre ++ entries)) ->
  complete_running now entries (pre ++ entries)
  = (Some (complete_one now <$> entries),
     pre ++ (complete_one now <$> entries)).
Proof.
  revert pre. induction entries as [|e rest IH]; intros pre Hnd; [done|].
  assert (Hpre : file e ∉ file <$> pre).
  { rewrite fmap_app, fmap_cons in Hnd. apply NoDup_app in Hnd as (_ & Hd & _).
    intros Hin. apply (Hd _ Hin). by left. }
  assert (Hstep : forall e', file e' = file e ->
            NoDup (file <$> ((pre ++ [e']) ++ rest))).
  { intros e' He'. rewrite <- app_assoc. simpl.
    rewrite fmap_app, fmap_cons, He'. by rewrite fmap_app, fmap_cons in Hnd. }
  simpl. rewrite bind_run. unfold complete_one at 1 3.
  destruct (due now (job e)).
  - rewrite bind_modify. rewrite save_job_app by done.
    rewrite ret_run, bind_run.
    replace (pre ++ {| job := set_completed now (job e); file := file e |} :: rest)
      with ((pre ++ [{| job := set_completed now (job e); file := file e |}])
              ++ rest) by (by rewrite <- app_assoc).
    rewrite IH by (by apply Hstep). by rewrite <- app_assoc.
  - rewrite ret_run, bind_run.
    replace (pre ++ e :: rest) with ((pre ++ [e]) ++ rest)
      by (by rewrite <- app_assoc).
    rewrite IH by (by apply Hstep). by rewrite <- app_assoc.
Qed.

Lemma start_pending_run (now : Q) (pending : list Entry) (slots : Z)
    (disk : list Entry) :
  start_pending now slots pending disk
  = (Some tt, start_all now (take (Z.to_nat slots) pending) disk).
Proof.
  revert slots disk. induction pending as [|e rest IH]; intros slots disk.
  - by rewrite take_nil.
  - simpl. destruct (slots <=? 0)%Z eqn:E.
    + apply Z.leb_le in E. by replace (Z.to_nat slots) with 0 by lia.
    + apply Z.leb_gt in E.
      replace (Z.to_nat slots) with (S (Z.to_nat (slots - 1))) by lia.
      rewrite bind_modify, IH. reflexivity.
Qed.

(** What the scoring of step 3 gives, entry by entry. *)
Lemma score_pending_lookup (clock : nat -> Q) (k : nat)
    (pending : list Entry) (all_jobs : list Job) (scored : list Entry) :
  score_pending clock k pending all_jobs = Some scored ->
  length scored = length pending
  /\ forall i e,
       pending !! i = Some e ->
       exists p,
         compute_priority (clock (k + i)) (job e) all_jobs = Some p
         /\ scored !! i
            = Some {| job := set_priority_score p (job e); file := file e |}.
Proof.
  revert k scored. induction pending as [|e rest IH]; intros k scored.
  - intros [= <-]. split; [done|]. intros i e H. by rewrite lookup_nil in H.
  - cbn [score_pending].
    destruct (compute_priority (clock k) (job e) all_jobs) as [p|] eqn:Ep;
      [|done].
    cbn [mbind option_bind].
    destruct (score_pending clock (S k) rest all_jobs) as [rest'|] eqn:Er;
      [|done].
    cbn [mbind option_bind]. intros [= <-].
    destruct (IH _ _ Er) as [Hlen Hall]. split; [simpl; by rewrite Hlen|].
    intros [|i] e' He'.
    + injection He' as <-. exists p. by rewrite Nat.add_0_r.
    + destruct (Hall i e' He') as (p' & Hp' & Hs).
      exists p'. split; [|done].
      by replace (k + S i) with (S k + i) by lia.
Qed.

Lemma score_pending_spec (clock : nat -> Q) (k : nat)
    (pending : list Entry) (all_jobs : list Job) (scored : list Entry)
    (s : Entry) :
  score_pending clock k pending all_jobs = Some scored ->
  s ∈ scored ->
  exists e p, e ∈ pending
              /\ s = {| job := set_priority_score p (job e); file := file e |}.
Proof.
  revert k scored. induction pending as [|e rest IH]; intros k scored.
  - intros [= <-] Hs. by apply elem_of_nil in Hs.
  - cbn [score_pending].
    destruct (compute_priority (clock k) (job e) all_jobs) as [p|]; [|done].
    cbn [mbind option_bind].
    destruct (score_pending clock (S k) rest all_jobs) as [rest'|] eqn:Er;
      [|done].
    cbn [mbind option_bind]. intros [= <-] Hs.
    apply elem_of_cons in Hs as [->|Hs].
    + exists e, p. split; [by left | done].
    + destruct (IH _ _ Er Hs) as (e' & p' & He' & ->).
      exists e', p'. split; [by right | done].
Qed.

Lemma score_pending_files (clock : nat -> Q) (k : nat)
    (pending : list Entry) (all_jobs : list Job) (scored : list Entry) :
  score_pending clock k pending all_jobs = Some scored ->
  file <$> scored = file <$> pending.
Proof.
  revert k scored. induction pending as [|e rest IH]; intros k scored.
  - by intros [= <-].
  - cbn [score_pending].
    destruct (compute_priority (clock k) (job e) all_jobs) as [p|]; [|done].
    cbn [mbind option_bind].
    destruct (score_pending clock (S k) rest all_jobs) as [rest'|] eqn:Er;
      [|done].
    cbn [mbind option_bind]. intros [= <-].
    rewrite !fmap_cons. f_equal. by eapply IH.
Qed.

(** [process_jobs] leaves [pass_result], whether it returns or raises. *)
Lemma process_jobs_run (now : Q) (clock : nat -> Q) (disk : list Entry) :
  NoDup (file <$> disk) ->
  process_jobs now clock disk
  = (if pass_returns now clock disk then Some tt else None,
     pass_result now clock disk).
Proof.
  intros Hnd. unfold process_jobs, pass_result, pass_returns. rewrite bind_get.
  destruct disk as [|e disk]; [done|].
  rewrite bind_run.
  pose proof (complete_running_run now (e :: disk) [] Hnd) as Hrun.
  change ([] ++ e :: disk) with (e :: disk) in Hrun. rewrite Hrun.
  change ([] ++ (complete_one now <$> e :: disk))
    with (complete_one now <$> e :: disk).
  fold (count_running (complete_one now <$> e :: disk)).
  destruct (_ <=? 0)%Z; [done|].
  rewrite bind_lift_option. unfold sorted_pending.
  fold (scored_pending clock (complete_one now <$> e :: disk)).
  destruct (scored_pending clock (complete_one now <$> e :: disk))
    as [scored|]; simpl.
  - by rewrite start_pending_run.
  - by rewrite take_nil.
Qed.

Lemma process_jobs_returns (now : Q) (clock : nat -> Q) (disk : list Entry) :
  NoDup (file <$> disk) ->
  fst (process_jobs now clock disk) = Some tt ->
  pass_returns now clock disk = true.
Proof.
  intros Hnd. rewrite process_jobs_run by done. simpl.
  by destruct (pass_returns now clock disk).
Qed.

Lemma count_running_cons (e : Entry) (l : list Entry) :
  count_running (e :: l)
  = (if decide (status (job e) = "RUNNING") then 1 else 0) + count_running l.
Proof.
  unfold count_running. rewrite filter_cons.
  by destruct (decide (status (job e) = "RUNNING")).
Qed.

Lemma count_running_save (j : Job) (f : string) (disk : list Entry) :
  count_running (save_job j f disk) <= S (count_running disk).
Proof.
  induction disk as [|e disk IH]; simpl.
  - rewrite count_running_cons. destruct (decide _); simpl; lia.
  - destruct (decide (file e = f)).
    + rewrite !count_running_cons. repeat destruct (decide _); simpl; lia.
    + rewrite !count_running_cons. lia.
Qed.

Lemma count_running_start_all (now : Q) (started disk : list Entry) :
  count_running (start_all now started disk)
  <= count_running disk + length started.
Proof.
  revert disk. induction started as [|e started IH]; intros disk; simpl.
  - unfold start_all. simpl. lia.
  - unfold start_all in *. simpl. etrans; [apply IH|].
    pose proof (count_running_save (set_running now (job e)) (file e) disk).
    lia.
Qed.

Lemma count_running_complete (now : Q) (l : list Entry) :
  count_running (complete_one now <$> l) <= count_running l.
Proof.
  induction l as [|e l IH]; [done|].
  rewrite fmap_cons, !count_running_cons.
  destruct (decide (status (job (complete_one now e)) = "RUNNING")) as [H|H];
    destruct (decide (status (job e) = "RUNNING")) as [H'|H']; simpl; try lia.
  exfalso. unfold complete_one in H. by destruct (due now (job e)).
Qed.

(** A pass never leaves more than [MAX_CONCURRENT] RUNNING jobs if it
    did not find more. *)
Lemma pass_result_cap (now : Q) (clock : nat -> Q) (disk : list Entry) :
  (Z.of_nat (count_running disk) <= MAX_CONCURRENT)%Z ->
  (Z.of_nat (count_running (pass_result now clock disk)) <= MAX_CONCURRENT)%Z.
Proof.
  intros Hcap. unfold pass_result.
  pose proof (count_running_complete now disk) as Hc.
  set (entries := complete_one now <$> disk) in *.
  destruct (_ <=? 0)%Z eqn:E; [lia|].
  apply Z.leb_gt in E.
  pose proof (count_running_start_all now
                (take (Z.to_nat (MAX_CONCURRENT - Z.of_nat (count_running entries)))
                   (sorted_pending clock entries)) entries) as Hs.
  rewrite length_take in Hs. lia.
Qed.

End Daemon.

(** ** Admission order *)

(** C2 as stated fails on [GpuScheduler]: the pass picks J1, finds no
    GPU for it and ends; J2 is not tried although the GPU would take it. *)
Lemma head_of_line_blocking :
  let st' := exec (Scheduler.run_pass None (fun _ => 2%Q) 2 (Some 4242%Z))
               blocked_state in
  picked (fun _ => 2%Q) blocked_state = Some "J1"
  /\ status_of "J1" st' = Some "QUEUED"
  /\ status_of "J2" st' = Some "QUEUED"
  /\ fst (Scheduler.find_available_gpu (GpuMonitor.list_gpus None)
            (1024 ^ 3) st') = Some (Some 0%Z).
Proof. repeat split; vm_compute; reflexivity. Qed.

(** C2, as the code has it.  A pass of [GpuScheduler] considers one
    candidate only.  [_pick_next_job] stores in every QUEUED job the
    priority [_calculate_slurm_priority] computes for it in this pass
    and returns the job with the highest of these scores (the head of
    the candidates sorted by descending score).  A pass changes the
    status of no job but that one, and that one only to RUNNING, so it
    admits at most one job; and when no GPU is found for that job the
    pass ends with nothing admitted.  A pass of the daemon
    ([process_jobs]) sorts the scored pending jobs by descending score
    and starts them in that order, without any GPU check, until the
    free slots are used up or the list ends; when the scoring raises,
    slots being free, the pass ends with no job started. *)
Theorem single_candidate_pass :
  (forall (st : Scheduler.State) nvml clock now spawn (r' : string),
      let st' := exec (Scheduler.run_pass nvml clock now spawn) st in
      status_of r' st' = status_of r' st
      \/ (picked clock st = Some r' /\ status_of r' st' = Some "RUNNING"))
  /\ (forall (st : Scheduler.State) clock (r : string),
         NoDup (Scheduler.id <$> Scheduler.jobs st) ->
         picked clock st = Some r ->
         let st1 := exec (Scheduler.pick_next_job clock) st in
         (exists job,
             Scheduler.get_job r (Scheduler.jobs st1) = Some job
             /\ Scheduler.status job = "QUEUED"
             /\ forall r' job',
                 Scheduler.get_job r' (Scheduler.jobs st1) = Some job' ->
                 Scheduler.status job' = "QUEUED" ->
                 (Scheduler.priority_score job'
                  <= Scheduler.priority_score job)%Q)
         /\ forall i j,
             filter (fun j => Scheduler.status j = "QUEUED") (Scheduler.jobs st)
               !! i = Some j ->
             exists p dbg,
               Scheduler.slurm_priority (Scheduler.config st)
                 (Scheduler.usage st) (clock i) j = Some p
               /\ Scheduler.get_job (Scheduler.id j) (Scheduler.jobs st1)
                  = Some (Scheduler.set_priority_score p
                            (Scheduler.set_debug_factors dbg j)))
  /\ (forall (st : Scheduler.State) nvml clock now spawn (r : string) job,
         picked clock st = Some r ->
         let st1 := exec (Scheduler.pick_next_job clock) st in
         Scheduler.get_job r (Scheduler.jobs st1) = Some job ->
         Scheduler.scan_gpus (GpuMonitor.list_gpus nvml)
           (filter (fun j => Scheduler.status j = "RUNNING") (Scheduler.jobs st1))
           (Scheduler.vram_required job) = None ->
         Scheduler.run_pass nvml clock now spawn st = (Some tt, st1))
  /\ (forall now clock (disk : list JobManager.Entry),
         NoDup (JobManager.file <$> disk) ->
         let entries := complete_one now <$> disk in
         let slots :=
           (JobManager.MAX_CONCURRENT - Z.of_nat (count_running entries))%Z in
         let pending := sorted_pending clock entries in
         StronglySorted
           (desc (fun e => JobManager.priority_score (JobManager.job e))) pending
         /\ (forall scored,
                scored_pending clock entries = Some scored ->
                pending ≡ₚ scored
                /\ (forall i e,
                       filter (fun e => JobManager.status (JobManager.job e)
                                        = "PENDING") entries !! i = Some e ->
                       exists p,
                         JobManager.compute_priority (clock i)
                           (JobManager.job e) (JobManager.job <$> entries)
                         = Some p
                         /\ scored !! i
                            = Some {| JobManager.job :=
                                        JobManager.set_priority_score p
                                          (JobManager.job e);
                                      JobManager.file := JobManager.file e |})
                /\ JobManager.process_jobs now clock disk
                   = (Some tt,
                      if (slots <=? 0)%Z then entries
                      else start_all now (take (Z.to_nat slots) pending)
                             entries))
         /\ (scored_pending clock entries = None ->
             (0 < slots)%Z ->
             JobManager.process_jobs now clock disk = (None, entries))).
Proof.
  split; [|split; [|split]].
  - intros st nvml clock now spawn r'. apply run_pass_status.
  - intros st clock r Hnd Hpick. split.
    + by apply picked_is_best.
    + by apply (pick_next_job_scores clock st r).
  - intros st nvml clock now spawn r job Hpick st1 Hjob Hscan.
    by apply (run_pass_blocked nvml clock now spawn st r job).
  - intros now clock disk Hnd entries slots pending. split; [|split].
    + apply sort_desc_sorted.
    + intros scored Hscored. split; [|split].
      * unfold pending, sorted_pending. rewrite Hscored. apply sort_desc_perm.
      * intros i e Hi.
        destruct (score_pending_lookup _ _ _ _ _ Hscored) as [_ Hall].
        apply (Hall i e Hi).
      * rewrite process_jobs_run by done. unfold pass_returns, pass_result.
        fold entries slots. rewrite Hscored.
        by rewrite orb_true_r.
    + intros Hnone Hslots. rewrite process_jobs_run by done.
      unfold pass_returns, pass_result. fold entries slots.
      unfold sorted_pending. rewrite Hnone.
      destruct (slots <=? 0)%Z eqn:E; [apply Z.leb_le in E; lia|].
      simpl. by rewrite take_nil.
Qed.

(** ** The concurrency cap of the daemon *)

Section DaemonCap.
Import JobManager.

Lemma save_job_files (j : Job) (f : string) (disk : list Entry) :
  f ∈ file <$> disk -> file <$> save_job j f disk = file <$> disk.
Proof.
  induction disk as [|e disk IH]; intros Hin.
  - by apply elem_of_nil in Hin.
  - cbn [save_job]. destruct (decide (file e = f)) as [E|E].
    + rewrite !fmap_cons. simpl. by rewrite E.
    + rewrite !fmap_cons. f_equal. apply IH.
      rewrite fmap_cons in Hin. apply elem_of_cons in Hin as [Hin|Hin];
        [congruence | done].
Qed.

Lemma start_all_files (now : Q) (started disk : list Entry) :
  (forall e, e ∈ started -> file e ∈ file <$> disk) ->
  file <$> start_all now started disk = file <$> disk.
Proof.
  revert disk. induction started as [|e started IH]; intros disk Hin; [done|].
  unfold start_all in *. simpl.
  assert (He : file e ∈ file <$> disk) by (apply Hin; by left).
  rewrite IH.
  - by apply save_job_files.
  - intros e' He'. rewrite save_job_files by done. apply Hin. by right.
Qed.

Lemma complete_one_files (now : Q) (l : list Entry) :
  file <$> (complete_one now <$> l) = file <$> l.
Proof.
  rewrite <- list_fmap_compose. apply list_fmap_ext. intros _ e _.
  simpl. unfold complete_one. by destruct (due now (job e)).
Qed.

Lemma sorted_pending_files (clock : nat -> Q) (entries : list Entry) (e : Entry) :
  e ∈ sorted_pending clock entries -> file e ∈ file <$> entries.
Proof.
  unfold sorted_pending, scored_pending. rewrite sort_desc_perm. intros He.
  destruct (score_pending _ _ _ _) as [scored|] eqn:E; simpl in He;
    [|by apply elem_of_nil in He].
  destruct (score_pending_spec _ _ _ _ _ _ E He) as (e0 & p & Hi & ->). simpl.
  apply list_elem_of_filter in Hi as [_ Hi].
  by apply list_elem_of_fmap_2.
Qed.

Lemma pass_result_files (now : Q) (clock : nat -> Q) (disk : list Entry) :
  file <$> pass_result now clock disk = file <$> disk.
Proof.
  unfold pass_result. destruct (_ <=? 0)%Z.
  - apply complete_one_files.
  - rewrite start_all_files; [apply complete_one_files|].
    intros e He. apply subseteq_take in He.
    by apply sorted_pending_files in He.
Qed.

Lemma daemon_reachable_inv (disk : list Entry) :
  daemon_reachable disk ->
  NoDup (file <$> disk)
  /\ (Z.of_nat (count_running disk) <= MAX_CONCURRENT)%Z.
Proof.
  induction 1 as [disk Hnd Hcap | disk e _ [Hnd Hcap] Hfresh Hpending
                 | disk now clock _ [Hnd Hcap]].
  - done.
  - split.
    + rewrite fmap_app. apply NoDup_app. split; [done|]. split.
      * intros f Hf Hin. simpl in Hin. apply list_elem_of_singleton in Hin.
        congruence.
      * apply NoDup_singleton.
    + unfold count_running in *. rewrite filter_app, length_app.
      rewrite filter_cons, decide_False by (rewrite Hpending; discriminate).
      simpl. lia.
  - unfold exec. rewrite process_jobs_run by done. simpl. split.
    + by rewrite pass_result_files.
    + by apply pass_result_cap.
Qed.

End DaemonCap.

(** ** GpuScheduler on the synthetic GPU *)

Section VirtualGpu.
Import Dirs GpuMonitor Scheduler.

Lemma running_count_cons (j : Job) (l : list Job) :
  running_count (j :: l)
  = (if decide (status j = "RUNNING") then 1 else 0) + running_count l.
Proof.
  unfold running_count. rewrite filter_cons.
  by destruct (decide (status j = "RUNNING")).
Qed.

Lemma running_count_fmap (G : Job -> Job) (l : list Job) :
  (forall j, status (G j) = status j) ->
  running_count (G <$> l) = running_count l.
Proof.
  intros HG. induction l as [|j l IH]; [done|].
  by rewrite fmap_cons, !running_count_cons, HG, IH.
Qed.

Lemma ids_fmap (G : Job -> Job) (l : list Job) :
  (forall j, id (G j) = id j) -> id <$> (G <$> l) = id <$> l.
Proof.
  intros HG. rewrite <- list_fmap_compose. apply list_fmap_ext.
  intros _ j _. apply HG.
Qed.

Lemma ids_amap (r : string) (F : Job -> Job) (l : list Job) :
  (forall j, id (F j) = id j) -> id <$> amap r F l = id <$> l.
Proof.
  intros HF. apply ids_fmap. intros j. by destruct (decide (id j = r)).
Qed.

Lemma amap_notin (r : string) (F : Job -> Job) (l : list Job) :
  r ∉ id <$> l -> amap r F l = l.
Proof.
  unfold amap. induction l as [|j l IH]; intros Hnotin; [done|].
  rewrite fmap_cons in Hnotin. apply not_elem_of_cons in Hnotin as [Hne Hnotin].
  rewrite fmap_cons, IH by done. by rewrite decide_False.
Qed.

Lemma running_count_amap (r : string) (F : Job -> Job) (l : list Job) :
  NoDup (id <$> l) -> running_count (amap r F l) <= S (running_count l).
Proof.
  induction l as [|j l IH]; intros Hnd; [simpl; lia|].
  rewrite fmap_cons in Hnd. apply NoDup_cons in Hnd as [Hnotin Hnd].
  unfold amap in *. rewrite fmap_cons.
  destruct (decide (id j = r)) as [E|E].
  - rewrite E in Hnotin. pose proof (amap_notin r F l Hnotin) as Hsame.
    unfold amap in Hsame. rewrite Hsame, !running_count_cons.
    repeat destruct (decide _); simpl; lia.
  - specialize (IH Hnd). rewrite !running_count_cons. lia.
Qed.

Lemma running_count_amap_done (r s : string) (F : Job -> Job) (l : list Job) :
  s <> "RUNNING" ->
  (forall j, status (F j) = status j) \/ (forall j, status (F j) = s) ->
  running_count (amap r F l) <= running_count l.
Proof.
  intros Hs HF. unfold amap. induction l as [|j l IH]; [done|].
  rewrite fmap_cons, !running_count_cons.
  destruct (decide (id j = r)) as [E|E]; [|lia].
  destruct HF as [HF|HF]; rewrite HF.
  - lia.
  - rewrite decide_False by done. lia.
Qed.

Lemma store_set_ids (j : Job) (l : list Job) :
  NoDup (id <$> l) -> NoDup (id <$> store_set j l).
Proof.
  induction l as [|j' l IH]; intros Hnd.
  - simpl. apply NoDup_singleton.
  - cbn [store_set]. rewrite fmap_cons in Hnd.
    apply NoDup_cons in Hnd as [Hnotin Hnd].
    destruct (decide (id j' = id j)) as [E|E]; rewrite fmap_cons.
    + rewrite <- E. by apply NoDup_cons.
    + apply NoDup_cons. split; [|by apply IH].
      intros Hin. apply Hnotin.
      clear -Hin E. induction l as [|j'' l IH]; simpl in *.
      * apply list_elem_of_singleton in Hin. congruence.
      * destruct (decide (id j'' = id j)) as [E'|E']; rewrite fmap_cons in *.
        -- apply elem_of_cons in Hin as [Hin|Hin]; [congruence|].
           by right.
        -- apply elem_of_cons in Hin as [Hin|Hin]; [rewrite Hin; by left|].
           right. by apply IH.
Qed.

Lemma store_set_count (j : Job) (l : list Job) :
  status j <> "RUNNING" -> running_count (store_set j l) <= running_count l.
Proof.
  intros Hj. induction l as [|j' l IH]; cbn [store_set].
  - rewrite running_count_cons, decide_False by done. simpl. lia.
  - destruct (decide (id j' = id j)); rewrite !running_count_cons.
    + rewrite decide_False by done. lia.
    + lia.
Qed.

(** The synthetic GPU is handed out only while no job is RUNNING. *)
Lemma scan_virtual_gpu (running_jobs : list Job) (vram g : Z) :
  scan_gpus [virtual_gpu] running_jobs vram = Some g -> running_jobs = [].
Proof.
  destruct running_jobs as [|j l]; [done|]. simpl. discriminate.
Qed.

Lemma launch_job_cases (metrics : list GpuMetrics) (now : Q)
    (spawn : option Z) (r : string) (st : State) :
  exec (launch_job metrics now spawn r) st = st
  \/ exists job gpu,
      get_job r (jobs st) = Some job
      /\ scan_gpus metrics
           (filter (fun j => status j = "RUNNING") (jobs st))
           (vram_required job) = Some gpu.
Proof.
  unfold exec, launch_job. rewrite bind_deref.
  destruct (get_job r (jobs st)) as [job|] eqn:Hjob; [|by left].
  unfold find_available_gpu. rewrite bind_run, bind_get. simpl.
  destruct (scan_gpus _ _ _) as [gpu|] eqn:Hscan; [|by left].
  right. by exists job, gpu.
Qed.

Lemma submit_job_jobs src user vram part q job_id now (st : State) :
  jobs (exec (submit_job src user vram part q job_id now) st) = jobs st
  \/ exists dst,
      jobs (exec (submit_job src user vram part q job_id now) st)
      = store_set (new_job job_id dst user vram part q now) (jobs st).
Proof.
  unfold exec, submit_job. rewrite bind_get, bind_on_fs.
  destruct (safe_rename _ _ _ _) as [[dst|] disk]; [|by left].
  rewrite bind_modify. right. by exists dst.
Qed.

End VirtualGpu.

Section RunningCap.
Import Dirs GpuMonitor Scheduler.

Lemma rescored_one_running (st st' : State) :
  rescored st st' -> one_running st -> one_running st'.
Proof.
  intros (G & HG & E) [Hnd Hcount]. unfold one_running. rewrite E. split.
  - rewrite ids_fmap; [done|]. intros j. apply HG.
  - rewrite running_count_fmap; [done|]. intros j. apply HG.
Qed.

Lemma run_pass_one_running clock now spawn (st : State) :
  one_running st -> one_running (exec (run_pass None clock now spawn) st).
Proof.
  intros Hinv. unfold exec. rewrite run_pass_cases.
  pose proof (pick_next_job_rescored clock st) as Hres. unfold exec in Hres.
  destruct (pick_next_job clock st) as [[[r|]|] st1];
    cbv beta iota; cbn [snd] in *;
    try (by eapply rescored_one_running).
  apply (rescored_one_running _ _ Hres) in Hinv as [Hnd Hcount].
  destruct (launch_job_cases (list_gpus None) now spawn r st1)
    as [Hsame|(job & gpu & Hjob & Hscan)].
  - unfold exec in Hsame. by rewrite Hsame.
  - apply scan_virtual_gpu in Hscan.
    destruct (launch_job_touched (list_gpus None) now spawn r st1)
      as (F & HF & E & _).
    unfold exec in E. unfold one_running. rewrite E. split.
    + by rewrite ids_amap.
    + etrans; [by apply running_count_amap|].
      unfold running_count. by rewrite Hscan.
Qed.

Lemma virtual_step_one_running (st st' : State) :
  virtual_step st st' -> one_running st -> one_running st'.
Proof.
  intros Hstep [Hnd Hcount].
  destruct Hstep as [st | st | st src user vram part q job_id now
                    | st clock now spawn _ _ | st pre t post rc now _].
  - done.
  - done.
  - unfold one_running.
    destruct (submit_job_jobs src user vram part q job_id now st)
      as [->|[dst ->]]; [done|].
    split; [by apply store_set_ids|].
    etrans; [by apply store_set_count|]. done.
  - pose proof (run_pass_one_running clock now spawn st (conj Hnd Hcount)) as H.
    unfold loop_iteration, exec in *.
    by destruct (run_pass None clock now spawn st) as [[[]|] st'].
  - destruct (wait_and_finalize_touched t rc now (set_tasks (pre ++ post) st))
      as (F & HF & E & HS).
    unfold one_running. rewrite E. simpl. split.
    + by rewrite ids_amap.
    + etrans; [|exact Hcount].
      apply (running_count_amap_done _ (final_status rc)); [|done].
      unfold final_status. by destruct (decide (rc = 0%Z)).
Qed.

Lemma virtual_reachable_one_running (st : State) :
  virtual_reachable st -> one_running st.
Proof.
  induction 1 as [root_dir disk disk' st Hinit | st st' _ IH Hstep].
  - apply init_Some in Hinit as (Hjobs & _).
    unfold one_running. rewrite Hjobs. split; [apply NoDup_nil_2 | unfold running_count; simpl; lia].
  - by eapply virtual_step_one_running.
Qed.

End RunningCap.

(** ** The cap on RUNNING jobs *)

(** C1 as stated fails on [GpuScheduler], which has no MaxConcurrent
    setting: three jobs are RUNNING at once, more than the cap of 2. *)
Lemma three_jobs_running_at_once :
  (fun st => running_count (Scheduler.jobs st)) <$> three_passes = Some 3
  /\ JobManager.MAX_CONCURRENT = 2%Z.
Proof. split; vm_compute; reflexivity. Qed.

(** C1, as the code has it.  In the daemon the number of RUNNING jobs
    never exceeds [MAX_CONCURRENT] = 2 in any state reached from one
    that respects the cap, and a pass that finds [MAX_CONCURRENT] jobs
    or more RUNNING after its completion step returns with no job
    promoted.  [GpuScheduler] has no MaxConcurrent setting; the bound
    it keeps is the one of the synthetic GPU: on a host without NVML,
    where that GPU is the only device, at most one job is RUNNING in
    every reachable state. *)
Theorem running_jobs_cap :
  JobManager.MAX_CONCURRENT = 2%Z
  /\ (forall disk,
         daemon_reachable disk ->
         (Z.of_nat (count_running disk) <= JobManager.MAX_CONCURRENT)%Z)
  /\ (forall now clock (disk : list JobManager.Entry),
         NoDup (JobManager.file <$> disk) ->
         (JobManager.MAX_CONCURRENT
          <= Z.of_nat (count_running (complete_one now <$> disk)))%Z ->
         JobManager.process_jobs now clock disk
         = (Some tt, complete_one now <$> disk))
  /\ (forall st,
         virtual_reachable st -> running_count (Scheduler.jobs st) <= 1).
Proof.
  split; [done|]. split; [|split].
  - intros disk H. by apply daemon_reachable_inv in H as [_ H].
  - intros now clock disk Hnd Hfull. rewrite process_jobs_run by done.
    unfold pass_result, pass_returns.
    destruct (_ <=? 0)%Z eqn:E; [done|]. apply Z.leb_gt in E. lia.
  - intros st H. by apply virtual_reachable_one_running in H as [_ H].
Qed.

Lemma running_jobs_cap_witness :
  (Z.of_nat (count_running
               (exec (JobManager.process_jobs 60 (fun _ => 60%Q)) three_pending))
   <= JobManager.MAX_CONCURRENT)%Z
  /\ count_running
       (exec (JobManager.process_jobs 60 (fun _ => 60%Q)) three_pending) = 2
  /\ running_count
       (Scheduler.jobs
          (Scheduler.loop_iteration None (fun _ => 10%Q) 10 (Some 4242%Z)
             (exec (Scheduler.submit_job ["uploads"; "j1.py"] "alice"
                      (1024 ^ 3) "normal" "standard" "J1" 0)
                (Scheduler.set_loop_alive true fresh_state)))) <= 1.
Proof.
  split; [|split].
  - apply (proj1 (proj2 running_jobs_cap)).
    apply reach_pass, reach_start.
    + apply (bool_decide_unpack _). vm_compute. exact I.
    + vm_compute. discriminate.
  - vm_compute. reflexivity.
  - apply (proj2 (proj2 (proj2 running_jobs_cap))).
    eapply reach_step; [eapply reach_step|].
    + eapply (reach_step fresh_state).
      * eapply (reach_init ["work"] uploads).
        apply run_Some. apply init_fresh_state.
      * apply step_start.
    + apply (step_submit _ ["uploads"; "j1.py"] "alice" (1024 ^ 3)
               "normal" "standard" "J1" 0).
    + by apply step_pass.
Defined.

Lemma single_candidate_pass_witness :
  Scheduler.run_pass None (fun _ => 2%Q) 2 (Some 4242%Z) blocked_state
  = (Some tt, exec (Scheduler.pick_next_job (fun _ => 2%Q)) blocked_state).
Proof.
  apply (proj1 (proj2 (proj2 single_candidate_pass))
           blocked_state None (fun _ => 2%Q) 2%Q (Some 4242%Z) "J1" blocked_job).
  - vm_compute. reflexivity.
  - vm_compute. reflexivity.
  - vm_compute. reflexivity.
Defined.

(** * Further properties *)

(** ** The ledger total *)

Section LedgerTotal.
Import Scheduler.







End LedgerTotal.


(** ** The job store and the range of the score *)

Section StoreRoundTrip.
Import Dirs Scheduler.

Lemma get_job_store_set_ne (r : string) (j : Job) (l : list Job) :
  r <> id j -> get_job r (store_set j l) = get_job r l.
Proof.
  intros Hne. unfold get_job. induction l as [|j' l IH]; simpl.
  - by rewrite bool_decide_false by congruence.
  - destruct (decide (id j' = id j)) as [E|E]; simpl.
    + by rewrite !bool_decide_false by congruence.
    + by rewrite IH.
Qed.

Lemma store_set_known (j : Job) (l : list Job) :
  id j ∈ id <$> l -> id <$> store_set j l = id <$> l.
Proof.
  induction l as [|j' l IH]; intros Hin.
  - by apply elem_of_nil in Hin.
  - cbn [store_set]. rewrite fmap_cons in Hin.
    destruct (decide (id j' = id j)) as [E|E]; rewrite !fmap_cons.
    + by rewrite E.
    + f_equal. apply IH. apply elem_of_cons in Hin as [Hin|Hin]; [congruence|done].
Qed.

Lemma store_set_new (j : Job) (l : list Job) :
  id j ∉ id <$> l -> store_set j l = l ++ [j].
Proof.
  induction l as [|j' l IH]; intros Hnotin; [done|].
  cbn [store_set]. rewrite fmap_cons in Hnotin.
  apply not_elem_of_cons in Hnotin as [Hne Hnotin].
  rewrite decide_False by congruence. simpl. by rewrite IH.
Qed.

Lemma get_job_None (r : string) (l : list Job) :
  get_job r l = None <-> r ∉ id <$> l.
Proof.
  induction l as [|j l IH].
  - split; [intros _; apply not_elem_of_nil | done].
  - rewrite fmap_cons, not_elem_of_cons. unfold get_job in *. cbn [List.find].
    destruct (bool_decide (id j = r)) eqn:E.
    + apply bool_decide_eq_true in E. split; [done|]. intros [Hne _]. congruence.
    + apply bool_decide_eq_false in E. rewrite IH. split; [|tauto].
      intros H. split; [congruence | done].
Qed.

(** X2.  The job store is a dictionary in insertion order: a job stored
    under its id is the one [get_job] returns, the other ids are not
    affected, an unknown id gives [None]; storing under a known id
    keeps the order of the listing and its length, storing under a new
    one appends to it. *)
Theorem job_store_round_trip :
  (forall j l, get_job (id j) (add_job j l) = Some j)
  /\ (forall j l, get_job (id j) (update_job j l) = Some j)
  /\ (forall r j l, r <> id j -> get_job r (add_job j l) = get_job r l)
  /\ (forall r l, get_job r l = None <-> r ∉ id <$> list_jobs l)
  /\ (forall j l, id j ∈ id <$> list_jobs l ->
                  id <$> list_jobs (update_job j l) = id <$> list_jobs l)
  /\ (forall j l, id j ∉ id <$> list_jobs l ->
                  list_jobs (add_job j l) = list_jobs l ++ [j])
  /\ (forall j l, NoDup (id <$> list_jobs l) ->
                  NoDup (id <$> list_jobs (add_job j l))).
Proof.
  split; [apply get_job_store_set|]. split; [apply get_job_store_set|].
  split; [apply get_job_store_set_ne|]. split; [apply get_job_None|].
  split; [apply store_set_known|]. split; [apply store_set_new|].
  apply store_set_ids.
Qed.

End StoreRoundTrip.

Section PriorityShape.
Import Dirs Scheduler.

Lemma Qmult_le_compat_l_nonneg (w a b : Q) :
  (0 <= w)%Q -> (a <= b)%Q -> (w * a <= w * b)%Q.
Proof.
  intros Hw Hab. rewrite !(Qmult_comm w). by apply Qmult_le_compat_r.
Qed.

Lemma weighted_sum_bounds (cfg : SlurmConfig) (age fsf size part q : Q) :
  (0 <= weight_age cfg)%Q -> (0 <= weight_fairshare cfg)%Q ->
  (0 <= weight_job_size cfg)%Q -> (0 <= weight_partition cfg)%Q ->
  (0 <= weight_qos cfg)%Q ->
  (0 <= age <= 1)%Q -> (0 <= fsf <= 1)%Q -> (0 <= size <= 1)%Q ->
  (0 <= part <= 1)%Q -> (0 <= q <= 1)%Q ->
  (0 <= weighted_sum cfg age fsf size part q
   <= weight_age cfg + weight_fairshare cfg + weight_job_size cfg
      + weight_partition cfg + weight_qos cfg)%Q.
Proof.
  intros Ha Hf Hs Hp Hq [Ha0 Ha1] [Hf0 Hf1] [Hs0 Hs1] [Hp0 Hp1] [Hq0 Hq1].
  unfold weighted_sum.
  pose proof (Qmult_le_compat_l_nonneg _ _ _ Ha Ha0).
  pose proof (Qmult_le_compat_l_nonneg _ _ _ Ha Ha1).
  pose proof (Qmult_le_compat_l_nonneg _ _ _ Hf Hf0).
  pose proof (Qmult_le_compat_l_nonneg _ _ _ Hf Hf1).
  pose proof (Qmult_le_compat_l_nonneg _ _ _ Hs Hs0).
  pose proof (Qmult_le_compat_l_nonneg _ _ _ Hs Hs1).
  pose proof (Qmult_le_compat_l_nonneg _ _ _ Hp Hp0).
  pose proof (Qmult_le_compat_l_nonneg _ _ _ Hp Hp1).
  pose proof (Qmult_le_compat_l_nonneg _ _ _ Hq Hq0).
  pose proof (Qmult_le_compat_l_nonneg _ _ _ Hq Hq1).
  lra.
Qed.

(** X3.  When no weight is negative and the table entries lie in [0,1],
    the score of a job lies between 0 and the sum of the five weights
    (13500 for [SlurmConfig()]), provided the ledger entry of its user
    and its VRAM request are not negative, the request is small enough
    for its quotient by [max_vram_ref] to fit a float
    ([vram_required < (2^1024 - 2^970) * max_vram_ref]), and the job is
    not scored before its creation. *)
Theorem priority_within_weights (st : State) (r : string) (job : Job) (now : Q) :
  (0 <= weight_age (config st))%Q ->
  (0 <= weight_fairshare (config st))%Q ->
  (0 <= weight_job_size (config st))%Q ->
  (0 <= weight_partition (config st))%Q ->
  (0 <= weight_qos (config st))%Q ->
  (0 < fairshare_decay_norm (config st))%Q ->
  (forall k v, partitions (config st) !! k = Some v -> (0 <= v <= 1)%Q) ->
  (forall k v, qos_levels (config st) !! k = Some v -> (0 <= v <= 1)%Q) ->
  get_job r (jobs st) = Some job ->
  (0 <= get_usage (user_id job) (usage st))%Q ->
  (created_at job <= now)%Q ->
  (0 <= vram_required job < float_overflow_bound * max_vram_ref)%Z ->
  exists p st',
    calculate_slurm_priority now r st = (Some p, st')
    /\ (0 <= p <= weight_age (config st) + weight_fairshare (config st)
                  + weight_job_size (config st) + weight_partition (config st)
                  + weight_qos (config st))%Q.
Proof.
  intros Ha Hf Hs Hp Hq Hnorm Hparts Hqos Hjob Hu Hnow [Hvram Hfit].
  assert (Esize : size_factor job
                  = Some (Qmin (inject_Z (vram_required job)
                                / inject_Z max_vram_ref) 1)).
  { apply size_factor_Some. split; [lia | done]. }
  assert (E : slurm_priority (config st) (usage st) now job
              = Some (weighted_sum (config st) (age_factor now job)
                        (1 / (1 + get_usage (user_id job) (usage st)
                                  / fairshare_decay_norm (config st)))
                        (Qmin (inject_Z (vram_required job)
                               / inject_Z max_vram_ref) 1)
                        (part_factor (config st) job)
                        (qos_factor (config st) job))).
  { unfold slurm_priority. rewrite (fs_factor_value _ _ Hu Hnorm). simpl.
    by rewrite Esize. }
  destruct (calculate_slurm_priority_run now r st job _ Hjob E) as [dbg Hrun].
  eexists _, _. split; [exact Hrun|].
  apply weighted_sum_bounds; try done.
  - by apply age_factor_range.
  - by apply fs_factor_range.
  - by apply size_value_range.
  - by apply table_factor_range.
  - by apply table_factor_range.
Qed.

End PriorityShape.

Lemma priority_within_weights_witness :
  exists p st',
    Scheduler.calculate_slurm_priority 3600 "J1" one_job_state = (Some p, st')
    /\ (0 <= p <= 13500)%Q.
Proof.
  destruct (priority_within_weights one_job_state "J1"
              (Scheduler.new_job "J1" ["w"; "to_run"; "J1.py"] "alice"
                 (2 * 1024 ^ 3) "normal" "standard" 0) 3600%Q)
    as (p & st' & Hrun & Hp).
  - vm_compute. discriminate.
  - vm_compute. discriminate.
  - vm_compute. discriminate.
  - vm_compute. discriminate.
  - vm_compute. discriminate.
  - reflexivity.
  - apply SlurmConfig_default_partitions_range.
  - apply SlurmConfig_default_qos_range.
  - reflexivity.
  - vm_compute. discriminate.
  - vm_compute. discriminate.
  - split; [vm_compute; discriminate | vm_compute; reflexivity].
  - exists p, st'. split; [exact Hrun|]. exact Hp.
Defined.

Lemma job_store_round_trip_witness :
  Scheduler.get_job "J2" (Scheduler.add_job queued_job []) = None
  /\ Scheduler.list_jobs (Scheduler.add_job queued_job []) = [queued_job].
Proof.
  split.
  - rewrite (proj1 (proj2 (proj2 job_store_round_trip)) "J2" queued_job []).
    + reflexivity.
    + discriminate.
  - apply (proj1 (proj2 (proj2 (proj2 (proj2 (proj2 job_store_round_trip)))))
             queued_job []).
    apply not_elem_of_nil.
Defined.

(** ** Fair share and saturation of the age factor *)

Section FairShare.
Import Dirs Scheduler.

Lemma Qinv_le_antimono (a b : Q) : (0 < a)%Q -> (a <= b)%Q -> (1 / b <= 1 / a)%Q.
Proof.
  intros Ha Hab. apply Qle_shift_div_l; [lra|].
  assert (E : (1 / b * a == a / b)%Q) by (field; lra).
  rewrite E. apply Qdiv_le_one; lra.
Qed.

Lemma fs_factor_antimono (cfg : SlurmConfig) (u u' : Q) :
  (0 < fairshare_decay_norm cfg)%Q -> (0 <= u <= u')%Q ->
  (1 / (1 + u' / fairshare_decay_norm cfg)
   <= 1 / (1 + u / fairshare_decay_norm cfg))%Q.
Proof.
  intros Hn [Hu Hle].
  pose proof (Qdiv_nonneg _ _ Hu Hn) as Hx.
  pose proof (Qdiv_le_mono _ _ _ Hn Hle) as Hxy.
  set (x := (u / fairshare_decay_norm cfg)%Q) in *.
  set (y := (u' / fairshare_decay_norm cfg)%Q) in *.
  apply Qinv_le_antimono; lra.
Qed.

(** X4.  Fair share: of two jobs that differ in their users only, scored at
    the same time under the same configuration (fair-share weight not
    negative, normalisation constant positive), the job of the user
    with the larger ledger entry does not score higher. *)
Theorem priority_decreases_with_usage (st st' st1 : State) (r r' : string)
    (j j' : Job) (now p : Q) :
  (0 <= weight_fairshare (config st))%Q ->
  (0 < fairshare_decay_norm (config st))%Q ->
  config st' = config st ->
  get_job r (jobs st) = Some j ->
  get_job r' (jobs st') = Some j' ->
  vram_required j = vram_required j' ->
  created_at j = created_at j' ->
  partition j = partition j' ->
  qos j = qos j' ->
  (0 <= get_usage (user_id j) (usage st)
   <= get_usage (user_id j') (usage st'))%Q ->
  calculate_slurm_priority now r st = (Some p, st1) ->
  exists p' st2,
    calculate_slurm_priority now r' st' = (Some p', st2) /\ (p' <= p)%Q.
Proof.
  intros Hw Hn Hcfg Hj Hj' Hv Hc Hp Hq [Hu Hle] Hrun.
  apply (calculate_slurm_priority_result _ _ _ _ _ _ Hj) in Hrun.
  unfold slurm_priority in Hrun.
  rewrite (fs_factor_value _ _ Hu Hn) in Hrun. simpl in Hrun.
  destruct (size_factor j) as [size|] eqn:Hsize; [|done]. simpl in Hrun.
  injection Hrun as ->.
  assert (Hsize' : size_factor j' = Some size)
    by (unfold size_factor in *; by rewrite <- Hv).
  assert (Hu' : (0 <= get_usage (user_id j') (usage st'))%Q) by lra.
  assert (E : slurm_priority (config st') (usage st') now j'
              = Some (weighted_sum (config st) (age_factor now j')
                        (1 / (1 + get_usage (user_id j') (usage st')
                                  / fairshare_decay_norm (config st)))
                        size (part_factor (config st) j')
                        (qos_factor (config st) j'))).
  { unfold slurm_priority. rewrite Hcfg.
    rewrite (fs_factor_value _ _ Hu' Hn). simpl. by rewrite Hsize'. }
  destruct (calculate_slurm_priority_run now r' st' j' _ Hj' E) as [dbg Hrun'].
  eexists _, _. split; [exact Hrun'|].
  unfold weighted_sum, age_factor, time_waiting, part_factor,
    qos_factor.
  rewrite <- Hc, <- Hp, <- Hq.
  pose proof (fs_factor_antimono (config st) _ _ Hn (conj Hu Hle)) as Hfs.
  pose proof (Qmult_le_compat_l_nonneg _ _ _ Hw Hfs).
  lra.
Qed.

(** X5.  Aging saturates: once a job has waited a week (604800 s) its age
    factor is 1, and later evaluations against the same ledger return
    the same score. *)
Theorem priority_age_saturates (st st1 : State) (r : string) (j : Job)
    (t1 t2 p1 : Q) :
  get_job r (jobs st) = Some j ->
  (created_at j + 604800 <= t1)%Q ->
  (created_at j + 604800 <= t2)%Q ->
  calculate_slurm_priority t1 r st = (Some p1, st1) ->
  (age_factor t1 j == 1)%Q
  /\ exists p2 st2,
      calculate_slurm_priority t2 r st = (Some p2, st2) /\ (p2 == p1)%Q.
Proof.
  intros Hj Ht1 Ht2 Hrun.
  assert (Hsat : forall t, (created_at j + 604800 <= t)%Q ->
                           (age_factor t j == 1)%Q).
  { intros t Ht. unfold age_factor, time_waiting.
    apply Q.min_r. apply Qle_shift_div_l; [reflexivity|].
    unfold max_age_sec. lra. }
  split; [by apply Hsat|].
  apply (calculate_slurm_priority_result _ _ _ _ _ _ Hj) in Hrun.
  unfold slurm_priority in Hrun.
  destruct (fs_factor (config st) (get_usage (user_id j) (usage st)))
    as [fsf|] eqn:Hfs; [|done].
  simpl in Hrun.
  destruct (size_factor j) as [size|] eqn:Hsize; [|done]. simpl in Hrun.
  injection Hrun as ->.
  assert (E : slurm_priority (config st) (usage st) t2 j
              = Some (weighted_sum (config st) (age_factor t2 j) fsf
                        size (part_factor (config st) j)
                        (qos_factor (config st) j))).
  { unfold slurm_priority. rewrite Hfs. simpl. by rewrite Hsize. }
  destruct (calculate_slurm_priority_run t2 r st j _ Hj E) as [dbg Hrun'].
  eexists _, _. split; [exact Hrun'|].
  unfold weighted_sum. by rewrite (Hsat t1), (Hsat t2).
Qed.

End FairShare.

Lemma priority_decreases_with_usage_witness :
  exists p' st2,
    Scheduler.calculate_slurm_priority 60 "J1" one_job_state = (Some p', st2)
    /\ (p' <= 11013)%Q.
Proof.
  pose (fresh := Scheduler.set_usage ∅ one_job_state).
  destruct (priority_decreases_with_usage fresh one_job_state
              (snd (Scheduler.calculate_slurm_priority 60 "J1" fresh))
              "J1" "J1"
              (Scheduler.new_job "J1" ["w"; "to_run"; "J1.py"] "alice"
                 (2 * 1024 ^ 3) "normal" "standard" 0)
              (Scheduler.new_job "J1" ["w"; "to_run"; "J1.py"] "alice"
                 (2 * 1024 ^ 3) "normal" "standard" 0)
              60
              (default 0%Q
                 (fst (Scheduler.calculate_slurm_priority 60 "J1" fresh))))
    as (p' & st2 & Hrun & Hle).
  - vm_compute. discriminate.
  - reflexivity.
  - reflexivity.
  - reflexivity.
  - reflexivity.
  - reflexivity.
  - reflexivity.
  - reflexivity.
  - reflexivity.
  - split; vm_compute; discriminate.
  - apply (run_returns _ _ 0%Q). vm_compute. reflexivity.
  - exists p', st2. split; [exact Hrun|].
    eapply Qle_trans; [exact Hle|]. vm_compute. discriminate.
Defined.

Lemma priority_age_saturates_witness :
  exists p2 st2,
    Scheduler.calculate_slurm_priority 700000 "J1" one_job_state = (Some p2, st2)
    /\ (p2 == 1000 * 1 + 10000 * (1 # 2) + 500 * (1 # 40)
              + 1000 * (1 # 2) + 1000 * (1 # 2))%Q.
Proof.
  destruct (priority_age_saturates one_job_state
              (snd (Scheduler.calculate_slurm_priority 604800 "J1" one_job_state))
              "J1"
              (Scheduler.new_job "J1" ["w"; "to_run"; "J1.py"] "alice"
                 (2 * 1024 ^ 3) "normal" "standard" 0)
              604800 700000
              (default 0%Q
                 (fst (Scheduler.calculate_slurm_priority 604800 "J1"
                         one_job_state))))
    as (_ & p2 & st2 & Hrun & Heq).
  - reflexivity.
  - vm_compute. discriminate.
  - vm_compute. discriminate.
  - apply (run_returns _ _ 0%Q). vm_compute. reflexivity.
  - exists p2, st2. split; [exact Hrun|]. rewrite Heq. vm_compute. reflexivity.
Defined.

(** ** Choosing a GPU *)

Section GpuChoice.
Import Dirs GpuMonitor Scheduler.

Lemma scan_gpus_step (m : GpuMetrics) (rest : list GpuMetrics)
    (running_jobs : list Job) (vram : Z) :
  scan_gpus (m :: rest) running_jobs vram
  = if is_healthy m
       && negb (bool_decide (name m = "virtual-gpu-0")
                && bool_decide (0 < length running_jobs)%nat)
       && (vram <=? memory_total m - memory_used m)%Z
       && (memory_used m <? 1 * 1024 ^ 3)%Z
    then Some (gpu_id m)
    else scan_gpus rest running_jobs vram.
Proof.
  cbn [scan_gpus]. destruct (is_healthy m); [|done]. cbn [negb andb].
  destruct (bool_decide (name m = "virtual-gpu-0")
            && bool_decide (0 < length running_jobs)%nat); [done|].
  cbn [negb andb]. by destruct (_ && _).
Qed.

Lemma accepts_fits (st : State) (vram : Z) (n : nat) (r : Reading) :
  let m := metrics_of n r in
  is_healthy m
  && negb (bool_decide (name m = "virtual-gpu-0")
           && bool_decide
                (0 < length (filter (fun j => status j = "RUNNING") (jobs st)))%nat)
  && (vram <=? memory_total m - memory_used m)%Z
  && (memory_used m <? 1 * 1024 ^ 3)%Z = true
  <-> fits st vram r.
Proof.
  simpl. unfold fits, running_count.
  rewrite !andb_true_iff, negb_true_iff, andb_false_iff.
  rewrite Z.leb_le, Z.ltb_lt, !bool_decide_eq_false.
  change (1 * 1024 ^ 3)%Z with (1024 ^ 3)%Z.
  split.
  - intros [[[Ht Hv] Hfree] Hused]. repeat split; try done.
    + intros t Et. rewrite Et in Ht. apply negb_true_iff, Z.leb_gt in Ht. lia.
    + intros En. destruct Hv as [Hv|Hv]; [done | lia].
  - intros (Ht & Hfree & Hused & Hv). repeat split; try done.
    + destruct (temp r) as [t|]; [|done].
      apply negb_true_iff, Z.leb_gt. by apply Ht.
    + destruct (decide (dev_name r = "virtual-gpu-0")) as [En|En]; [|by left].
      right. rewrite (Hv En). lia.
Qed.

Lemma scan_gpus_readings (st : State) (vram : Z) (readings : list Reading)
    (n : nat) :
  match scan_gpus (imap (fun i => metrics_of (n + i)) readings)
          (filter (fun j => status j = "RUNNING") (jobs st)) vram with
  | Some g =>
      exists i r,
        g = Z.of_nat (n + i) /\ readings !! i = Some r /\ fits st vram r
        /\ forall k r', k < i -> readings !! k = Some r' -> ~ fits st vram r'
  | None => forall r, r ∈ readings -> ~ fits st vram r
  end.
Proof.
  revert n. induction readings as [|r0 readings IH]; intros n.
  - simpl. intros r Hr. by apply elem_of_nil in Hr.
  - rewrite imap_cons, scan_gpus_step.
    pose proof (accepts_fits st vram (n + 0) r0) as Hacc. cbv zeta in Hacc.
    destruct (_ && _ && _ && _) eqn:E.
    + exists 0, r0. split; [done|]. split; [done|].
      split; [by apply Hacc|]. intros k r' Hk. lia.
    + assert (Hno : ~ fits st vram r0).
      { intros Hfit. apply Hacc in Hfit. congruence. }
      specialize (IH (S n)).
      assert (Heq : imap ((fun i => metrics_of (n + i)) ∘ S) readings
                    = imap (fun i => metrics_of (S n + i)) readings).
      { apply imap_ext. intros i x _. simpl. f_equal. lia. }
      rewrite Heq.
      destruct (scan_gpus _ _ _) as [g|].
      * destruct IH as (i & r & -> & Hi & Hfit & Hfirst).
        exists (S i), r. split; [f_equal; lia|]. split; [done|].
        split; [done|].
        intros [|k] r' Hk Hr'; simpl in Hr'.
        -- by injection Hr' as <-.
        -- apply (Hfirst k); [lia | done].
      * intros r Hr. apply elem_of_cons in Hr as [->|Hr]; [done|].
        by apply IH.
Qed.

End GpuChoice.

(** X6.  [_find_available_gpu] is first fit and changes nothing.  On the
    devices NVML enumerates it returns the index of the first one that
    is below 85 degrees, has room for the request and less than 1 GiB in
    use; when there is none it returns [None].  Without NVML it returns
    GPU 0 exactly when no job is RUNNING and the request is at most
    16 GiB. *)
Theorem gpu_choice_first_fit :
  (forall (readings : list GpuMonitor.Reading) (vram : Z) (st : Scheduler.State),
      exists found,
        Scheduler.find_available_gpu (GpuMonitor.list_gpus (Some readings)) vram st
        = (Some found, st)
        /\ match found with
           | Some g =>
               exists i r,
                 g = Z.of_nat i /\ readings !! i = Some r /\ fits st vram r
                 /\ forall k r', k < i -> readings !! k = Some r' ->
                                 ~ fits st vram r'
           | None => forall r, r ∈ readings -> ~ fits st vram r
           end)
  /\ (forall (vram : Z) (st : Scheduler.State),
         Scheduler.find_available_gpu (GpuMonitor.list_gpus None) vram st
         = (Some (if decide (running_count (Scheduler.jobs st) = 0
                             /\ (vram <= 16 * 1024 ^ 3)%Z)
                  then Some 0%Z else None), st)).
Proof.
  split.
  - intros readings vram st. eexists. split; [reflexivity|].
    apply (scan_gpus_readings st vram readings 0).
  - intros vram st. unfold Scheduler.find_available_gpu.
    rewrite bind_get, ret_run. f_equal. f_equal.
    unfold GpuMonitor.list_gpus. rewrite scan_gpus_step.
    unfold running_count. cbn [GpuMonitor.is_healthy GpuMonitor.virtual_gpu
      GpuMonitor.name GpuMonitor.memory_total GpuMonitor.memory_used
      GpuMonitor.gpu_id Scheduler.scan_gpus andb].
    rewrite bool_decide_true by done. cbn [andb].
    destruct (filter _ (Scheduler.jobs st)) as [|j l] eqn:E.
    + simpl length. rewrite bool_decide_false by lia. cbn [negb andb].
      change (0 <? 1 * 1024 ^ 3)%Z with true. rewrite andb_true_r.
      destruct (decide _) as [[_ H]|H].
      * rewrite Z.sub_0_r. by apply Z.leb_le in H as ->.
      * rewrite Z.sub_0_r. destruct (_ <=? _)%Z eqn:E'; [|done].
        apply Z.leb_le in E'. exfalso. apply H. split; [done | lia].
    + simpl length. rewrite bool_decide_true by lia. cbn [negb andb].
      rewrite decide_False; [done|]. intros [H _]. discriminate.
Qed.

(** ** Creating directories *)

Section Mkdir.
Import Dirs.

(** Whatever [mkdir] does, returning or raising, it only adds
    directories, at the path or at ancestors of it. *)
Lemma mkdir_from_effect (todo pre : Path) (disk disk' : FS) (r : option unit) :
  mkdir_from pre todo disk = (r, disk') ->
  disk ⊆ disk'
  /\ forall q, disk !! q = None -> is_Some (disk' !! q) ->
               disk' !! q = Some Dir
               /\ exists k, 0 < k <= length todo /\ q = pre ++ take k todo.
Proof.
  revert pre disk. induction todo as [|c rest IH]; intros pre disk; simpl.
  - intros [= <- <-]. split; [done|]. intros q Hq [x Hx]. congruence.
  - rewrite bind_run. unfold mkdir_one at 1.
    destruct (disk !! (pre ++ [c])) as [[|x]|] eqn:E.
    + intros H. apply IH in H as [Hsub Hnew]. split; [done|].
      intros q Hq Hq'. destruct (Hnew q Hq Hq') as (Hdir & k & Hk & ->).
      split; [done|]. exists (S k). split; [lia|]. by rewrite <- app_assoc.
    + intros [= <- <-]. split; [done|]. intros q Hq [y Hy]. congruence.
    + intros H. apply IH in H as [Hsub Hnew]. split.
      * etrans; [|exact Hsub]. by apply insert_subseteq.
      * intros q Hq Hq'. destruct (decide (q = pre ++ [c])) as [->|Hne].
        -- split.
           ++ apply (lookup_weaken _ _ _ _ (lookup_insert_eq disk _ _) Hsub).
           ++ exists 1. split; [lia|]. simpl. by rewrite take_0.
        -- destruct (Hnew q) as (Hdir & k & Hk & ->); [|done|].
           ++ by rewrite lookup_insert_ne.
           ++ split; [done|]. exists (S k). split; [lia|].
              by rewrite <- app_assoc.
Qed.

Lemma mkdir_from_same_files (todo pre : Path) (disk disk' : FS)
    (r : option unit) :
  mkdir_from pre todo disk = (r, disk') -> same_files disk disk'.
Proof.
  intros H. apply mkdir_from_effect in H as [Hsub Hnew]. intros q c. split.
  - intros Hq. by eapply lookup_weaken.
  - intros Hq. destruct (disk !! q) as [x|] eqn:E.
    + apply (lookup_weaken _ _ _ _ E) in Hsub. congruence.
    + destruct (Hnew q E) as [Hdir _]; [by eexists | congruence].
Qed.

(** [mkdir] raises exactly when a regular file is in the way. *)
Lemma mkdir_from_raises (todo pre : Path) (disk : FS) :
  fst (mkdir_from pre todo disk) = None
  <-> exists k c, 0 < k <= length todo
                  /\ disk !! (pre ++ take k todo) = Some (File c).
Proof.
  revert pre disk. induction todo as [|c rest IH]; intros pre disk; simpl.
  - split; [done|]. intros (k & x & Hk & _). lia.
  - rewrite bind_run. unfold mkdir_one at 1.
    destruct (disk !! (pre ++ [c])) as [[|x]|] eqn:E.
    + rewrite IH. split.
      * intros (k & y & Hk & Hy). exists (S k), y. split; [lia|].
        simpl. by rewrite <- app_assoc in Hy.
      * intros (k & y & Hk & Hy). destruct k as [|k]; [lia|].
        destruct k as [|k].
        -- simpl in Hy. rewrite take_0 in Hy. congruence.
        -- exists (S k), y. split; [lia|]. simpl in Hy.
           by rewrite <- app_assoc.
    + split; [|done]. intros _. exists 1, x. split; [lia|].
      simpl. by rewrite take_0.
    + rewrite IH. split.
      * intros (k & y & Hk & Hy). exists (S k), y. split; [lia|].
        rewrite lookup_insert_ne in Hy.
        -- simpl. by rewrite <- app_assoc in Hy.
        -- intros Heq. apply (f_equal length) in Heq.
           rewrite !length_app, length_take in Heq. cbn [length] in Heq. lia.
      * intros (k & y & Hk & Hy). destruct k as [|k]; [lia|].
        destruct k as [|k].
        -- simpl in Hy. rewrite take_0 in Hy. congruence.
        -- exists (S k), y. split; [lia|]. simpl in Hy.
           rewrite lookup_insert_ne; [by rewrite <- app_assoc|].
           intros Heq. apply (f_equal length) in Heq.
           rewrite !length_app, length_take in Heq. cbn [length] in Heq. lia.
Qed.

Lemma mkdir_parents_raises (p : Path) (disk : FS) :
  fst (mkdir_parents p disk) = None <-> blocked_by_file disk p.
Proof.
  unfold mkdir_parents. rewrite mkdir_from_raises. unfold blocked_by_file.
  split.
  - intros (k & c & Hk & Hc). exists (take k p), c. simpl in Hc.
    split; [|split; [|done]].
    + intros Heq. apply (f_equal length) in Heq.
      rewrite length_take in Heq. simpl in Heq. lia.
    + exists (drop k p). by rewrite take_drop.
  - intros (q & c & Hne & [rest ->] & Hc). exists (length q), c.
    rewrite take_app_length. simpl. split; [|done].
    rewrite length_app. destruct q; [done|]. simpl. lia.
Qed.

Lemma blocked_by_file_same (a b : FS) (p : Path) :
  same_files a b -> blocked_by_file a p <-> blocked_by_file b p.
Proof.
  intros H. unfold blocked_by_file. split.
  - intros (q & c & Hne & Hpre & Hc). exists q, c. by rewrite <- (H q c).
  - intros (q & c & Hne & Hpre & Hc). exists q, c. by rewrite (H q c).
Qed.

End Mkdir.

(** ** The state directories *)

Section SetupDirs.
Import Dirs.

Lemma same_files_refl (a : FS) : same_files a a.
Proof. by intros p c. Qed.

Lemma bind_mkdir_raises {B} (p : Path) (k : unit -> M FS B) (disk : FS) :
  fst ((mkdir_parents p ≫= k) disk) = None
  <-> blocked_by_file disk p
      \/ exists disk', mkdir_parents p disk = (Some tt, disk')
                       /\ same_files disk disk'
                       /\ fst (k tt disk') = None.
Proof.
  rewrite bind_run. pose proof (mkdir_parents_raises p disk) as Hr.
  destruct (mkdir_parents p disk) as [[[]|] disk'] eqn:E; simpl in Hr.
  - split.
    + intros H. right. exists disk'. split; [done|]. split; [|done].
      by apply (mkdir_from_same_files _ _ _ _ _ E).
    + intros [H|(d & [= <-] & _ & H)]; [|done].
      apply Hr in H. discriminate.
  - split; [|done]. intros _. left. by apply Hr.
Qed.

Lemma is_dir_weaken (a b : FS) (p : Path) :
  a ⊆ b -> is_dir a p = true -> is_dir b p = true.
Proof.
  intros Hsub. destruct p as [|c p]; [done|]. simpl.
  destruct (a !! (c :: p)) as [[|x]|] eqn:E; try done.
  by rewrite (lookup_weaken _ _ _ _ E Hsub).
Qed.

Lemma mkdir_parents_again (p : Path) (a a' b : FS) :
  mkdir_parents p a = (Some tt, a') -> a' ⊆ b ->
  mkdir_parents p b = (Some tt, b).
Proof.
  intros H Hsub. apply mkdir_parents_Some in H as (_ & _ & _ & Hagain).
  apply (mkdir_from_stable _ _ a'); [exact Hagain|].
  intros q Hq. by eapply lookup_weaken.
Qed.

(** X7.  [setup_dirs], when it returns, has made the five state directories,
    has added directories only and touched no regular file, and doing
    it again changes nothing. *)
Theorem setup_dirs_creates (l : DirLayout) (disk disk' : FS) :
  setup_dirs l disk = (Some tt, disk') ->
  (is_dir disk' (to_run l) = true /\ is_dir disk' (running l) = true
   /\ is_dir disk' (complete l) = true /\ is_dir disk' (fail l) = true
   /\ is_dir disk' (out l) = true)
  /\ disk ⊆ disk'
  /\ same_files disk disk'
  /\ setup_dirs l disk' = (Some tt, disk').
Proof.
  unfold setup_dirs. intros H.
  apply bind_mkdir_parents in H as (d1 & H1 & H); [|by eexists].
  apply bind_mkdir_parents in H as (d2 & H2 & H); [|by eexists].
  apply bind_mkdir_parents in H as (d3 & H3 & H); [|by eexists].
  apply bind_mkdir_parents in H as (d4 & H4 & H5); [|by eexists].
  pose proof (mkdir_parents_Some _ _ _ H1) as (S1 & _ & D1 & _).
  pose proof (mkdir_parents_Some _ _ _ H2) as (S2 & _ & D2 & _).
  pose proof (mkdir_parents_Some _ _ _ H3) as (S3 & _ & D3 & _).
  pose proof (mkdir_parents_Some _ _ _ H4) as (S4 & _ & D4 & _).
  pose proof (mkdir_parents_Some _ _ _ H5) as (S5 & _ & D5 & _).
  assert (S45 : d3 ⊆ disk') by (by etrans).
  assert (S35 : d2 ⊆ disk') by (by etrans).
  assert (S25 : d1 ⊆ disk') by (by etrans).
  split; [|split; [|split]].
  - split; [exact (is_dir_weaken d1 disk' _ S25 D1)|].
    split; [exact (is_dir_weaken d2 disk' _ S35 D2)|].
    split; [exact (is_dir_weaken d3 disk' _ S45 D3)|].
    split; [exact (is_dir_weaken d4 disk' _ S5 D4) | exact D5].
  - by etrans.
  - apply mkdir_parents_same_files in H1, H2, H3, H4, H5.
    repeat (eapply same_files_trans; [eassumption|]). apply same_files_refl.
  - rewrite bind_run, (mkdir_parents_again _ _ _ disk' H1 S25).
    rewrite bind_run, (mkdir_parents_again _ _ _ disk' H2 S35).
    rewrite bind_run, (mkdir_parents_again _ _ _ disk' H3 S45).
    rewrite bind_run, (mkdir_parents_again _ _ _ disk' H4 S5).
    by rewrite (mkdir_parents_again _ _ _ disk' H5).
Qed.

(** X8.  [setup_dirs] raises exactly when a regular file is in the way of
    one of the five directories: at its path or at an ancestor. *)
Theorem setup_dirs_raises_iff (l : DirLayout) (disk : FS) :
  fst (setup_dirs l disk) = None
  <-> blocked_by_file disk (to_run l) \/ blocked_by_file disk (running l)
      \/ blocked_by_file disk (complete l) \/ blocked_by_file disk (fail l)
      \/ blocked_by_file disk (out l).
Proof.
  unfold setup_dirs. rewrite bind_mkdir_raises. split.
  - intros [H|(d1 & _ & F1 & H)]; [by left|]. right.
    rewrite (blocked_by_file_same _ _ (running l) F1),
      (blocked_by_file_same _ _ (complete l) F1),
      (blocked_by_file_same _ _ (fail l) F1),
      (blocked_by_file_same _ _ (out l) F1).
    apply bind_mkdir_raises in H as [H|(d2 & _ & F2 & H)]; [by left|]. right.
    rewrite (blocked_by_file_same _ _ (complete l) F2),
      (blocked_by_file_same _ _ (fail l) F2),
      (blocked_by_file_same _ _ (out l) F2).
    apply bind_mkdir_raises in H as [H|(d3 & _ & F3 & H)]; [by left|]. right.
    rewrite (blocked_by_file_same _ _ (fail l) F3),
      (blocked_by_file_same _ _ (out l) F3).
    apply bind_mkdir_raises in H as [H|(d4 & _ & F4 & H)]; [by left|]. right.
    rewrite (blocked_by_file_same _ _ (out l) F4).
    by apply mkdir_parents_raises.
  - intros H.
    destruct (mkdir_parents (to_run l) disk) as [[[]|] d1] eqn:E1.
    2:{ left. apply mkdir_parents_raises. by rewrite E1. }
    pose proof (mkdir_from_same_files _ _ _ _ _ E1) as F1.
    destruct H as [H|H].
    { apply mkdir_parents_raises in H. rewrite E1 in H. discriminate. }
    right. exists d1. split; [done|]. split; [done|].
    rewrite (blocked_by_file_same _ _ (running l) F1),
      (blocked_by_file_same _ _ (complete l) F1),
      (blocked_by_file_same _ _ (fail l) F1),
      (blocked_by_file_same _ _ (out l) F1) in H.
    apply bind_mkdir_raises.
    destruct (mkdir_parents (running l) d1) as [[[]|] d2] eqn:E2.
    2:{ left. apply mkdir_parents_raises. by rewrite E2. }
    pose proof (mkdir_from_same_files _ _ _ _ _ E2) as F2.
    destruct H as [H|H].
    { apply mkdir_parents_raises in H. rewrite E2 in H. discriminate. }
    right. exists d2. split; [done|]. split; [done|].
    rewrite (blocked_by_file_same _ _ (complete l) F2),
      (blocked_by_file_same _ _ (fail l) F2),
      (blocked_by_file_same _ _ (out l) F2) in H.
    apply bind_mkdir_raises.
    destruct (mkdir_parents (complete l) d2) as [[[]|] d3] eqn:E3.
    2:{ left. apply mkdir_parents_raises. by rewrite E3. }
    pose proof (mkdir_from_same_files _ _ _ _ _ E3) as F3.
    destruct H as [H|H].
    { apply mkdir_parents_raises in H. rewrite E3 in H. discriminate. }
    right. exists d3. split; [done|]. split; [done|].
    rewrite (blocked_by_file_same _ _ (fail l) F3),
      (blocked_by_file_same _ _ (out l) F3) in H.
    apply bind_mkdir_raises.
    destruct (mkdir_parents (fail l) d3) as [[[]|] d4] eqn:E4.
    2:{ left. apply mkdir_parents_raises. by rewrite E4. }
    pose proof (mkdir_from_same_files _ _ _ _ _ E4) as F4.
    destruct H as [H|H].
    { apply mkdir_parents_raises in H. rewrite E4 in H. discriminate. }
    right. exists d4. split; [done|]. split; [done|].
    rewrite (blocked_by_file_same _ _ (out l) F4) in H.
    by apply mkdir_parents_raises.
Qed.

End SetupDirs.

Lemma setup_dirs_creates_witness :
  Dirs.is_dir (exec (Dirs.setup_dirs {| Dirs.root := ["work"] |}) uploads)
    ["work"; "running"] = true
  /\ same_files uploads
       (exec (Dirs.setup_dirs {| Dirs.root := ["work"] |}) uploads).
Proof.
  destruct (setup_dirs_creates {| Dirs.root := ["work"] |} uploads
              (exec (Dirs.setup_dirs {| Dirs.root := ["work"] |}) uploads))
    as ((_ & Hrun & _) & _ & Hsame & _).
  - apply run_Some. vm_compute. reflexivity.
  - split; [exact Hrun | exact Hsame].
Defined.

(** ** A script that has disappeared *)

Section MissingSource.
Import Dirs.

(** [safe_rename] of a path that does not exist raises; by then it has
    at most created directories on the way to [dst_dir]. *)
Lemma safe_rename_missing (disk : FS) (src dst : Path)
    (new_name : option string) :
  disk !! src = None ->
  exists disk',
    safe_rename src dst new_name disk = (None, disk')
    /\ disk ⊆ disk' /\ same_files disk disk'.
Proof.
  intros Hsrc. unfold safe_rename. rewrite bind_run.
  destruct (mkdir_parents dst disk) as [[[]|] disk1] eqn:Hmk.
  - pose proof (mkdir_from_effect _ _ _ _ _ Hmk) as [Hsub Hnew].
    pose proof (mkdir_from_same_files _ _ _ _ _ Hmk) as Hsame.
    pose proof (mkdir_parents_Some _ _ _ Hmk) as (_ & _ & Hdir & _).
    exists disk1. split; [|done].
    set (name := default (path_name src) new_name).
    rewrite bind_get, bind_lift_option.
    destruct (find_free_total disk1 dst name) as [t Ht]. rewrite Ht.
    pose proof (find_free_Some disk1 dst name _ 0 t Ht) as (k & _ & -> & _).
    rewrite bind_run. unfold replace.
    rewrite removelast_path_join, Hdir. cbn [negb].
    destruct (disk1 !! src) as [[|c]|] eqn:E; [| |done].
    + destruct (Hnew src Hsrc) as (_ & i & Hi & Heq); [by eexists|].
      rewrite decide_True; [done|].
      rewrite Heq. simpl. unfold path_join.
      exists (drop i dst ++ [nth_name name k]).
      by rewrite app_assoc, take_drop.
    + apply Hsame in E. congruence.
  - exists disk1. split; [done|]. split.
    + by apply (mkdir_from_effect _ _ _ _ _ Hmk).
    + by apply (mkdir_from_same_files _ _ _ _ _ Hmk).
Qed.

End MissingSource.

Section MissingScript.
Import Dirs GpuMonitor Scheduler.

(** X9.  A submission whose script does not exist raises and leaves no job
    behind: the store, the ledger and the supervisor tasks are as
    before, and no regular file has changed. *)
Theorem submit_job_missing_script (st : State) (src : Path) (user : string)
    (vram : Z) (part q job_id : string) (now : Q) :
  fs st !! src = None ->
  exists st',
    submit_job src user vram part q job_id now st = (None, st')
    /\ jobs st' = jobs st /\ usage st' = usage st /\ tasks st' = tasks st
    /\ same_files (fs st) (fs st').
Proof.
  intros Hsrc. unfold submit_job. rewrite bind_get, bind_on_fs.
  destruct (safe_rename_missing (fs st) src (to_run (layout st))
              (Some (job_id +:+ ".py")) Hsrc) as (disk' & -> & _ & Hsame).
  by exists (set_fs disk' st).
Qed.

(** X10.  When the script of the picked job is no longer where the job record
    says, [_launch_job] raises before it has changed the job: the job
    stays as it was (still QUEUED), no task is created, no regular file
    changes, and the exception ends [run_forever]. *)
Theorem launch_job_missing_script (st0 st : State)
    (nvml : option (list Reading)) (clock : nat -> Q) (now : Q)
    (spawn : option Z) (r : string) (job : Job) (gpu : Z) :
  pick_next_job clock st0 = (Some (Some r), st) ->
  get_job r (jobs st) = Some job ->
  scan_gpus (list_gpus nvml)
    (filter (fun j => status j = "RUNNING") (jobs st))
    (vram_required job) = Some gpu ->
  fs st !! script_path job = None ->
  exists st',
    launch_job (list_gpus nvml) now spawn r st = (None, st')
    /\ jobs st' = jobs st /\ tasks st' = tasks st /\ usage st' = usage st
    /\ same_files (fs st) (fs st')
    /\ loop_iteration nvml clock now spawn st0 = set_loop_alive false st'.
Proof.
  intros Hpick Hjob Hscan Hsrc.
  destruct (safe_rename_missing (fs st) (script_path job)
              (running (layout st)) None Hsrc) as (disk' & Hren & _ & Hsame).
  assert (Hrun : launch_job (list_gpus nvml) now spawn r st
                 = (None, set_fs disk' st)).
  { unfold launch_job. rewrite bind_deref, Hjob.
    unfold find_available_gpu. rewrite bind_run, bind_get, ret_run, Hscan.
    rewrite bind_get, bind_on_fs, Hren. reflexivity. }
  exists (set_fs disk' st). split; [exact Hrun|].
  do 4 (split; [done|]).
  unfold loop_iteration. rewrite run_pass_cases, Hpick, Hrun. reflexivity.
Qed.

(** X11.  When the script of a finished job is no longer where the job record
    says, the supervisor has charged the user and then raises: the job
    keeps the status it had (RUNNING), for good, since its task is gone. *)
Theorem finalize_missing_script (st : State) (t : Task) (rc : Z) (now : Q)
    (job : Job) :
  get_job (task_job t) (jobs st) = Some job ->
  fs st !! script_path job = None ->
  exists st',
    wait_and_finalize t rc now st = (None, st')
    /\ usage st' = add_usage (user_id job) (now - task_start t) 1 (usage st)
    /\ jobs st' = jobs st
    /\ same_files (fs st) (fs st').
Proof.
  intros Hjob Hsrc. unfold wait_and_finalize.
  rewrite bind_deref, Hjob, bind_modify, bind_get, bind_run.
  destruct (decide (rc = 0%Z)).
  - destruct (safe_rename_missing (fs st) (script_path job)
                (complete (layout st)) None Hsrc) as (disk' & Hren & _ & Hsame).
    rewrite bind_on_fs. simpl fs. simpl layout. rewrite Hren.
    eexists. split; [reflexivity|]. done.
  - destruct (safe_rename_missing (fs st) (script_path job)
                (fail (layout st)) None Hsrc) as (disk' & Hren & _ & Hsame).
    rewrite bind_on_fs. simpl fs. simpl layout. rewrite Hren.
    eexists. split; [reflexivity|]. done.
Qed.

End MissingScript.

(** ** Launching a job *)

Section Launch.
Import Dirs GpuMonitor Scheduler.

Lemma start_process_run (logs_dir : Path) (job_id : string) (spawn : option Z)
    (disk : FS) :
  is_dir disk logs_dir = true ->
  disk !! path_join logs_dir (job_id +:+ ".log") <> Some Dir ->
  start_process logs_dir job_id spawn disk
  = (spawn, <[path_join logs_dir (job_id +:+ ".log") := File EmptyString]> disk).
Proof.
  intros Hdir Hlog. unfold start_process. rewrite bind_run. unfold open_wb.
  rewrite removelast_path_join, Hdir.
  destruct (disk !! path_join logs_dir (job_id +:+ ".log")) as [[|c]|];
    [done | by destruct spawn | by destruct spawn].
Qed.

Lemma get_job_amap (r r' : string) (F : Job -> Job) (l : list Job) :
  (forall j, id (F j) = id j) ->
  get_job r' (amap r F l)
  = (fun j => if decide (id j = r) then F j else j) <$> get_job r' l.
Proof. apply get_job_assign. Qed.

Lemma get_job_amap_eq (r : string) (F : Job -> Job) (l : list Job) (j : Job) :
  (forall j, id (F j) = id j) ->
  get_job r l = Some j -> get_job r (amap r F l) = Some (F j).
Proof.
  intros HF Hj. rewrite get_job_amap, Hj by done. simpl.
  by rewrite decide_True by (by eapply get_job_id).
Qed.

Lemma get_job_amap_ne (r r' : string) (F : Job -> Job) (l : list Job) :
  (forall j, id (F j) = id j) -> r' <> r ->
  get_job r' (amap r F l) = get_job r' l.
Proof.
  intros HF Hne. rewrite get_job_amap by done.
  destruct (get_job r' l) as [j|] eqn:Hj; [|done]. simpl.
  apply get_job_id in Hj. by rewrite decide_False by congruence.
Qed.

Lemma state_dirs_differ (l : DirLayout) (a b : string) :
  path_join (running l) a <> path_join (out l) b.
Proof.
  unfold path_join, running, out, path_join. rewrite <- !app_assoc.
  intros H. apply app_inv_head in H. discriminate.
Qed.

(** [_launch_job] up to the point where [Popen] returns or raises. *)
Lemma launch_job_run (st : State) (disk1 : FS) (metrics : list GpuMetrics)
    (now : Q) (spawn : option Z) (gpu : Z) (r : string) (job : Job)
    (c : string) :
  get_job r (jobs st) = Some job ->
  scan_gpus metrics (filter (fun j => status j = "RUNNING") (jobs st))
    (vram_required job) = Some gpu ->
  fs st !! script_path job = Some (File c) ->
  mkdir_parents (running (layout st)) (fs st) = (Some tt, disk1) ->
  is_dir (fs st) (out (layout st)) = true ->
  fs st !! log_file (layout st) (id job) <> Some Dir ->
  exists k,
    let name := nth_name (path_name (script_path job)) k in
    let target := path_join (running (layout st)) name in
    let disk3 :=
      <[log_file (layout st) (id job) := File EmptyString]>
        (<[target := File c]> (delete (script_path job) disk1)) in
    let st3 := set_jobs (amap r (placed target gpu) (jobs st))
                 (set_fs disk3 st) in
    launch_job metrics now spawn r st
    = match spawn with
      | Some proc =>
          (Some tt,
           set_tasks (tasks st ++ [{| task_job := r; task_pid := proc;
                                      task_start := now |}])
             (set_jobs (amap r (set_pid (Some proc)) (jobs st3)) st3))
      | None => (None, st3)
      end
    /\ disk1 !! target = None
    /\ (fs st !! path_join (running (layout st)) (path_name (script_path job))
        = None -> k = 0).
Proof.
  intros Hjob Hscan Hsrc Hmk Hout Hlog.
  destruct (safe_rename_file (fs st) disk1 (script_path job)
              (running (layout st)) None c Hsrc Hmk)
    as (k & Hren & Hfree & Hbusy & Hsrc1).
  simpl in Hren, Hfree, Hbusy.
  pose proof (mkdir_parents_Some _ _ _ Hmk) as (Hsub & _).
  exists k. cbv zeta.
  set (name := nth_name (path_name (script_path job)) k) in *.
  set (target := path_join (running (layout st)) name) in *.
  set (disk2 := <[target := File c]> (delete (script_path job) disk1)) in *.
  split; [|split; [exact Hfree|]].
  - assert (Hout2 : is_dir disk2 (out (layout st)) = true).
    { unfold out, path_join in *.
      destruct (root (layout st) ++ ["out"]) as [|x p] eqn:Ep.
      { by destruct (root (layout st)). }
      simpl in *.
      destruct (fs st !! (x :: p)) as [[|y]|] eqn:E; try done.
      apply (lookup_weaken _ _ _ _ E) in Hsub.
      unfold disk2. rewrite lookup_insert_ne by congruence.
      rewrite lookup_delete_ne by congruence. by rewrite Hsub. }
    assert (Hlog2 : disk2 !! log_file (layout st) (id job) <> Some Dir).
    { unfold disk2, log_file. rewrite lookup_insert_ne by apply state_dirs_differ.
      destruct (decide (script_path job
                        = path_join (out (layout st)) (id job +:+ ".log")))
        as [<-|Hne].
      - by rewrite lookup_delete_eq.
      - rewrite lookup_delete_ne by done.
        rewrite (mkdir_from_longer _ _ _ _ _ Hmk); [exact Hlog|].
        unfold path_join, running, out, path_join. rewrite !length_app.
        simpl. lia. }
    unfold launch_job. rewrite bind_deref, Hjob.
    unfold find_available_gpu. rewrite bind_run, bind_get, ret_run, Hscan.
    rewrite bind_get, bind_on_fs, Hren.
    unfold assign. rewrite !bind_modify. rewrite bind_on_fs.
    cbn [jobs fs layout set_fs set_jobs].
    rewrite (start_process_run _ _ spawn disk2 Hout2 Hlog2).
    assert (Hjobs : (fun j => if decide (id j = r)
                              then set_assigned_gpu (Some gpu) j else j)
                      <$> ((fun j => if decide (id j = r)
                                     then set_status "RUNNING" j else j)
                             <$> ((fun j => if decide (id j = r)
                                            then set_script_path target j else j)
                                    <$> jobs st))
                    = amap r (placed target gpu) (jobs st)).
    { unfold amap, placed. rewrite <- !list_fmap_compose.
      apply list_fmap_ext. intros _ j _. simpl.
      repeat case_decide; simpl in *; try done; congruence. }
    cbn [jobs fs layout set_fs set_jobs].
    rewrite Hjobs. destruct spawn as [proc|]; [|reflexivity].
    rewrite bind_modify. cbn [jobs fs layout set_fs set_jobs].
    fold (amap r (set_pid (Some proc)) (amap r (placed target gpu) (jobs st))).
    rewrite exec_update_job. cbn [jobs fs layout set_fs set_jobs].
    rewrite (get_job_amap_eq r (set_pid (Some proc)) _ (placed target gpu job));
      [reflexivity | done |].
    by apply get_job_amap_eq.
  - intros Hfree0. destruct k as [|k]; [done|]. exfalso.
    assert (H0 : path_exists disk1
                   (path_join (running (layout st))
                      (path_name (script_path job))) = true)
      by (apply (Hbusy 0); lia).
    apply path_exists_true in H0 as [x Hx].
    rewrite (mkdir_from_longer _ _ _ _ _ Hmk) in Hx; [congruence|].
    unfold path_join. rewrite !length_app. simpl. lia.
Qed.

End Launch.

Section LaunchTheorems.
Import Dirs GpuMonitor Scheduler.

(** X12.  When a GPU is found for the job and its script is where the job
    record says, [_launch_job] moves the script into [running] (under
    its own name if that is free there), creates an empty log file
    [out/<id>.log], records the new path, status RUNNING, the GPU and
    the child's pid in the job, leaves the other jobs and the ledger
    alone, and adds one supervisor task with the start time. *)
Theorem launch_job_starts (st : State) (disk1 : FS)
    (metrics : list GpuMetrics) (now : Q) (proc gpu : Z) (r : string)
    (job : Job) (c : string) :
  get_job r (jobs st) = Some job ->
  scan_gpus metrics (filter (fun j => status j = "RUNNING") (jobs st))
    (vram_required job) = Some gpu ->
  fs st !! script_path job = Some (File c) ->
  mkdir_parents (running (layout st)) (fs st) = (Some tt, disk1) ->
  is_dir (fs st) (out (layout st)) = true ->
  fs st !! log_file (layout st) (id job) <> Some Dir ->
  exists st' name,
    let target := path_join (running (layout st)) name in
    launch_job metrics now (Some proc) r st = (Some tt, st')
    /\ get_job r (jobs st')
       = Some (set_pid (Some proc) (placed target gpu job))
    /\ (forall r', r' <> r -> get_job r' (jobs st') = get_job r' (jobs st))
    /\ fs st' !! target = Some (File c)
    /\ fs st' !! log_file (layout st) (id job) = Some (File EmptyString)
    /\ (script_path job <> log_file (layout st) (id job) ->
        fs st' !! script_path job = None)
    /\ (fs st !! path_join (running (layout st)) (path_name (script_path job))
        = None -> name = path_name (script_path job))
    /\ tasks st' = tasks st ++ [{| task_job := r; task_pid := proc;
                                   task_start := now |}]
    /\ usage st' = usage st.
Proof.
  intros Hjob Hscan Hsrc Hmk Hout Hlog.
  destruct (launch_job_run st disk1 metrics now (Some proc) gpu r job c
              Hjob Hscan Hsrc Hmk Hout Hlog) as (k & Hrun & Hfree & Hname).
  cbv zeta in Hrun, Hfree.
  set (name := nth_name (path_name (script_path job)) k) in *.
  set (target := path_join (running (layout st)) name) in *.
  eexists _, name. cbv zeta. split; [exact Hrun|].
  cbn [jobs fs tasks usage set_tasks set_jobs set_fs].
  assert (Hne : target <> script_path job)
    by (intros E; rewrite E in Hfree;
        pose proof (mkdir_parents_Some _ _ _ Hmk) as (Hsub & _);
        apply (lookup_weaken _ _ _ _ Hsrc) in Hsub; congruence).
  split; [|split; [|split; [|split; [|split; [|split]]]]].
  - apply get_job_amap_eq; [done|]. by apply get_job_amap_eq.
  - intros r' Hr'. by rewrite !get_job_amap_ne.
  - rewrite lookup_insert_ne by (symmetry; apply state_dirs_differ).
    by rewrite lookup_insert_eq.
  - by rewrite lookup_insert_eq.
  - intros Hlogne. rewrite lookup_insert_ne by done.
    rewrite lookup_insert_ne by done. by rewrite lookup_delete_eq.
  - intros Hfree0. unfold name. by rewrite (Hname Hfree0).
  - done.
Qed.

(** X13.  When [Popen] raises, the script has already been moved and the job
    already says RUNNING with its GPU: the exception leaves the job in
    that state with no pid and without a supervisor task, so nothing
    will ever finalise it, and it ends [run_forever]. *)
Theorem launch_job_popen_fails (st0 st : State) (disk1 : FS)
    (nvml : option (list Reading)) (clock : nat -> Q) (now : Q) (gpu : Z)
    (r : string) (job : Job) (c : string) :
  pick_next_job clock st0 = (Some (Some r), st) ->
  get_job r (jobs st) = Some job ->
  scan_gpus (list_gpus nvml)
    (filter (fun j => status j = "RUNNING") (jobs st))
    (vram_required job) = Some gpu ->
  fs st !! script_path job = Some (File c) ->
  mkdir_parents (running (layout st)) (fs st) = (Some tt, disk1) ->
  is_dir (fs st) (out (layout st)) = true ->
  fs st !! log_file (layout st) (id job) <> Some Dir ->
  exists st' name,
    let target := path_join (running (layout st)) name in
    launch_job (list_gpus nvml) now None r st = (None, st')
    /\ get_job r (jobs st') = Some (placed target gpu job)
    /\ status (placed target gpu job) = "RUNNING"
    /\ pid (placed target gpu job) = pid job
    /\ fs st' !! target = Some (File c)
    /\ tasks st' = tasks st
    /\ loop_iteration nvml clock now None st0 = set_loop_alive false st'.
Proof.
  intros Hpick Hjob Hscan Hsrc Hmk Hout Hlog.
  destruct (launch_job_run st disk1 (list_gpus nvml) now None gpu r job c
              Hjob Hscan Hsrc Hmk Hout Hlog) as (k & Hrun & Hfree & Hname).
  cbv zeta in Hrun, Hfree.
  set (name := nth_name (path_name (script_path job)) k) in *.
  set (target := path_join (running (layout st)) name) in *.
  eexists _, name. cbv zeta. split; [exact Hrun|].
  cbn [jobs fs tasks usage set_tasks set_jobs set_fs].
  split; [by apply get_job_amap_eq|]. split; [done|]. split; [done|].
  split.
  { rewrite lookup_insert_ne by (symmetry; apply state_dirs_differ).
    by rewrite lookup_insert_eq. }
  split; [done|].
  unfold loop_iteration. by rewrite run_pass_cases, Hpick, Hrun.
Qed.

End LaunchTheorems.

Lemma launch_job_starts_witness :
  exists st',
    Scheduler.launch_job (GpuMonitor.list_gpus None) 10 (Some 4242%Z) "J1"
      queued_state = (Some tt, st')
    /\ status_of "J1" st' = Some "RUNNING"
    /\ Scheduler.fs st' !! ["work"; "running"; "J1.py"]
       = Some (Dirs.File "print(1)")
    /\ Scheduler.fs st' !! ["work"; "out"; "J1.log"]
       = Some (Dirs.File EmptyString)
    /\ Scheduler.fs st' !! ["work"; "to_run"; "J1.py"] = None.
Proof.
  destruct (launch_job_starts queued_state
              (exec (Dirs.mkdir_parents ["work"; "running"])
                 (Scheduler.fs queued_state))
              (GpuMonitor.list_gpus None) 10 4242 0 "J1" queued_job "print(1)")
    as (st' & name & Hrun & Hjob & _ & Hfile & Hlog & Hgone & Hname & _).
  - vm_compute. reflexivity.
  - vm_compute. reflexivity.
  - vm_compute. reflexivity.
  - apply run_Some. vm_compute. reflexivity.
  - vm_compute. reflexivity.
  - vm_compute. discriminate.
  - exists st'. split; [exact Hrun|].
    rewrite (Hname ltac:(vm_compute; reflexivity)) in Hfile.
    split; [unfold status_of; by rewrite Hjob|].
    split; [exact Hfile|]. split; [exact Hlog|].
    apply Hgone. vm_compute. discriminate.
Defined.

Lemma launch_job_popen_fails_witness :
  exists st',
    Scheduler.loop_iteration None (fun _ => 10%Q) 10 None queued_state
    = Scheduler.set_loop_alive false st'
    /\ status_of "J1" st' = Some "RUNNING"
    /\ Scheduler.tasks st' = [].
Proof.
  destruct (launch_job_popen_fails queued_state
              (exec (Scheduler.pick_next_job (fun _ => 10%Q)) queued_state)
              (exec (Dirs.mkdir_parents ["work"; "running"])
                 (Scheduler.fs queued_state))
              None (fun _ => 10%Q) 10 0 "J1"
              (default queued_job
                 (Scheduler.get_job "J1"
                    (Scheduler.jobs
                       (exec (Scheduler.pick_next_job (fun _ => 10%Q))
                          queued_state))))
              "print(1)")
    as (st' & name & Hrun & Hjob & Hst & _ & _ & Htasks & Hloop).
  - apply run_Some. vm_compute. reflexivity.
  - vm_compute. reflexivity.
  - vm_compute. reflexivity.
  - vm_compute. reflexivity.
  - apply run_Some. vm_compute. reflexivity.
  - vm_compute. reflexivity.
  - vm_compute. discriminate.
  - exists st'. split; [exact Hloop|]. split.
    + unfold status_of. rewrite Hjob. reflexivity.
    + rewrite Htasks. vm_compute. reflexivity.
Defined.

Lemma submit_job_missing_script_witness :
  exists st',
    Scheduler.submit_job ["uploads"; "nope.py"] "alice" (1024 ^ 3) "normal"
      "standard" "J9" 0 fresh_state = (None, st')
    /\ Scheduler.jobs st' = [].
Proof.
  destruct (submit_job_missing_script fresh_state ["uploads"; "nope.py"]
              "alice" (1024 ^ 3) "normal" "standard" "J9" 0)
    as (st' & Hrun & Hjobs & _).
  - vm_compute. reflexivity.
  - exists st'. split; [exact Hrun|]. rewrite Hjobs. reflexivity.
Defined.

Lemma launch_job_missing_script_witness :
  exists st',
    Scheduler.loop_iteration None (fun _ => 10%Q) 10 (Some 4242%Z)
      lost_script_state = Scheduler.set_loop_alive false st'
    /\ status_of "J1" st' = Some "QUEUED".
Proof.
  destruct (launch_job_missing_script lost_script_state
              (exec (Scheduler.pick_next_job (fun _ => 10%Q)) lost_script_state)
              None (fun _ => 10%Q) 10 (Some 4242%Z) "J1"
              (default queued_job
                 (Scheduler.get_job "J1"
                    (Scheduler.jobs
                       (exec (Scheduler.pick_next_job (fun _ => 10%Q))
                          lost_script_state))))
              0)
    as (st' & Hrun & Hjobs & _ & _ & _ & Hloop).
  - apply run_Some. vm_compute. reflexivity.
  - vm_compute. reflexivity.
  - vm_compute. reflexivity.
  - vm_compute. reflexivity.
  - exists st'. split; [exact Hloop|].
    unfold status_of. rewrite Hjobs. vm_compute. reflexivity.
Defined.

Lemma finalize_missing_script_witness :
  exists st',
    Scheduler.wait_and_finalize running_task 0 25 lost_running_state
    = (None, st')
    /\ Scheduler.usage st' !! "alice" = Some (0 + (25 - 10) * inject_Z 1)%Q
    /\ status_of "J1" st' = Some "RUNNING".
Proof.
  destruct (finalize_missing_script lost_running_state running_task 0 25
              running_job)
    as (st' & Hrun & Husage & Hjobs & _).
  - vm_compute. reflexivity.
  - vm_compute. reflexivity.
  - exists st'. split; [exact Hrun|]. split.
    + rewrite Husage. vm_compute. reflexivity.
    + unfold status_of. rewrite Hjobs. vm_compute. reflexivity.
Defined.

(** ** Counting along a daemon pass *)

Section DaemonPassFacts.
Import JobManager.


Lemma count_pending_cons (e : Entry) (l : list Entry) :
  count_pending (e :: l)
  = (if decide (status (job e) = "PENDING") then 1 else 0) + count_pending l.
Proof.
  unfold count_pending. rewrite filter_cons.
  by destruct (decide (status (job e) = "PENDING")).
Qed.

Lemma count_due_cons (now : Q) (e : Entry) (l : list Entry) :
  count_due now (e :: l)
  = (if due now (job e) then 1 else 0) + count_due now l.
Proof.
  unfold count_due. rewrite filter_cons.
  destruct (decide (due now (job e) = true)) as [E|E].
  - by rewrite E.
  - by apply not_true_is_false in E as ->.
Qed.

Lemma due_running (now : Q) (j : Job) : due now j = true -> status j = "RUNNING".
Proof.
  unfold due. intros H. apply andb_true_iff in H as [H _].
  by apply bool_decide_eq_true in H.
Qed.

Lemma complete_one_counts (now : Q) (l : list Entry) :
  count_running (complete_one now <$> l) + count_due now l = count_running l
  /\ count_pending (complete_one now <$> l) = count_pending l.
Proof.
  induction l as [|e l [IHr IHp]]; [done|].
  rewrite fmap_cons, !count_running_cons, !count_pending_cons, count_due_cons.
  destruct (due now (job e)) eqn:E.
  - assert (Hc : complete_one now e
                 = {| job := set_completed now (job e); file := file e |})
      by (unfold complete_one; by rewrite E).
    rewrite Hc. apply due_running in E. cbn [job set_completed status].
    rewrite (decide_False (P := "COMPLETED" = "RUNNING")) by discriminate.
    rewrite (decide_False (P := "COMPLETED" = "PENDING")) by discriminate.
    rewrite decide_True by done. rewrite decide_False by (rewrite E; discriminate).
    lia.
  - assert (Hc : complete_one now e = e)
      by (unfold complete_one; by rewrite E).
    rewrite Hc.
    destruct (decide (status (job e) = "RUNNING"));
      destruct (decide (status (job e) = "PENDING")); lia.
Qed.

Lemma count_running_save_new (j : Job) (e : Entry) (disk : list Entry) :
  NoDup (file <$> disk) -> e ∈ disk ->
  status (job e) <> "RUNNING" -> status j = "RUNNING" ->
  count_running (save_job j (file e) disk) = S (count_running disk).
Proof.
  intros Hnd He Hnot Hj. apply list_elem_of_split in He as (pre & post & ->).
  assert (Hpre : file e ∉ file <$> pre).
  { rewrite fmap_app, fmap_cons in Hnd. apply NoDup_app in Hnd as (_ & Hd & _).
    intros Hin. apply (Hd _ Hin). by left. }
  rewrite save_job_app by done.
  unfold count_running. rewrite !filter_app, !length_app, !filter_cons.
  cbn [job]. rewrite decide_True by done. rewrite decide_False by done.
  simpl. lia.
Qed.

Lemma save_job_keeps (j : Job) (f : string) (e : Entry) (disk : list Entry) :
  e ∈ disk -> file e <> f -> e ∈ save_job j f disk.
Proof.
  induction disk as [|e' disk IH]; intros He Hne.
  - by apply elem_of_nil in He.
  - cbn [save_job]. apply elem_of_cons in He as [->|He].
    + rewrite decide_False by done. by left.
    + destruct (decide (file e' = f)); right; [done | by apply IH].
Qed.

Lemma start_all_count (now : Q) (started disk : list Entry) :
  NoDup (file <$> disk) -> NoDup (file <$> started) ->
  (forall s, s ∈ started ->
             exists e, e ∈ disk /\ file e = file s
                       /\ status (job e) <> "RUNNING") ->
  count_running (start_all now started disk)
  = count_running disk + length started.
Proof.
  revert disk. induction started as [|s started IH]; intros disk Hnd Hnds Hall.
  - unfold start_all. simpl. lia.
  - rewrite fmap_cons in Hnds. apply NoDup_cons in Hnds as [Hs Hnds].
    destruct (Hall s) as (e & He & Hfile & Hst); [by left|].
    unfold start_all in *. cbn [foldl]. rewrite IH; try done.
    + rewrite <- Hfile, (count_running_save_new _ e) by done. simpl. lia.
    + rewrite save_job_files; [done|]. rewrite <- Hfile.
      by apply list_elem_of_fmap_2.
    + intros s' Hs'. destruct (Hall s') as (e' & He' & Hfile' & Hst');
        [by right|].
      exists e'. split; [|done]. apply save_job_keeps; [done|].
      rewrite Hfile'. intros Heq. apply Hs. rewrite <- Heq.
      by apply list_elem_of_fmap_2.
Qed.

Lemma sorted_pending_spec (clock : nat -> Q) (entries : list Entry) (s : Entry) :
  s ∈ sorted_pending clock entries ->
  exists e p, e ∈ entries /\ status (job e) = "PENDING"
              /\ s = {| job := set_priority_score p (job e); file := file e |}.
Proof.
  unfold sorted_pending, scored_pending. rewrite sort_desc_perm. intros Hs.
  destruct (score_pending _ _ _ _) as [scored|] eqn:E; simpl in Hs;
    [|by apply elem_of_nil in Hs].
  destruct (score_pending_spec _ _ _ _ _ _ E Hs) as (e & p & Hi & ->).
  apply list_elem_of_filter in Hi as [Hp He].
  by exists e, p.
Qed.

Lemma sorted_pending_length (clock : nat -> Q) (entries : list Entry) :
  is_Some (scored_pending clock entries) ->
  length (sorted_pending clock entries) = count_pending entries.
Proof.
  intros [scored E]. unfold sorted_pending, count_pending. rewrite E. simpl.
  rewrite (Permutation_length (sort_desc_perm _ _)).
  by destruct (score_pending_lookup _ _ _ _ _ E) as [-> _].
Qed.

Lemma sorted_pending_NoDup (clock : nat -> Q) (entries : list Entry) :
  NoDup (file <$> entries) ->
  NoDup (file <$> sorted_pending clock entries).
Proof.
  intros Hnd. unfold sorted_pending, scored_pending. rewrite sort_desc_perm.
  destruct (score_pending _ _ _ _) as [scored|] eqn:E; simpl;
    [|apply NoDup_nil_2].
  rewrite (score_pending_files _ _ _ _ _ E). clear E.
  induction entries as [|e entries IH]; [by rewrite filter_nil|].
  rewrite fmap_cons in Hnd. apply NoDup_cons in Hnd as [Hnotin Hnd].
  rewrite filter_cons. destruct (decide _); [|by apply IH].
  rewrite fmap_cons. apply NoDup_cons. split; [|by apply IH].
  intros Hin. apply Hnotin. apply list_elem_of_fmap in Hin as (e' & -> & He').
  apply list_elem_of_filter in He' as [_ He']. by apply list_elem_of_fmap_2.
Qed.

End DaemonPassFacts.

(** ** The life cycle of a job file *)

Section DaemonLifecycle.
Import JobManager.

Lemma same_file_same_entry (l : list Entry) (e1 e2 : Entry) :
  NoDup (file <$> l) -> e1 ∈ l -> e2 ∈ l -> file e1 = file e2 -> e1 = e2.
Proof.
  induction l as [|e l IH]; intros Hnd H1 H2 Hf.
  - by apply elem_of_nil in H1.
  - rewrite fmap_cons in Hnd. apply NoDup_cons in Hnd as [Hnotin Hnd].
    apply elem_of_cons in H1 as [->|H1]; apply elem_of_cons in H2 as [->|H2].
    + done.
    + exfalso. apply Hnotin. rewrite Hf. by apply list_elem_of_fmap_2.
    + exfalso. apply Hnotin. rewrite <- Hf. by apply list_elem_of_fmap_2.
    + by apply IH.
Qed.


End DaemonLifecycle.


(** X15.  A pass that returns leaves no slot empty while a job is pending:
    starting from at most [MAX_CONCURRENT] RUNNING jobs, it ends with
    [min(2, r + p)] RUNNING ones, [r] being the RUNNING jobs that are
    not yet due and [p] the PENDING ones; a slot freed by a completion
    is filled in the same pass. *)
Theorem process_jobs_fills_slots (now : Q) (clock : nat -> Q)
    (disk : list JobManager.Entry) :
  NoDup (JobManager.file <$> disk) ->
  (Z.of_nat (count_running disk) <= JobManager.MAX_CONCURRENT)%Z ->
  fst (JobManager.process_jobs now clock disk) = Some tt ->
  count_running (exec (JobManager.process_jobs now clock) disk)
  = Nat.min 2 (count_running disk - count_due now disk + count_pending disk).
Proof.
  intros Hnd Hcap Hret. apply process_jobs_returns in Hret; [|done].
  unfold exec. rewrite process_jobs_run by done.
  cbn [snd]. unfold pass_result. unfold pass_returns in Hret.
  destruct (complete_one_counts now disk) as [Hr Hp].
  set (entries := complete_one now <$> disk) in *.
  unfold JobManager.MAX_CONCURRENT in *.
  destruct (_ <=? 0)%Z eqn:E.
  { apply Z.leb_le in E. lia. }
  apply Z.leb_gt in E.
  assert (Hscored : is_Some (scored_pending clock entries)).
  { simpl in Hret. by destruct (scored_pending clock entries). }
  assert (Hnd' : NoDup (JobManager.file <$> entries))
    by (unfold entries; by rewrite complete_one_files).
  rewrite start_all_count; [| done | |].
  - rewrite length_take, sorted_pending_length by done. lia.
  - rewrite fmap_take. eapply sublist_NoDup; [|apply sublist_take].
    by apply sorted_pending_NoDup.
  - intros s Hs. apply subseteq_take in Hs.
    apply sorted_pending_spec in Hs as (e & p & He & Hpe & ->).
    exists e. split; [done|]. split; [done|]. rewrite Hpe. discriminate.
Qed.


Lemma process_jobs_fills_slots_witness :
  count_running (exec (JobManager.process_jobs 60 (fun _ => 60%Q)) busy_daemon)
  = 2.
Proof.
  rewrite (process_jobs_fills_slots 60 (fun _ => 60%Q) busy_daemon).
  - vm_compute. reflexivity.
  - apply (bool_decide_unpack _). vm_compute. exact I.
  - vm_compute. discriminate.
  - vm_compute. reflexivity.
Defined.

(** ** Rounding *)

Global Instance round_half_even_proper : Proper (Qeq ==> eq) round_half_even.
Proof.
  intros x y E. unfold round_half_even. rewrite (Qfloor_comp _ _ E).
  assert (Ef : (x - inject_Z (Qfloor y) == y - inject_Z (Qfloor y))%Q)
    by (by rewrite E).
  by rewrite (Qcompare_comp _ _ Ef (1 # 2) (1 # 2) (Qeq_refl _)).
Qed.

(** The integer nearest to [x] lies between its floor and the next
    integer. *)
Lemma round_half_even_bounds (x : Q) :
  (Qfloor x <= round_half_even x <= Qfloor x + 1)%Z.
Proof.
  unfold round_half_even. destruct (_ ?= _)%Q; [|lia|lia].
  destruct (Z.even _); lia.
Qed.

Lemma round_half_even_mono (x y : Q) :
  (x <= y)%Q -> (round_half_even x <= round_half_even y)%Z.
Proof.
  intros Hle. pose proof (Qfloor_resp_le _ _ Hle) as Hfl.
  destruct (decide (Qfloor x = Qfloor y)) as [E|E].
  - unfold round_half_even. rewrite E.
    destruct (Qcompare_spec (x - inject_Z (Qfloor y)) (1 # 2)) as [Hx|Hx|Hx];
      destruct (Qcompare_spec (y - inject_Z (Qfloor y)) (1 # 2)) as [Hy|Hy|Hy];
      try lia; try (destruct (Z.even _); lia); exfalso; lra.
  - pose proof (round_half_even_bounds x). pose proof (round_half_even_bounds y).
    lia.
Qed.

(** Rounding moves a value by half a unit at most. *)
Lemma round_half_even_near (x : Q) :
  (x - (1 # 2) <= inject_Z (round_half_even x) <= x + (1 # 2))%Q.
Proof.
  unfold round_half_even.
  pose proof (Qfloor_le x) as Hlo. pose proof (Qlt_floor x) as Hhi.
  rewrite inject_Z_plus in Hhi. change (inject_Z 1) with 1%Q in Hhi.
  destruct (Qcompare_spec (x - inject_Z (Qfloor x)) (1 # 2)) as [H|H|H].
  - destruct (Z.even _); [lra|].
    rewrite inject_Z_plus. change (inject_Z 1) with 1%Q. lra.
  - lra.
  - rewrite inject_Z_plus. change (inject_Z 1) with 1%Q. lra.
Qed.

Lemma py_round2_near (x : Q) :
  (x - (1 # 200) <= py_round2 x <= x + (1 # 200))%Q.
Proof.
  unfold py_round2. pose proof (round_half_even_near (x * 100)) as [Hlo Hhi].
  set (n := inject_Z (round_half_even (x * 100))) in *.
  assert (E : (n / 100 == n * (1 # 100))%Q) by (by field).
  rewrite E. lra.
Qed.

Lemma py_round2_mono (x y : Q) : (x <= y)%Q -> (py_round2 x <= py_round2 y)%Q.
Proof.
  intros Hle. unfold py_round2.
  assert (H : (round_half_even (x * 100) <= round_half_even (y * 100))%Z)
    by (apply round_half_even_mono; lra).
  rewrite Zle_Qle in H. apply Qdiv_le_mono; [reflexivity | exact H].
Qed.

Section DaemonScore.
Import JobManager.

(** The number of active jobs of a user among [all_jobs]. *)
Lemma active_cons (u : string) (j : Job) (l : list Job) :
  length (filter (fun j' => user j' = u
                            /\ (status j' = "PENDING" \/ status j' = "RUNNING"))
            (j :: l))
  = (if decide (user j = u /\ (status j = "PENDING" \/ status j = "RUNNING"))
     then 1 else 0)
    + length (filter (fun j' => user j' = u
                                /\ (status j' = "PENDING" \/ status j' = "RUNNING"))
                l).
Proof. rewrite filter_cons. by destruct (decide _). Qed.

Lemma Qinv_max_antimono (a b : Z) :
  (a <= b)%Z ->
  (1 / inject_Z (Z.max b 1) <= 1 / inject_Z (Z.max a 1))%Q.
Proof.
  intros Hab.
  assert (Ha : (0 < inject_Z (Z.max a 1))%Q).
  { change 0%Q with (inject_Z 0). rewrite <- Zlt_Qlt. lia. }
  assert (Hle : (inject_Z (Z.max a 1) <= inject_Z (Z.max b 1))%Q).
  { rewrite <- Zle_Qle. lia. }
  apply Qle_shift_div_l; [lra|].
  assert (E : (1 / inject_Z (Z.max b 1) * inject_Z (Z.max a 1)
               == inject_Z (Z.max a 1) / inject_Z (Z.max b 1))%Q)
    by (field; lra).
  rewrite E. apply Qdiv_le_one; lra.
Qed.

End DaemonScore.

(** X16.  In the daemon's score the QoS "hil", in whatever letter case,
    raises the score: of two jobs that differ in QoS only, scored at the
    same time against the same queue, the hil one is scored whenever
    the other is, and strictly higher. *)
Theorem hil_scores_higher (now : Q) (h s : JobManager.Job)
    (all_jobs : list JobManager.Job) (ps : Q) :
  lower (JobManager.qos h) = "hil" ->
  lower (JobManager.qos s) <> "hil" ->
  JobManager.user h = JobManager.user s ->
  JobManager.job_name h = JobManager.job_name s ->
  JobManager.script h = JobManager.script s ->
  JobManager.gpu_count h = JobManager.gpu_count s ->
  JobManager.submitted_at h = JobManager.submitted_at s ->
  JobManager.compute_priority now s all_jobs = Some ps ->
  exists ph,
    JobManager.compute_priority now h all_jobs = Some ph /\ (ps < ph)%Q.
Proof.
  intros Hh Hs Hu Hn Hsc Hg Hsub. unfold JobManager.compute_priority.
  rewrite Hu, Hn, Hsc, Hg, Hsub, Hh.
  rewrite (decide_True (P := "hil" = "hil")) by done.
  rewrite (decide_False (P := lower (JobManager.qos s) = "hil")) by done.
  set (phys := existsb _ JobManager.PHYS_KEYWORDS).
  destruct (int_to_float (Z.max (JobManager.gpu_count s) 1)) as [gpus|];
    [|done].
  cbn [mbind option_bind]. intros Hp. injection Hp as <-. eexists. split; [reflexivity|].
  match goal with
  | |- (py_round2 ?x < py_round2 ?y)%Q =>
      pose proof (py_round2_near x) as [_ Hx];
      pose proof (py_round2_near y) as [Hy _];
      assert (E : (y == x + 10)%Q) by (unfold JobManager.W_HIL; ring)
  end.
  lra.
Qed.

(** X17.  The daemon's score of a job is never negative, never goes down
    while the job waits, and never goes up when a job is added to the
    queue; a job that is scored once is scored at any later time and
    against any longer queue. *)
Theorem daemon_score_monotone :
  (forall (t1 t2 : Q) (j : JobManager.Job) (all_jobs : list JobManager.Job)
          (p1 : Q),
      (t1 <= t2)%Q ->
      JobManager.compute_priority t1 j all_jobs = Some p1 ->
      exists p2,
        JobManager.compute_priority t2 j all_jobs = Some p2 /\ (p1 <= p2)%Q)
  /\ (forall (now : Q) (j extra : JobManager.Job)
             (all_jobs : list JobManager.Job) (p : Q),
         JobManager.compute_priority now j all_jobs = Some p ->
         exists p',
           JobManager.compute_priority now j (extra :: all_jobs) = Some p'
           /\ (p' <= p)%Q)
  /\ (forall (now : Q) (j : JobManager.Job) (all_jobs : list JobManager.Job)
             (p : Q),
         JobManager.compute_priority now j all_jobs = Some p -> (0 <= p)%Q).
Proof.
  split; [|split].
  - intros t1 t2 j all_jobs p1 Ht. unfold JobManager.compute_priority.
    set (phys := existsb _ JobManager.PHYS_KEYWORDS).
    destruct (int_to_float (Z.max (JobManager.gpu_count j) 1)) as [gpus|];
      [|done].
    cbn [mbind option_bind]. intros Hp. injection Hp as <-. eexists. split; [reflexivity|].
    apply py_round2_mono.
    assert (Hage : (match JobManager.submitted_at j with
                    | At sub => Qmax ((t1 - sub) / 60) 0
                    | _ => 0
                    end
                    <= match JobManager.submitted_at j with
                       | At sub => Qmax ((t2 - sub) / 60) 0
                       | _ => 0
                       end)%Q).
    { destruct (JobManager.submitted_at j) as [| |sub]; try lra.
      apply Q.max_le_compat_r, Qdiv_le_mono; [reflexivity | lra]. }
    unfold JobManager.W_AGE. lra.
  - intros now j extra all_jobs p. unfold JobManager.compute_priority.
    set (phys := existsb _ JobManager.PHYS_KEYWORDS).
    destruct (int_to_float (Z.max (JobManager.gpu_count j) 1)) as [gpus|];
      [|done].
    cbn [mbind option_bind]. intros Hp. injection Hp as <-. eexists. split; [reflexivity|].
    apply py_round2_mono.
    assert (Hfair : ((if decide (JobManager.user j = EmptyString) then 1
                      else 1 / inject_Z
                                 (Z.max
                                    (Z.of_nat
                                       (length
                                          (filter
                                             (fun j' =>
                                                JobManager.user j' = JobManager.user j
                                                /\ (JobManager.status j' = "PENDING"
                                                    \/ JobManager.status j' = "RUNNING"))
                                             (extra :: all_jobs)))) 1))
                     <= (if decide (JobManager.user j = EmptyString) then 1
                         else 1 / inject_Z
                                    (Z.max
                                       (Z.of_nat
                                          (length
                                             (filter
                                                (fun j' =>
                                                   JobManager.user j' = JobManager.user j
                                                   /\ (JobManager.status j' = "PENDING"
                                                       \/ JobManager.status j' = "RUNNING"))
                                                all_jobs))) 1)))%Q).
    { destruct (decide _); [lra|]. apply Qinv_max_antimono.
      rewrite active_cons. lia. }
    unfold JobManager.W_FAIR. lra.
  - intros now j all_jobs p. unfold JobManager.compute_priority.
    set (phys := existsb _ JobManager.PHYS_KEYWORDS).
    destruct (int_to_float (Z.max (JobManager.gpu_count j) 1)) as [gpus|]
      eqn:Egpus; [|done].
    cbn [mbind option_bind]. intros Hp. injection Hp as <-.
    apply int_to_float_Some in Egpus as [_ ->].
    apply (Qle_trans _ (py_round2 0)); [vm_compute; discriminate|].
    apply py_round2_mono.
    assert (Hpos : forall z, (0 <= 1 / inject_Z (Z.max z 1))%Q).
    { intros z. apply Qdiv_nonneg; [lra|].
      change 0%Q with (inject_Z 0). rewrite <- Zlt_Qlt. lia. }
    assert (Hfair : (0 <= (if decide (JobManager.user j = EmptyString) then 1
                           else 1 / inject_Z
                                      (Z.max
                                         (Z.of_nat
                                            (length
                                               (filter
                                                  (fun j' =>
                                                     JobManager.user j' = JobManager.user j
                                                     /\ (JobManager.status j' = "PENDING"
                                                         \/ JobManager.status j' = "RUNNING"))
                                                  all_jobs))) 1)))%Q).
    { destruct (decide _); [lra | apply Hpos]. }
    assert (Hage : (0 <= match JobManager.submitted_at j with
                         | At sub => Qmax ((now - sub) / 60) 0
                         | _ => 0
                         end)%Q).
    { destruct (JobManager.submitted_at j) as [| |sub]; try lra.
      apply Q.le_max_r. }
    assert (Hphys : (0 <= (if phys then 1 else 0))%Q)
      by (destruct phys; lra).
    assert (Hhil : (0 <= (if decide (lower (JobManager.qos j) = "hil")
                          then 1 else 0))%Q)
      by (destruct (decide (lower (JobManager.qos j) = "hil")); lra).
    pose proof (Hpos (JobManager.gpu_count j)) as Hres.
    unfold JobManager.W_FAIR, JobManager.W_AGE, JobManager.W_PHYS,
      JobManager.W_RES, JobManager.W_HIL.
    lra.
Qed.

Lemma hil_scores_higher_witness :
  exists ph,
    JobManager.compute_priority 60 hil_pending [hil_pending] = Some ph
    /\ (300 # 100 < ph)%Q.
Proof.
  destruct (hil_scores_higher 60%Q hil_pending (pending_job "1001" "alice" 0)
              [hil_pending] (300 # 100)%Q) as (ph & Hph & Hlt).
  - vm_compute. reflexivity.
  - vm_compute. discriminate.
  - reflexivity.
  - reflexivity.
  - reflexivity.
  - reflexivity.
  - reflexivity.
  - vm_compute. reflexivity.
  - by exists ph.
Defined.

Lemma daemon_score_monotone_witness :
  exists p2,
    JobManager.compute_priority 120 hil_pending [hil_pending] = Some p2
    /\ (1300 # 100 <= p2)%Q.
Proof.
  apply (proj1 daemon_score_monotone 60%Q 120%Q hil_pending [hil_pending]).
  - vm_compute. discriminate.
  - vm_compute. reflexivity.
Defined.

(** ** The sorted queue of the priority engine *)

Section SortBy.
Context {A : Type} (le : A -> A -> bool).

Lemma insert_by_perm (x : A) (l : list A) :
  EngineQueue.insert_by le x l ≡ₚ x :: l.
Proof.
  induction l as [|y l IH]; simpl; [done|].
  destruct (le y x); [done|]. rewrite IH. apply Permutation_swap.
Qed.

Lemma sort_by_perm (l : list A) : EngineQueue.sort_by le l ≡ₚ l.
Proof.
  induction l as [|x l IH]; [done|].
  unfold EngineQueue.sort_by in *. simpl. by rewrite insert_by_perm, IH.
Qed.

Lemma insert_by_sorted (x : A) (l : list A) :
  (forall a b, le a b = true \/ le b a = true) ->
  (forall a b c, le a b = true -> le b c = true -> le a c = true) ->
  StronglySorted (fun a b => le b a = true) l ->
  StronglySorted (fun a b => le b a = true) (EngineQueue.insert_by le x l).
Proof.
  intros Htot Htrans. induction 1 as [|y l Hl IH Hy]; simpl.
  - by repeat constructor.
  - destruct (le y x) eqn:E.
    + constructor; [by constructor|]. constructor; [exact E|].
      eapply Forall_impl; [exact Hy|]. intros z Hz. simpl in Hz.
      exact (Htrans _ _ _ Hz E).
    + constructor; [exact IH|]. rewrite insert_by_perm.
      constructor; [|done]. destruct (Htot x y); [done | congruence].
Qed.

Lemma sort_by_sorted (l : list A) :
  (forall a b, le a b = true \/ le b a = true) ->
  (forall a b c, le a b = true -> le b c = true -> le a c = true) ->
  StronglySorted (fun a b => le b a = true) (EngineQueue.sort_by le l).
Proof.
  intros Htot Htrans. induction l as [|x l IH]; [constructor|].
  by apply insert_by_sorted.
Qed.

End SortBy.

Lemma ascii_compare_trans (a b c : ascii) (r : comparison) :
  Ascii.compare a b = r -> Ascii.compare b c = r -> Ascii.compare a c = r.
Proof.
  unfold Ascii.compare. intros H1 H2. destruct r.
  - apply N.compare_eq_iff in H1, H2. apply N.compare_eq_iff. congruence.
  - exact (N.lt_trans _ _ _ H1 H2).
  - apply N.compare_gt_iff in H1. apply N.compare_gt_iff in H2.
    apply N.compare_gt_iff. exact (N.lt_trans _ _ _ H2 H1).
Qed.

Lemma ascii_compare_eq_l (a b c : ascii) :
  Ascii.compare a b = Eq -> Ascii.compare a c = Ascii.compare b c.
Proof.
  unfold Ascii.compare. intros H. apply N.compare_eq_iff in H. by rewrite H.
Qed.

Lemma ascii_compare_eq_r (a b c : ascii) :
  Ascii.compare b c = Eq -> Ascii.compare a b = Ascii.compare a c.
Proof.
  unfold Ascii.compare. intros H. apply N.compare_eq_iff in H. by rewrite H.
Qed.

Lemma string_leb_trans (a b c : string) :
  String.leb a b = true -> String.leb b c = true -> String.leb a c = true.
Proof.
  unfold String.leb. revert b c.
  induction a as [|x a IH]; intros [|y b] [|z c]; simpl; try done.
  destruct (Ascii.compare x y) eqn:Exy; try done.
  - rewrite (ascii_compare_eq_l _ _ z Exy).
    destruct (Ascii.compare y z); [|done|done]. apply IH.
  - destruct (Ascii.compare y z) eqn:Eyz; try done.
    + by rewrite (ascii_compare_eq_r x _ _ Eyz) in Exy; rewrite Exy.
    + by rewrite (ascii_compare_trans _ _ _ _ Exy Eyz).
Qed.

Section Queue.
Import EngineQueue.
Variable fromisoformat : string -> option Q.

Lemma listed_as_scored (p : Q) (d : gmap string string) (j : Job) :
  listed_as (set_priority_score p (set_debug_factors d j)) = listed_as j.
Proof. done. Qed.

Lemma unscored_scored (p : Q) (d : gmap string string) (j : Job) :
  unscored (set_priority_score p (set_debug_factors d j)) = unscored j.
Proof. done. Qed.

Lemma track_completed_run (status : string) (job : Job) (e : Engine) :
  track_completed fromisoformat status job e
  = (Some tt,
     if decide (status = "COMPLETED")
     then if decide (job_id job ∈ processed_job_ids e) then e
          else track_usage fromisoformat job e
     else e).
Proof.
  unfold track_completed. rewrite bind_get.
  by repeat case_decide.
Qed.

Lemma visit_run (now0 now : Q) (job : Job) (b : Buckets) (e : Engine) :
  visit fromisoformat now0 now job b e
  = match PriorityEngine.calculate_priority_call (usage_tracker e) now0 now
            (as_dict fromisoformat job) with
    | Some c =>
        (Some (append_by_status (listed_as job)
                 (set_priority_score c.1 (set_debug_factors c.2 job)) b),
         snd (track_completed fromisoformat (listed_as job)
                (set_priority_score c.1 (set_debug_factors c.2 job)) e))
    | None => (None, e)
    end.
Proof.
  unfold visit. rewrite bind_get, bind_lift_option.
  destruct (PriorityEngine.calculate_priority_call _ _ _ _) as [c|]; [|done].
  rewrite bind_run, !track_completed_run. reflexivity.
Qed.

Lemma filter_scored (P : Job -> Prop) `{!forall j, Decision (P j)}
    (jobs scored : list Job) :
  (forall p d j, P (set_priority_score p (set_debug_factors d j)) <-> P j) ->
  Forall2 scored_copy jobs scored ->
  Forall2 scored_copy (filter P jobs) (filter P scored).
Proof.
  intros HP.
  induction 1 as [|j j' jobs scored (p & d & ->) _ IH]; [constructor|].
  rewrite !filter_cons.
  destruct (decide (P j)) as [Hj|Hj].
  - rewrite decide_True by (by apply HP).
    constructor; [by exists p, d | done].
  - rewrite decide_False by (by rewrite HP). done.
Qed.

Lemma unscored_scored_copy (jobs scored : list Job) :
  Forall2 scored_copy jobs scored -> unscored <$> scored = unscored <$> jobs.
Proof.
  induction 1 as [|j j' jobs scored (p & d & ->) _ IH]; [done|].
  rewrite !fmap_cons. by f_equal.
Qed.

(** What the loop leaves in the four lists. *)
Lemma visit_all_scored (clock0 clock : nat -> Q) (jobs : list Job) (i : nat)
    (b b' : Buckets) (e e' : Engine) :
  visit_all fromisoformat clock0 clock i jobs b e = (Some b', e') ->
  exists scored,
    Forall2 scored_copy jobs scored
    /\ running b' = running b ++ filter (fun j => listed_as j = "RUNNING") scored
    /\ pending b' = pending b ++ filter (fun j => listed_as j = "PENDING") scored
    /\ completed b'
       = completed b ++ filter (fun j => listed_as j = "COMPLETED") scored
    /\ other b' = other b ++ filter listed_last scored.
Proof.
  revert i b e. induction jobs as [|job jobs IH]; intros i b e; simpl.
  - intros [= <- <-]. exists []. rewrite !filter_nil, !app_nil_r.
    split; [constructor | done].
  - rewrite bind_run, visit_run.
    destruct (PriorityEngine.calculate_priority_call _ _ _ _) as [c|]; [|done].
    intros H. apply IH in H as (scored & H2 & Hr & Hp & Hc & Ho).
    exists (set_priority_score c.1 (set_debug_factors c.2 job) :: scored).
    split; [constructor; [by exists c.1, c.2 | done]|].
    rewrite Hr, Hp, Hc, Ho. rewrite !filter_cons. unfold listed_last.
    rewrite !listed_as_scored. unfold append_by_status.
    destruct (decide (listed_as job = "RUNNING")) as [E1|E1].
    { rewrite E1. simpl. by rewrite <- !app_assoc. }
    destruct (decide (listed_as job = "PENDING")) as [E2|E2].
    { rewrite E2. simpl. by rewrite <- !app_assoc. }
    destruct (decide (listed_as job = "COMPLETED")) as [E3|E3].
    { rewrite E3. simpl. by rewrite <- !app_assoc. }
    rewrite decide_True by done. simpl. by rewrite <- !app_assoc.
Qed.

Lemma filter_Forall_self (P : Job -> Prop) `{!forall j, Decision (P j)}
    (l : list Job) : Forall P (filter P l).
Proof.
  apply Forall_forall. intros j Hj. by apply list_elem_of_filter in Hj as [Hj _].
Qed.

Lemma four_way (l : list Job) :
  filter (fun j => listed_as j = "RUNNING") l
  ++ filter (fun j => listed_as j = "PENDING") l
  ++ filter (fun j => listed_as j = "COMPLETED") l
  ++ filter listed_last l ≡ₚ l.
Proof.
  induction l as [|j l IH]; [done|]. rewrite !filter_cons. unfold listed_last.
  destruct (decide (listed_as j = "RUNNING")) as [E1|E1].
  { rewrite E1. simpl. by rewrite IH. }
  destruct (decide (listed_as j = "PENDING")) as [E2|E2].
  { rewrite E2. simpl. rewrite <- Permutation_middle. by rewrite IH. }
  destruct (decide (listed_as j = "COMPLETED")) as [E3|E3].
  { rewrite E3. simpl.
    rewrite (app_assoc (filter _ l) (filter _ l)).
    rewrite <- Permutation_middle. rewrite <- app_assoc. by rewrite IH. }
  rewrite decide_True by done.
  rewrite !app_assoc. rewrite <- Permutation_middle.
  rewrite <- !app_assoc. by rewrite IH.
Qed.

(** X18.  The sorted queue is made of four blocks: the RUNNING jobs in the
    order they came in, the PENDING jobs (a missing status counts as
    PENDING) by descending score, the COMPLETED jobs by descending
    [completed_at] text, and the jobs of any other status in the order
    they came in.  Every job of the input is there once, unchanged but
    for the two entries written into it: [priority_score] and
    [_debug_factors]. *)
Theorem sorted_queue_blocks (clock0 clock : nat -> Q) (jobs out : list Job)
    (e e' : Engine) :
  sort_jobs_by_priority fromisoformat clock0 clock jobs e = (Some out, e') ->
  exists R P C O,
    out = R ++ P ++ C ++ O
    /\ Forall (fun j => listed_as j = "RUNNING") R
    /\ Forall (fun j => listed_as j = "PENDING") P
    /\ Forall (fun j => listed_as j = "COMPLETED") C
    /\ Forall listed_last O
    /\ StronglySorted (desc (fun j => default 0%Q (priority_score j))) P
    /\ StronglySorted later_text_first C
    /\ unscored <$> R
       = unscored <$> filter (fun j => listed_as j = "RUNNING") jobs
    /\ unscored <$> O = unscored <$> filter listed_last jobs
    /\ unscored <$> P
       ≡ₚ unscored <$> filter (fun j => listed_as j = "PENDING") jobs
    /\ unscored <$> C
       ≡ₚ unscored <$> filter (fun j => listed_as j = "COMPLETED") jobs
    /\ Forall (fun j => is_Some (priority_score j)
                        /\ is_Some (debug_factors j)) out
    /\ unscored <$> out ≡ₚ unscored <$> jobs.
Proof.
  unfold sort_jobs_by_priority. rewrite bind_run.
  destruct (visit_all _ _ _ _ _ _ _) as [[b|] e1] eqn:Hloop; [|done].
  intros [= <- <-].
  apply visit_all_scored in Hloop as (scored & H2 & Hr & Hp & Hc & Ho).
  simpl in Hr, Hp, Hc, Ho. rewrite Hr, Hp, Hc, Ho.
  assert (Hstatus : forall (s : string) p d j,
             listed_as (set_priority_score p (set_debug_factors d j)) = s
             <-> listed_as j = s)
    by done.
  assert (Hlast : forall p d j,
             listed_last (set_priority_score p (set_debug_factors d j))
             <-> listed_last j) by done.
  eexists _, _, _, _. split; [reflexivity|].
  split; [apply filter_Forall_self|].
  split; [rewrite sort_desc_perm; apply filter_Forall_self|].
  split.
  { unfold sort_desc_str. rewrite sort_by_perm. apply filter_Forall_self. }
  split; [apply filter_Forall_self|].
  split; [apply sort_desc_sorted|].
  split.
  { apply (sort_by_sorted (fun y x : Job =>
             String.leb (default EmptyString (completed_at y))
               (default EmptyString (completed_at x)))).
    - intros x y. apply String.leb_total.
    - intros x y z. apply string_leb_trans. }
  split.
  { apply unscored_scored_copy, filter_scored; [|done].
    intros p d j. apply Hstatus. }
  split; [by apply unscored_scored_copy, filter_scored|].
  split.
  { rewrite sort_desc_perm.
    rewrite (unscored_scored_copy (filter (fun j => listed_as j = "PENDING") jobs));
      [done|].
    apply filter_scored; [|done]. intros p d j. apply Hstatus. }
  split.
  { unfold sort_desc_str. rewrite sort_by_perm.
    rewrite (unscored_scored_copy
               (filter (fun j => listed_as j = "COMPLETED") jobs)); [done|].
    apply filter_scored; [|done]. intros p d j. apply Hstatus. }
  assert (Hperm : filter (fun j => listed_as j = "RUNNING") scored
                  ++ sort_desc (fun x => default 0%Q (priority_score x))
                       (filter (fun j => listed_as j = "PENDING") scored)
                  ++ sort_desc_str
                       (fun x => default EmptyString (completed_at x))
                       (filter (fun j => listed_as j = "COMPLETED") scored)
                  ++ filter listed_last scored ≡ₚ scored).
  { unfold sort_desc_str. rewrite sort_desc_perm, sort_by_perm.
    apply four_way. }
  split.
  - rewrite Hperm. clear -H2.
    induction H2 as [|j j' jobs scored (p & d & ->) _ IH];
      constructor; [|done].
    split; by eexists.
  - rewrite Hperm. by rewrite (unscored_scored_copy jobs).
Qed.

(** X19.  One job whose [submitted_at] text [fromisoformat] rejects makes the
    whole listing fail: [sort_jobs_by_priority], [get_jobs] and
    [get_job] raise. *)
Theorem listing_fails_on_bad_timestamp (clock0 clock : nat -> Q)
    (jobs : list Job) (j : Job) (wanted : string) (e : Engine) :
  j ∈ jobs ->
  read_stamp fromisoformat (submitted_at j) = Malformed ->
  fst (sort_jobs_by_priority fromisoformat clock0 clock jobs e) = None
  /\ fst (get_jobs fromisoformat clock0 clock jobs e) = None
  /\ fst (get_job fromisoformat clock0 clock jobs wanted e) = None.
Proof.
  intros Hin Hbad.
  assert (Hloop : forall i b e0,
             fst (visit_all fromisoformat clock0 clock i jobs b e0) = None).
  { induction jobs as [|j0 jobs IH]; intros i b e0.
    - by apply elem_of_nil in Hin.
    - simpl. rewrite bind_run, visit_run.
      destruct (PriorityEngine.calculate_priority_call _ _ _ _) as [c|] eqn:Hp;
        [|done].
      apply elem_of_cons in Hin as [<-|Hin]; [|by apply IH].
      unfold PriorityEngine.calculate_priority_call in Hp. simpl in Hp.
      by rewrite Hbad in Hp. }
  assert (Hsort : fst (sort_jobs_by_priority fromisoformat clock0 clock jobs e)
                  = None).
  { unfold sort_jobs_by_priority. rewrite bind_run.
    specialize (Hloop 0 {| running := []; pending := []; completed := [];
                           other := [] |} e).
    by destruct (visit_all _ _ _ _ _ _ _) as [[b|] e1]. }
  split; [exact Hsort|]. split; [exact Hsort|].
  unfold get_job, get_jobs. rewrite bind_run.
  by destruct (sort_jobs_by_priority _ _ _ _ _) as [[l|] e1].
Qed.






(** X21.  [SlurmService.get_job] returns a job of the queue with the wanted
    id, and [None] exactly when the queue has no job with that id. *)
Theorem get_job_finds (clock0 clock : nat -> Q) (squeue : list Job)
    (wanted : string) (found : option Job) (e e' : Engine) :
  get_job fromisoformat clock0 clock squeue wanted e = (Some found, e') ->
  match found with
  | Some j => job_id j = Some wanted /\ unscored j ∈ unscored <$> squeue
  | None => forall j, j ∈ squeue -> job_id j <> Some wanted
  end.
Proof.
  unfold get_job, get_jobs. rewrite bind_run.
  destruct (sort_jobs_by_priority _ _ _ _ _) as [[out|] e1] eqn:Hsort; [|done].
  intros [= <- <-].
  apply sorted_queue_blocks in Hsort
    as (R & P & C & O & _ & _ & _ & _ & _ & _ & _ & _ & _ & _ & _ & _ & Hperm).
  destruct (List.find _ out) as [j|] eqn:Hfind.
  - apply find_some in Hfind as [Hin Hid].
    apply bool_decide_eq_true in Hid. split; [done|].
    rewrite <- Hperm. apply list_elem_of_fmap_2. by apply list_elem_of_In.
  - intros j Hj Hid.
    assert (Hu : unscored j ∈ unscored <$> out)
      by (rewrite Hperm; by apply list_elem_of_fmap_2).
    apply list_elem_of_fmap in Hu as (j' & Heq & Hj').
    apply list_elem_of_In in Hj'.
    apply (find_none _ _ Hfind) in Hj'.
    apply bool_decide_eq_false in Hj'. apply Hj'.
    apply (f_equal job_id) in Heq. simpl in Heq. congruence.
Qed.

End Queue.

Lemma sorted_queue_blocks_witness :
  exists out,
    fst (EngineQueue.sort_jobs_by_priority example_stamps (fun _ => 120%Q)
           (fun _ => 120%Q) example_queue new_engine) = Some out
    /\ unscored <$> out ≡ₚ unscored <$> example_queue
    /\ EngineQueue.job_id <$> out = [Some "1"; Some "2"; Some "3"].
Proof.
  pose proof (run_returns
                (EngineQueue.sort_jobs_by_priority example_stamps
                   (fun _ => 120%Q) (fun _ => 120%Q) example_queue)
                new_engine [] ltac:(vm_compute; reflexivity)) as Hrun.
  destruct (sorted_queue_blocks example_stamps _ _ _ _ _ _ Hrun)
    as (R & P & C & O & _ & _ & _ & _ & _ & _ & _ & _ & _ & _ & _ & _ & Hperm).
  eexists. split; [by rewrite Hrun|]. split; [exact Hperm|].
  vm_compute. reflexivity.
Defined.

Lemma listing_fails_on_bad_timestamp_witness :
  fst (EngineQueue.get_job example_stamps (fun _ => 120%Q) (fun _ => 120%Q)
         (example_queue
          ++ [queue_job "4" "PENDING" "carol" "yesterday" None None])
         "1" new_engine) = None.
Proof.
  apply (listing_fails_on_bad_timestamp example_stamps (fun _ => 120%Q)
           (fun _ => 120%Q) _
           (queue_job "4" "PENDING" "carol" "yesterday" None None) "1"
           new_engine).
  - apply elem_of_app. right. by left.
  - vm_compute. reflexivity.
Defined.


Lemma get_job_finds_witness :
  exists j,
    fst (EngineQueue.get_job example_stamps (fun _ => 120%Q) (fun _ => 120%Q)
           example_queue "3" new_engine) = Some (Some j)
    /\ EngineQueue.job_id j = Some "3"
    /\ unscored j ∈ unscored <$> example_queue.
Proof.
  pose (r := fst (EngineQueue.get_job example_stamps (fun _ => 120%Q)
                    (fun _ => 120%Q) example_queue "3" new_engine)).
  pose (j := default (queue_job "" "" "" "" None None) (default None r)).
  assert (Hrun : EngineQueue.get_job example_stamps (fun _ => 120%Q)
                   (fun _ => 120%Q) example_queue "3" new_engine
                 = (Some (Some j),
                    exec (EngineQueue.get_job example_stamps (fun _ => 120%Q)
                            (fun _ => 120%Q) example_queue "3") new_engine)).
  { apply run_Some. vm_compute. reflexivity. }
  pose proof (get_job_finds example_stamps _ _ _ _ _ _ _ Hrun) as [Hid Hin].
  exists j. split; [by rewrite Hrun|]. split; [exact Hid | exact Hin].
Defined.

(** ** Usage and score in the priority engine *)

Section EngineFairShare.
Import PriorityEngine.

Lemma engine_fs_factor_antimono (u u' : Q) :
  (0 <= u' <= u)%Q ->
  (1 / (1 + u / FAIRSHARE_DECAY_NORM)
   <= 1 / (1 + u' / FAIRSHARE_DECAY_NORM))%Q.
Proof.
  intros [Hu Hle].
  assert (Hn : (0 < FAIRSHARE_DECAY_NORM)%Q) by reflexivity.
  pose proof (Qdiv_nonneg _ _ Hu Hn) as Hx.
  pose proof (Qdiv_le_mono _ _ _ Hn Hle) as Hxy.
  set (x := (u' / FAIRSHARE_DECAY_NORM)%Q) in *.
  set (y := (u / FAIRSHARE_DECAY_NORM)%Q) in *.
  apply Qle_shift_div_l; [lra|].
  assert (E : (1 / (1 + y) * (1 + x) == (1 + x) / (1 + y))%Q)
    by (field; lra).
  rewrite E. apply Qdiv_le_one; lra.
Qed.

(** The score of a job depends on the ledger through the usage of the
    job's user only, and does not go down when that usage goes down. *)
Lemma calculate_priority_usage (t t' : UsageTracker) (now0 now : Q)
    (job : JobDict) (p : Q) :
  let who := default "unknown" (user job) in
  (0 <= get_usage who t' <= get_usage who t)%Q ->
  calculate_priority t now0 now job = Some p ->
  exists p', calculate_priority t' now0 now job = Some p' /\ (p <= p')%Q.
Proof.
  intros who [Hu' Hle]. rewrite !calculate_priority_eq. fold who.
  assert (Hu : (0 <= get_usage who t)%Q) by lra.
  rewrite (engine_fs_factor_value _ Hu), (engine_fs_factor_value _ Hu').
  pose proof (engine_fs_factor_antimono _ _ (conj Hu' Hle)) as Hfs.
  destruct (submitted_at job) as [| |s]; simpl; try done.
  - destruct (size_factor job) as [size|]; simpl; [|done].
    intros Hp. injection Hp as <-. eexists. split; [reflexivity|].
    unfold weighted_sum, WEIGHT_FAIRSHARE.
    set (a := (1 / (1 + get_usage who t / FAIRSHARE_DECAY_NORM))%Q) in *.
    set (b := (1 / (1 + get_usage who t' / FAIRSHARE_DECAY_NORM))%Q) in *.
    lra.
  - destruct (size_factor job) as [size|]; simpl; [|done].
    intros Hp. injection Hp as <-. eexists. split; [reflexivity|].
    unfold weighted_sum, WEIGHT_FAIRSHARE.
    set (a := (1 / (1 + get_usage who t / FAIRSHARE_DECAY_NORM))%Q) in *.
    set (b := (1 / (1 + get_usage who t' / FAIRSHARE_DECAY_NORM))%Q) in *.
    lra.
Qed.

Lemma get_usage_decay (who : string) (factor : Q) (t : UsageTracker) :
  (get_usage who (decay_usage factor t) == get_usage who t * factor)%Q.
Proof.
  unfold get_usage, decay_usage. simpl. rewrite lookup_fmap.
  destruct (usage_data t !! who); simpl; [reflexivity | ring].
Qed.

Lemma get_usage_record (who other : string) (vram_gb duration_sec : Q)
    (t : UsageTracker) :
  get_usage other (record_usage who vram_gb duration_sec t)
  = if decide (other = who)
    then (get_usage who t + vram_gb * duration_sec / 3600)%Q
    else get_usage other t.
Proof.
  unfold get_usage, record_usage. simpl.
  destruct (decide (other = who)) as [->|Hne].
  - by rewrite lookup_insert_eq.
  - by rewrite lookup_insert_ne.
Qed.

End EngineFairShare.

(** X22.  In the priority engine the ledger moves the score the way fair
    share asks for: [decay_usage] with a factor between 0 and 1 does not
    lower the score of any job, recording usage for a user does not
    raise the score of that user's jobs, and it leaves the score of the
    other users' jobs as it is. *)
Theorem engine_usage_moves_priority :
  (forall (t : PriorityEngine.UsageTracker) (factor now0 now : Q)
          (job : PriorityEngine.JobDict) (p : Q),
      (0 <= factor <= 1)%Q ->
      (0 <= PriorityEngine.get_usage
              (default "unknown" (PriorityEngine.user job)) t)%Q ->
      PriorityEngine.calculate_priority t now0 now job = Some p ->
      exists p',
        PriorityEngine.calculate_priority
          (PriorityEngine.decay_usage factor t) now0 now job = Some p'
        /\ (p <= p')%Q)
  /\ (forall (t : PriorityEngine.UsageTracker) (vram_gb duration_sec now0 now : Q)
             (job : PriorityEngine.JobDict) (p' : Q),
         (0 <= vram_gb * duration_sec)%Q ->
         (0 <= PriorityEngine.get_usage
                 (default "unknown" (PriorityEngine.user job)) t)%Q ->
         PriorityEngine.calculate_priority
           (PriorityEngine.record_usage
              (default "unknown" (PriorityEngine.user job))
              vram_gb duration_sec t) now0 now job = Some p' ->
         exists p,
           PriorityEngine.calculate_priority t now0 now job = Some p
           /\ (p' <= p)%Q)
  /\ (forall (t : PriorityEngine.UsageTracker) (who : string)
             (vram_gb duration_sec now0 now : Q)
             (job : PriorityEngine.JobDict),
         who <> default "unknown" (PriorityEngine.user job) ->
         PriorityEngine.calculate_priority
           (PriorityEngine.record_usage who vram_gb duration_sec t)
           now0 now job
         = PriorityEngine.calculate_priority t now0 now job).
Proof.
  split; [|split].
  - intros t factor now0 now job p [Hf0 Hf1] Hu Hp.
    apply (calculate_priority_usage t); [|done]. cbv zeta.
    rewrite get_usage_decay.
    set (u := PriorityEngine.get_usage _ t) in *. split.
    + apply Qmult_le_0_compat; lra.
    + rewrite <- (Qmult_1_r u) at 2.
      rewrite !(Qmult_comm u). by apply Qmult_le_compat_r.
  - intros t vram_gb duration_sec now0 now job p' Hd Hu Hp.
    apply (calculate_priority_usage _ t) in Hp; [done|]. cbv zeta.
    rewrite get_usage_record, decide_True by done.
    set (u := PriorityEngine.get_usage _ t) in *.
    assert (0 <= vram_gb * duration_sec / 3600)%Q
      by (apply Qdiv_nonneg; [done | reflexivity]).
    lra.
  - intros t who vram_gb duration_sec now0 now job Hne.
    rewrite !calculate_priority_eq.
    by rewrite get_usage_record, decide_False by done.
Qed.

Lemma engine_usage_moves_priority_witness :
  exists p',
    PriorityEngine.calculate_priority
      (PriorityEngine.decay_usage (95 # 100)
         {| PriorityEngine.usage_data := <["alice" := 10%Q]> ∅;
            PriorityEngine.db := ∅ |}) 0%Q 60%Q
      {| PriorityEngine.user := Some "alice"; PriorityEngine.qos := None;
         PriorityEngine.partition := None; PriorityEngine.vram_gb := None;
         PriorityEngine.submitted_at := At 0 |} = Some p'
    /\ (10512 <= p')%Q.
Proof.
  destruct (proj1 engine_usage_moves_priority
              {| PriorityEngine.usage_data := <["alice" := 10%Q]> ∅;
                 PriorityEngine.db := ∅ |} (95 # 100)%Q 0%Q 60%Q
              {| PriorityEngine.user := Some "alice"; PriorityEngine.qos := None;
                 PriorityEngine.partition := None; PriorityEngine.vram_gb := None;
                 PriorityEngine.submitted_at := At 0 |}
              (default 0%Q
                 (PriorityEngine.calculate_priority
                    {| PriorityEngine.usage_data := <["alice" := 10%Q]> ∅;
                       PriorityEngine.db := ∅ |} 0%Q 60%Q
                    {| PriorityEngine.user := Some "alice";
                       PriorityEngine.qos := None;
                       PriorityEngine.partition := None;
                       PriorityEngine.vram_gb := None;
                       PriorityEngine.submitted_at := At 0 |})))
    as (p' & Hrun & Hle).
  - split; vm_compute; discriminate.
  - vm_compute. discriminate.
  - vm_compute. reflexivity.
  - exists p'. split; [exact Hrun|].
    eapply Qle_trans; [|exact Hle]. vm_compute. discriminate.
Defined.

(** ** What admission leaves alone, and how the engine reads names *)

Section Frame.
Import Dirs GpuMonitor Scheduler.

Global Instance keeps_ledger_refl : Reflexive keeps_ledger.
Proof. intros st. by repeat split. Qed.

Global Instance keeps_ledger_trans : Transitive keeps_ledger.
Proof.
  intros a b c (U1 & C1 & L1 & S1 & T1) (U2 & C2 & L2 & S2 & T2).
  repeat split; try congruence. by etrans.
Qed.

Lemma assign_keeps_ledger (r : string) (f : Job -> Job) :
  preserves keeps_ledger (assign r f).
Proof. intros st. by repeat split. Qed.

Lemma on_fs_keeps_ledger {A} (m : M FS A) : preserves keeps_ledger (on_fs m).
Proof. apply preserves_on_fs. intros st disk. by repeat split. Qed.

Lemma calculate_slurm_priority_keeps_ledger (now : Q) (r : string) :
  preserves keeps_ledger (calculate_slurm_priority now r).
Proof.
  unfold calculate_slurm_priority.
  apply preserves_bind; [apply _ | apply preserves_deref; apply _ | intros job].
  apply preserves_bind; [apply _ | apply preserves_get; apply _ | intros st].
  apply preserves_bind; [apply _ | apply preserves_lift_option; apply _ | intros fsf].
  apply preserves_bind; [apply _ | apply preserves_lift_option; apply _ | intros size].
  apply preserves_bind; [apply _ | | intros _; apply preserves_ret; apply _].
  apply assign_keeps_ledger.
Qed.

Lemma pick_next_job_keeps_ledger (clock : nat -> Q) :
  preserves keeps_ledger (pick_next_job clock).
Proof.
  unfold pick_next_job.
  apply preserves_bind; [apply _ | apply preserves_get; apply _ | intros st].
  destruct (id <$> filter _ (jobs st)) as [|r rs]; [apply preserves_ret; apply _|].
  apply preserves_bind; [apply _ | | intros _].
  - apply preserves_for_each; [apply _ | apply _ |]. intros ir.
    apply preserves_bind;
      [apply _ | apply calculate_slurm_priority_keeps_ledger | intros p].
    apply assign_keeps_ledger.
  - apply preserves_bind; [apply _ | apply preserves_get; apply _ | intros st'].
    apply preserves_ret; apply _.
Qed.

Lemma launch_job_keeps_ledger (metrics : list GpuMetrics) (now : Q)
    (spawn : option Z) (r : string) :
  preserves keeps_ledger (launch_job metrics now spawn r).
Proof.
  unfold launch_job, find_available_gpu.
  apply preserves_bind; [apply _ | apply preserves_deref; apply _ | intros job].
  apply preserves_bind; [apply _ | | intros found].
  { apply preserves_bind; [apply _ | apply preserves_get; apply _ | intros st].
    apply preserves_ret; apply _. }
  destruct found as [gpu|]; [|apply preserves_ret; apply _].
  apply preserves_bind; [apply _ | apply preserves_get; apply _ | intros st].
  apply preserves_bind; [apply _ | apply on_fs_keeps_ledger | intros p].
  apply preserves_bind; [apply _ | apply assign_keeps_ledger | intros _].
  apply preserves_bind; [apply _ | apply assign_keeps_ledger | intros _].
  apply preserves_bind; [apply _ | apply assign_keeps_ledger | intros _].
  apply preserves_bind; [apply _ | apply on_fs_keeps_ledger | intros proc].
  apply preserves_bind; [apply _ | apply assign_keeps_ledger | intros _].
  apply update_job_preserves; [apply _|].
  apply preserves_modify. intros st'. repeat split. by apply prefix_app_r.
Qed.

End Frame.

(** X23.  Submitting and admitting never charge anybody.  [submit_job] and a
    pass of the loop leave the ledger, the configuration and the layout
    as they are, whether they return or raise, and drop no supervisor
    task ([submit_job] adds none); [_wait_and_finalize] changes the
    ledger entry of the job's user only. *)
Theorem admission_never_charges :
  (forall src user vram part q job_id now (st : Scheduler.State),
      let st' := exec (Scheduler.submit_job src user vram part q job_id now) st in
      keeps_ledger st st' /\ Scheduler.tasks st' = Scheduler.tasks st)
  /\ (forall nvml clock now spawn (st : Scheduler.State),
         keeps_ledger st (exec (Scheduler.run_pass nvml clock now spawn) st))
  /\ (forall (t : Scheduler.Task) rc now (st : Scheduler.State)
             (job : Scheduler.Job) (other : string),
         Scheduler.get_job (Scheduler.task_job t) (Scheduler.jobs st) = Some job ->
         other <> Scheduler.user_id job ->
         Scheduler.get_usage other
           (Scheduler.usage (exec (Scheduler.wait_and_finalize t rc now) st))
         = Scheduler.get_usage other (Scheduler.usage st)).
Proof.
  split; [|split].
  - intros src user vram part q job_id now st. cbv zeta.
    unfold exec, Scheduler.submit_job. rewrite bind_get, bind_on_fs.
    destruct (Dirs.safe_rename _ _ _ _) as [[dst|] disk]; simpl.
    + split; [|done]. by repeat split.
    + split; [|done]. by repeat split.
  - intros nvml clock now spawn st. unfold Scheduler.run_pass.
    apply preserves_bind;
      [apply _ | apply pick_next_job_keeps_ledger | intros [r|]].
    + apply launch_job_keeps_ledger.
    + apply preserves_ret. apply _.
  - intros t rc now st job other Hjob Hne.
    rewrite (wait_and_finalize_usage st t rc now job Hjob).
    unfold Scheduler.get_usage, Scheduler.add_usage.
    by rewrite lookup_insert_ne.
Qed.

Lemma admission_never_charges_witness :
  Scheduler.get_usage "bob"
    (Scheduler.usage
       (exec (Scheduler.wait_and_finalize running_task 0 25) running_state))
  = Scheduler.get_usage "bob" (Scheduler.usage running_state).
Proof.
  apply (proj2 (proj2 admission_never_charges) running_task 0%Z 25%Q
           running_state running_job "bob").
  - vm_compute. reflexivity.
  - vm_compute. discriminate.
Defined.

(** X24.  The priority engine reads the names leniently.  QoS and partition
    are matched whatever their letter case ("HIL" counts as hil, 1.0;
    "Debug" as debug, 1.0); a missing or empty QoS counts as standard
    and a missing or empty partition as normal (0.5 each); a job with no
    [submitted_at] is aged from the moment it is scored; and a
    [submitted_at] that cannot be read makes [calculate_priority]
    raise. *)
Theorem engine_reads_names_leniently :
  (forall job q, PriorityEngine.qos job = Some q -> lower q = "hil" ->
                 PriorityEngine.qos_factor job = 1%Q)
  /\ (forall job p, PriorityEngine.partition job = Some p ->
                    lower p = "debug" ->
                    PriorityEngine.part_factor job = 1%Q)
  /\ (forall job,
         PriorityEngine.qos job = None
         \/ PriorityEngine.qos job = Some EmptyString ->
         PriorityEngine.qos_factor job = (1 # 2)%Q)
  /\ (forall job,
         PriorityEngine.partition job = None
         \/ PriorityEngine.partition job = Some EmptyString ->
         PriorityEngine.part_factor job = (1 # 2)%Q)
  /\ (forall t now0 now job,
         PriorityEngine.submitted_at job = Absent ->
         PriorityEngine.calculate_priority t now0 now job
         = PriorityEngine.calculate_priority t now0 now
             {| PriorityEngine.user := PriorityEngine.user job;
                PriorityEngine.qos := PriorityEngine.qos job;
                PriorityEngine.partition := PriorityEngine.partition job;
                PriorityEngine.vram_gb := PriorityEngine.vram_gb job;
                PriorityEngine.submitted_at := At now0 |})
  /\ (forall t now0 now job,
         PriorityEngine.submitted_at job = Malformed ->
         PriorityEngine.calculate_priority t now0 now job = None).
Proof.
  split; [|split; [|split; [|split; [|split]]]].
  - intros job q Hq Hl. unfold PriorityEngine.qos_factor, PriorityEngine.job_qos.
    rewrite Hq. simpl. by rewrite Hl.
  - intros job p Hp Hl.
    unfold PriorityEngine.part_factor, PriorityEngine.job_partition.
    rewrite Hp. simpl. by rewrite Hl.
  - intros job [H|H]; unfold PriorityEngine.qos_factor, PriorityEngine.job_qos;
      by rewrite H.
  - intros job [H|H];
      unfold PriorityEngine.part_factor, PriorityEngine.job_partition;
      by rewrite H.
  - intros t now0 now job H. rewrite !calculate_priority_eq.
    by rewrite H.
  - intros t now0 now job H. rewrite calculate_priority_eq.
    by rewrite H.
Qed.

Lemma engine_reads_names_leniently_witness :
  PriorityEngine.qos_factor
    {| PriorityEngine.user := Some "alice"; PriorityEngine.qos := Some "HIL";
       PriorityEngine.partition := None; PriorityEngine.vram_gb := None;
       PriorityEngine.submitted_at := Absent |} = 1%Q.
Proof.
  apply (proj1 engine_reads_names_leniently _ "HIL"); reflexivity.
Defined.

(** ** The order among the candidates *)

Section PickOrder.
Import Dirs GpuMonitor Scheduler.

(** The head of a stable descending sort is the first element whose key
    is maximal. *)
Lemma sort_desc_head_first {A} (key : A -> Q) (l : list A) (x : A) :
  head (sort_desc key l) = Some x ->
  exists pre post,
    l = pre ++ x :: post
    /\ Forall (fun y => (key y < key x)%Q) pre
    /\ Forall (fun y => (key y <= key x)%Q) post.
Proof.
  revert x. induction l as [|a l IH]; intros x Hhead; [done|].
  unfold sort_desc in *. cbn [foldr] in Hhead.
  destruct (foldr (insert_desc key) [] l) as [|y s] eqn:Hs.
  - simpl in Hhead. injection Hhead as ->.
    assert (l = []) as ->.
    { apply Permutation_nil_r. rewrite <- Hs. symmetry.
      apply (sort_desc_perm key l). }
    exists [], []. by repeat split.
  - destruct (IH y eq_refl) as (pre & post & -> & Hpre & Hpost).
    cbn [insert_desc] in Hhead.
    destruct (Qle_bool (key y) (key a)) eqn:E; simpl in Hhead;
      injection Hhead as <-.
    + apply Qle_bool_iff in E. exists [], (pre ++ y :: post).
      split; [done|]. split; [constructor|].
      apply Forall_app. split.
      * eapply Forall_impl; [exact Hpre|]. intros z Hz. simpl in Hz. lra.
      * constructor; [done|].
        eapply Forall_impl; [exact Hpost|]. intros z Hz. simpl in Hz. lra.
    + assert (key a < key y)%Q.
      { apply Qnot_le_lt. intros Hle. apply Qle_bool_iff in Hle. congruence. }
      exists (a :: pre), post. split; [done|]. split; [by constructor | done].
Qed.

Lemma sort_desc_nil {A} (key : A -> Q) (l : list A) :
  sort_desc key l = [] -> l = [].
Proof.
  intros H. apply Permutation_nil_r. rewrite <- H. symmetry.
  apply sort_desc_perm.
Qed.

Lemma filter_fmap_status (G : Job -> Job) (l : list Job) :
  (forall j, status (G j) = status j) ->
  filter (fun j => status j = "QUEUED") (G <$> l)
  = G <$> filter (fun j => status j = "QUEUED") l.
Proof.
  intros HG. induction l as [|j l IH]; [done|].
  rewrite fmap_cons, !filter_cons, HG.
  destruct (decide (status j = "QUEUED")); by rewrite IH.
Qed.

Lemma get_job_present (r : string) (l : list Job) :
  r ∈ id <$> l -> is_Some (get_job r l).
Proof.
  unfold get_job. induction l as [|j l IH]; intros Hr.
  - by apply elem_of_nil in Hr.
  - rewrite fmap_cons in Hr. simpl.
    destruct (decide (id j = r)) as [Ej|Ej].
    + by rewrite bool_decide_true.
    + rewrite bool_decide_false by done. apply IH.
      apply elem_of_cons in Hr as [Hr|Hr]; [congruence | done].
Qed.

(** With distinct ids the objects of the candidates are the QUEUED jobs
    of the store, in the order of the store. *)
Lemma rescored_candidates (st st1 : State) :
  NoDup (id <$> jobs st) ->
  rescored st st1 ->
  omap (fun r => get_job r (jobs st1))
    (id <$> filter (fun j => status j = "QUEUED") (jobs st))
  = filter (fun j => status j = "QUEUED") (jobs st1).
Proof.
  intros Hnd (G & HG & E). rewrite E.
  rewrite filter_fmap_status by (intros j; apply HG).
  assert (Hsub : forall j, j ∈ filter (fun j => status j = "QUEUED") (jobs st)
                           -> j ∈ jobs st).
  { intros j Hj. by apply list_elem_of_filter in Hj as [_ Hj]. }
  induction (filter (fun j => status j = "QUEUED") (jobs st)) as [|j l IH];
    [done|].
  rewrite !fmap_cons. cbn [omap list_omap].
  rewrite get_job_fmap by (intros j'; apply HG).
  rewrite (get_job_NoDup _ _ Hnd) by (apply Hsub; by left). simpl.
  f_equal. apply IH. intros j' Hj'. apply Hsub. by right.
Qed.

End PickOrder.

(** X25.  [_pick_next_job] takes the first of the best: it returns [None]
    exactly when no job is QUEUED, and otherwise the job it returns is
    the earliest in the store among the QUEUED jobs of highest score;
    every QUEUED job before it has a strictly lower score. *)
Theorem pick_next_job_first_of_best :
  (forall clock (st : Scheduler.State),
      fst (Scheduler.pick_next_job clock st) = Some None
      <-> filter (fun j => Scheduler.status j = "QUEUED") (Scheduler.jobs st)
          = [])
  /\ (forall clock (st : Scheduler.State) (r : string),
         NoDup (Scheduler.id <$> Scheduler.jobs st) ->
         picked clock st = Some r ->
         exists pre job post,
           filter (fun j => Scheduler.status j = "QUEUED")
             (Scheduler.jobs (exec (Scheduler.pick_next_job clock) st))
           = pre ++ job :: post
           /\ Scheduler.id job = r
           /\ Forall (fun j => (Scheduler.priority_score j
                                < Scheduler.priority_score job)%Q) pre
           /\ Forall (fun j => (Scheduler.priority_score j
                                <= Scheduler.priority_score job)%Q) post).
Proof.
  split.
  - intros clock st. split.
    + intros Hnone.
      destruct (filter (fun j => Scheduler.status j = "QUEUED")
                  (Scheduler.jobs st)) as [|j l] eqn:Hf; [done|].
      exfalso.
      pose proof (pick_next_job_rescored clock st) as (G & HG & E).
      assert (Hin : j ∈ Scheduler.jobs st).
      { assert (Hj : j ∈ j :: l) by left. rewrite <- Hf in Hj.
        by apply list_elem_of_filter in Hj as [_ Hj]. }
      unfold exec, Scheduler.pick_next_job in E, Hnone.
      rewrite bind_get in E, Hnone. rewrite Hf, fmap_cons in E, Hnone.
      rewrite bind_run in E, Hnone.
      destruct (for_each _ _ st) as [[[]|] st1]; [|done].
      rewrite bind_get in E, Hnone. cbn [fst snd ret mret M_ret] in E, Hnone.
      injection Hnone as Hnone. cbn [omap list_omap] in Hnone.
      rewrite E, get_job_fmap in Hnone by (intros j'; apply HG).
      destruct (get_job_present (Scheduler.id j) (Scheduler.jobs st))
        as [j0 Hj0]; [by apply list_elem_of_fmap_2|].
      rewrite Hj0 in Hnone. cbn [fmap option_fmap option_map] in Hnone.
      destruct (sort_desc Scheduler.priority_score _) as [|x s] eqn:Hs
        in Hnone; [|done].
      by apply sort_desc_nil in Hs.
    + intros Hf. unfold Scheduler.pick_next_job. rewrite bind_get.
      by rewrite Hf.
  - intros clock st r Hnd Hpick.
    pose proof (pick_next_job_head _ _ _ Hpick) as Hhead.
    pose proof (pick_next_job_rescored clock st) as Hres.
    rewrite (rescored_candidates _ _ Hnd Hres) in Hhead.
    destruct (sort_desc Scheduler.priority_score _) as [|job sorted] eqn:Hsort;
      [done|].
    injection Hhead as Hid.
    destruct (sort_desc_head_first Scheduler.priority_score _ job
                ltac:(by rewrite Hsort)) as (pre & post & E & Hpre & Hpost).
    by exists pre, job, post.
Qed.

Lemma pick_next_job_first_of_best_witness :
  exists pre job post,
    filter (fun j => Scheduler.status j = "QUEUED")
      (Scheduler.jobs
         (exec (Scheduler.pick_next_job (fun _ => 2%Q)) blocked_state))
    = pre ++ job :: post
    /\ Scheduler.id job = "J1"
    /\ Forall (fun j => (Scheduler.priority_score j
                         < Scheduler.priority_score job)%Q) pre
    /\ Forall (fun j => (Scheduler.priority_score j
                         <= Scheduler.priority_score job)%Q) post.
Proof.
  apply (proj2 pick_next_job_first_of_best (fun _ => 2%Q) blocked_state "J1").
  - apply (bool_decide_unpack _). vm_compute. exact I.
  - vm_compute. reflexivity.
Defined.

(** ** The order among the waiting jobs of the daemon *)

Section DaemonOrder.
Import JobManager.

Lemma sorted_app_elem_of {A} (R : relation A) (l1 l2 : list A) (x y : A) :
  StronglySorted R (l1 ++ l2) -> x ∈ l1 -> y ∈ l2 -> R x y.
Proof.
  induction l1 as [|a l1 IH]; intros Hs Hx Hy.
  - by apply elem_of_nil in Hx.
  - simpl in Hs. apply StronglySorted_inv in Hs as [Hs Hall].
    apply elem_of_cons in Hx as [->|Hx]; [|by apply IH].
    apply (proj1 (Forall_forall _ _) Hall). apply elem_of_app. by right.
Qed.

Lemma save_job_elem_of (j : Job) (f : string) (e' : Entry) (disk : list Entry) :
  NoDup (file <$> disk) ->
  e' ∈ save_job j f disk ->
  e' = {| job := j; file := f |} \/ (e' ∈ disk /\ file e' <> f).
Proof.
  induction disk as [|e disk IH]; intros Hnd He'.
  - cbn [save_job] in He'. apply list_elem_of_singleton in He'. by left.
  - rewrite fmap_cons in Hnd. apply NoDup_cons in Hnd as [Hnotin Hnd].
    cbn [save_job] in He'. destruct (decide (file e = f)) as [E|E].
    + apply elem_of_cons in He' as [->|He']; [by left|].
      right. split; [by right|]. intros Hf. apply Hnotin.
      rewrite E, <- Hf. by apply list_elem_of_fmap_2.
    + apply elem_of_cons in He' as [->|He'].
      * right. split; [by left | done].
      * destruct (IH Hnd He') as [->|[Hin Hne]]; [by left|].
        right. split; [by right | done].
Qed.

(** After step 4 an entry is either the one saved for a started job or
    an entry the step has not touched. *)
Lemma start_all_elem_of (now : Q) (started disk : list Entry) (e' : Entry) :
  NoDup (file <$> disk) ->
  (forall s, s ∈ started -> file s ∈ file <$> disk) ->
  e' ∈ start_all now started disk ->
  (exists s, s ∈ started /\ file s = file e'
             /\ job e' = set_running now (job s))
  \/ (e' ∈ disk /\ file e' ∉ file <$> started).
Proof.
  revert disk. induction started as [|s started IH]; intros disk Hnd Hin He'.
  - right. split; [done|]. rewrite fmap_nil. apply not_elem_of_nil.
  - unfold start_all in *. cbn [foldl] in He'.
    assert (Hfiles : file <$> save_job (set_running now (job s)) (file s) disk
                     = file <$> disk)
      by (apply save_job_files, Hin; by left).
    assert (Hin' : forall s', s' ∈ started ->
              file s' ∈ file <$> save_job (set_running now (job s)) (file s) disk).
    { intros s' Hs'. rewrite Hfiles. apply Hin. by right. }
    assert (Hnd1 : NoDup (file <$> save_job (set_running now (job s))
                                     (file s) disk))
      by (by rewrite Hfiles).
    destruct (IH _ Hnd1 Hin' He') as [(s' & Hs' & Hf & Hj)|[He1 Hnot]].
    + left. exists s'. split; [by right | done].
    + destruct (save_job_elem_of _ _ _ _ Hnd He1) as [->|[He2 Hne]].
      * left. exists s. split; [by left | done].
      * right. split; [done|]. rewrite fmap_cons.
        apply not_elem_of_cons. split; [done | exact Hnot].
Qed.

End DaemonOrder.

(** X26.  The daemon starts the best of the waiting jobs: when a pass starts
    a PENDING job and leaves another one PENDING, the score step 3 gave
    to the started job, which is the score saved in its file, is at
    least the score it gave to the job left waiting. *)
Theorem process_jobs_starts_best (now : Q) (clock : nat -> Q)
    (disk : list JobManager.Entry) (s1 s2 e1 e2 : JobManager.Entry) :
  NoDup (JobManager.file <$> disk) ->
  s1 ∈ sorted_pending clock (complete_one now <$> disk) ->
  s2 ∈ sorted_pending clock (complete_one now <$> disk) ->
  e1 ∈ exec (JobManager.process_jobs now clock) disk ->
  JobManager.file e1 = JobManager.file s1 ->
  JobManager.status (JobManager.job e1) = "RUNNING" ->
  e2 ∈ exec (JobManager.process_jobs now clock) disk ->
  JobManager.file e2 = JobManager.file s2 ->
  JobManager.status (JobManager.job e2) = "PENDING" ->
  JobManager.priority_score (JobManager.job e1)
  = JobManager.priority_score (JobManager.job s1)
  /\ (JobManager.priority_score (JobManager.job s2)
      <= JobManager.priority_score (JobManager.job s1))%Q.
Proof.
  intros Hnd Hs1 Hs2 He1 Hf1 Hr1 He2 Hf2 Hp2.
  unfold exec in He1, He2. rewrite process_jobs_run in He1, He2 by done.
  cbn [snd] in He1, He2. unfold pass_result in He1, He2.
  set (entries := complete_one now <$> disk) in *.
  assert (Hnd' : NoDup (JobManager.file <$> entries))
    by (unfold entries; by rewrite complete_one_files).
  pose proof (sorted_pending_NoDup clock entries Hnd') as Hnds.
  pose proof (sorted_pending_spec clock entries s1 Hs1)
    as (p1 & q1 & Hp1in & Hp1 & Es1).
  assert (Hwait : forall e, e ∈ entries ->
            JobManager.file e = JobManager.file s1 ->
            JobManager.status (JobManager.job e) = "PENDING").
  { intros e He Hf. rewrite Es1 in Hf. cbn [JobManager.file] in Hf.
    by rewrite (same_file_same_entry entries e p1 Hnd' He Hp1in Hf). }
  destruct (_ <=? 0)%Z.
  { rewrite (Hwait e1 He1 Hf1) in Hr1. discriminate. }
  set (n := Z.to_nat _) in *.
  assert (Hin : forall s, s ∈ take n (sorted_pending clock entries) ->
                          JobManager.file s ∈ JobManager.file <$> entries).
  { intros s Hs. apply subseteq_take in Hs.
    apply sorted_pending_spec in Hs as (e & p & He & _ & ->).
    cbn [JobManager.file]. by apply list_elem_of_fmap_2. }
  assert (Hone : s1 ∈ take n (sorted_pending clock entries)
                 /\ JobManager.priority_score (JobManager.job e1)
                    = JobManager.priority_score (JobManager.job s1)).
  { destruct (start_all_elem_of now _ entries e1 Hnd' Hin He1)
      as [(s & Hs & Hf & Hj)|[He Hnot]].
    - assert (s = s1) as ->.
      { apply (same_file_same_entry (sorted_pending clock entries));
          [done | by apply subseteq_take in Hs | done | congruence]. }
      split; [done | by rewrite Hj].
    - rewrite (Hwait e1 He Hf1) in Hr1. discriminate. }
  destruct Hone as [Htake1 Hscore]. split; [exact Hscore|].
  assert (Hdrop2 : s2 ∈ drop n (sorted_pending clock entries)).
  { rewrite <- (take_drop n (sorted_pending clock entries)) in Hs2.
    apply elem_of_app in Hs2 as [Hs2|Hs2]; [|done]. exfalso.
    destruct (start_all_elem_of now _ entries e2 Hnd' Hin He2)
      as [(s & Hs & Hf & Hj)|[He Hnot]].
    - rewrite Hj in Hp2. discriminate.
    - apply Hnot. rewrite Hf2. by apply list_elem_of_fmap_2. }
  pose proof (sort_desc_sorted
                (fun e => JobManager.priority_score (JobManager.job e))
                (default [] (scored_pending clock entries))) as Hsorted.
  fold (sorted_pending clock entries) in Hsorted.
  rewrite <- (take_drop n (sorted_pending clock entries)) in Hsorted.
  exact (sorted_app_elem_of _ _ _ s1 s2 Hsorted Htake1 Hdrop2).
Qed.

Lemma process_jobs_starts_best_witness :
  (default 0%Q
     (JobManager.compute_priority 60 (pending_job "1003" "carol" 20)
        (JobManager.job <$> three_pending))
   <= default 0%Q
        (JobManager.compute_priority 60 (pending_job "1001" "alice" 0)
           (JobManager.job <$> three_pending)))%Q.
Proof.
  pose (scored := fun j : JobManager.Job =>
          JobManager.set_priority_score
            (default 0%Q
               (JobManager.compute_priority 60 j
                  (JobManager.job <$> three_pending))) j).
  apply (process_jobs_starts_best 60 (fun _ => 60%Q) three_pending
           {| JobManager.job := scored (pending_job "1001" "alice" 0);
              JobManager.file := "1001.json" |}
           {| JobManager.job := scored (pending_job "1003" "carol" 20);
              JobManager.file := "1003.json" |}
           {| JobManager.job :=
                JobManager.set_running 60
                  (scored (pending_job "1001" "alice" 0));
              JobManager.file := "1001.json" |}
           {| JobManager.job := pending_job "1003" "carol" 20;
              JobManager.file := "1003.json" |}).
  - apply (bool_decide_unpack _). vm_compute. exact I.
  - vm_compute. left.
  - vm_compute. right. right. left.
  - vm_compute. left.
  - reflexivity.
  - reflexivity.
  - vm_compute. right. right. left.
  - reflexivity.
  - reflexivity.
Defined.

(** ** A score that cannot be computed *)

Section DaemonOverflow.
Import JobManager.

Lemma score_pending_raises (clock : nat -> Q) (k : nat)
    (pending : list Entry) (all_jobs : list Job) (e : Entry) :
  e ∈ pending ->
  (forall now, compute_priority now (job e) all_jobs = None) ->
  score_pending clock k pending all_jobs = None.
Proof.
  intros He Hnone. revert k.
  induction pending as [|e' rest IH]; intros k.
  - by apply elem_of_nil in He.
  - cbn [score_pending]. apply elem_of_cons in He as [<-|He].
    + by rewrite Hnone.
    + destruct (compute_priority _ _ _); [|done]. cbn [mbind option_bind].
      by rewrite IH.
Qed.

End DaemonOverflow.

(** X27.  A [gpu_count] too large for a float stops the pass: when a slot
    is free after the completion step and a PENDING job has a
    [gpu_count] of [2^1024 - 2^970] or more, [compute_priority] and with
    it [process_jobs] raise ([OverflowError] of [1.0 / max(gpu_count, 1)]);
    the completions of the pass are saved and no job is started, so
    fewer than [min(2, r + p)] jobs are RUNNING after the pass, [r]
    being the RUNNING jobs that are not yet due and [p] the PENDING
    ones: a slot stays empty while a job is pending. *)
Theorem process_jobs_overflow (now : Q) (clock : nat -> Q)
    (disk : list JobManager.Entry) (e : JobManager.Entry) :
  NoDup (JobManager.file <$> disk) ->
  e ∈ disk ->
  JobManager.status (JobManager.job e) = "PENDING" ->
  (float_overflow_bound <= JobManager.gpu_count (JobManager.job e))%Z ->
  (Z.of_nat (count_running (complete_one now <$> disk))
   < JobManager.MAX_CONCURRENT)%Z ->
  (forall t all_jobs,
      JobManager.compute_priority t (JobManager.job e) all_jobs = None)
  /\ JobManager.process_jobs now clock disk
     = (None, complete_one now <$> disk)
  /\ count_running (exec (JobManager.process_jobs now clock) disk)
     < Nat.min 2 (count_running disk - count_due now disk + count_pending disk).
Proof.
  intros Hnd He Hp Hbig Hslots.
  assert (Hnone : forall t all_jobs,
             JobManager.compute_priority t (JobManager.job e) all_jobs = None).
  { intros t all_jobs. unfold JobManager.compute_priority.
    assert (E : int_to_float (Z.max (JobManager.gpu_count (JobManager.job e)) 1)
                = None).
    { unfold int_to_float.
      destruct (float_overflow_bound <=? _)%Z eqn:E; [done|].
      apply Z.leb_gt in E. lia. }
    by rewrite E. }
  split; [exact Hnone|].
  assert (Hrun : JobManager.process_jobs now clock disk
                 = (None, complete_one now <$> disk)); last first.
  { split; [exact Hrun|]. unfold exec. rewrite Hrun. cbn [snd].
    destruct (complete_one_counts now disk) as [Hr _].
    assert (Hpend : 0 < count_pending disk).
    { clear -He Hp. induction disk as [|e' l IH]; [by apply elem_of_nil in He|].
      rewrite count_pending_cons. apply elem_of_cons in He as [<-|He].
      - rewrite Hp. rewrite decide_True by done. lia.
      - specialize (IH He). destruct (decide _); lia. }
    unfold JobManager.MAX_CONCURRENT in Hslots. lia. }
  rewrite process_jobs_run by done. unfold pass_returns, pass_result.
  set (entries := complete_one now <$> disk) in *.
  destruct (_ <=? 0)%Z eqn:E; [apply Z.leb_le in E; lia|].
  assert (Hscored : scored_pending clock entries = None).
  { unfold scored_pending. apply (score_pending_raises _ _ _ _ e).
    - apply list_elem_of_filter. split; [done|].
      unfold entries. apply list_elem_of_fmap. exists e. split; [|done].
      unfold complete_one.
      destruct (JobManager.due now (JobManager.job e)) eqn:Hdue; [|done].
      apply due_running in Hdue. rewrite Hp in Hdue. discriminate.
    - intros t. apply Hnone. }
  unfold sorted_pending. rewrite Hscored. simpl. by rewrite take_nil.
Qed.

Lemma process_jobs_overflow_witness :
  JobManager.process_jobs 60 (fun _ => 60%Q) greedy_daemon
  = (None, greedy_daemon)
  /\ count_running
       (exec (JobManager.process_jobs 60 (fun _ => 60%Q)) greedy_daemon) < 2.
Proof.
  destruct (process_jobs_overflow 60 (fun _ => 60%Q) greedy_daemon
              {| JobManager.job := greedy_job; JobManager.file := "1002.json" |})
    as (_ & Hrun & Hcount).
  - apply (bool_decide_unpack _). vm_compute. exact I.
  - right. left.
  - reflexivity.
  - vm_compute. discriminate.
  - vm_compute. reflexivity.
  - split; [exact Hrun|].
    eapply Nat.lt_le_trans; [exact Hcount | apply Nat.le_min_l].
Defined.
